(** * The buffer registry of the async-sys kernel module (module-src/buffer.c)

    A shallow embedding of the registry: the global ordered index
    [map_wrapper], the per-file list of buffers, the three kinds of locks and
    the operations [alloc_buffer], [free_buffer], [get_buffer] and
    [buffer_free_file], followed by the properties of the specification. *)

From stdpp Require Import gmap list sorting.
From Stdlib Require Import ZArith Lia.

Local Open Scope Z_scope.

(** ** Keys and their order *)

(** Addresses returned by [kmalloc]; the null pointer is [None]. *)
Abbreviation addr := positive (only parsing).

(** [pid_t] is an [int]. [buffer_id_t] is declared in buffer.h;
    [free_buffer] prints an id with the conversion "%lu", an unsigned long:
    64 bits on the LP64 kernels the module is built for. *)
Abbreviation pid_t := Z (only parsing).
Abbreviation buffer_id_t := Z (only parsing).

Definition buffer_id_bits : Z := 64.
Definition buffer_id_modulus : Z := 2 ^ buffer_id_bits.

(** [size_t] is 64 bits wide as well. *)
Definition size_modulus : N := (2 ^ 64)%N.

Record map_key := { pid : pid_t; buffer_uid : buffer_id_t }.

Definition map_key_cmp (l_key r_key : map_key) : Z :=
  if pid l_key <? pid r_key then -1
  else if pid l_key >? pid r_key then 1
  else if buffer_uid l_key <? buffer_uid r_key then -1
  else if buffer_uid l_key >? buffer_uid r_key then 1
  else 0.

(** ** The index: a binary search tree of map entries

    A [map_entry] lives inside a [kernel_data] allocation; [entry_addr] is the
    address of that allocation (what [container_of] computes from the node).
    The tree is kept as the search tree [map_search] and [map_insert] walk.
    [rb_insert_color] and the rebalancing part of [rb_erase] belong to the
    kernel's rbtree library; they rotate and recolour, which changes neither
    the nodes of the tree nor their left-to-right order, so the model keeps
    the tree as linked. *)

Record map_entry := { key : map_key; entry_addr : addr }.

Inductive rb_tree :=
| rb_leaf
| rb_node (rb_left : rb_tree) (data : map_entry) (rb_right : rb_tree).

Fixpoint map_search (root : rb_tree) (k : map_key) : option map_entry :=
  match root with
  | rb_leaf => None
  | rb_node l data r =>
      let result := map_key_cmp k (key data) in
      if result <? 0 then map_search l k
      else if result >? 0 then map_search r k
      else Some data
  end.

(** [None] is the C function's [false]: the key is already in the tree. *)
Fixpoint map_insert (root : rb_tree) (data : map_entry) : option rb_tree :=
  match root with
  | rb_leaf => Some (rb_node rb_leaf data rb_leaf)
  | rb_node l this r =>
      let result := map_key_cmp (key data) (key this) in
      if result <? 0 then l' ← map_insert l data; Some (rb_node l' this r)
      else if result >? 0 then r' ← map_insert r data; Some (rb_node l this r')
      else None
  end.

(** [rb_erase] unlinks a node given by pointer; a node with two children is
    replaced by its in-order successor, the leftmost node of its right
    subtree. The node is named by the address of its [kernel_data]. *)
Fixpoint unlink_first (l : rb_tree) (e : map_entry) (r : rb_tree)
  : map_entry * rb_tree :=
  match l with
  | rb_leaf => (e, r)
  | rb_node ll le lr =>
      let '(m, l') := unlink_first ll le lr in (m, rb_node l' e r)
  end.

Definition splice (l r : rb_tree) : rb_tree :=
  match r with
  | rb_leaf => l
  | rb_node rl re rr => let '(m, r') := unlink_first rl re rr in rb_node l m r'
  end.

Fixpoint rb_erase (a : addr) (root : rb_tree) : rb_tree :=
  match root with
  | rb_leaf => rb_leaf
  | rb_node l e r =>
      if decide (entry_addr e = a) then splice (rb_erase a l) (rb_erase a r)
      else rb_node (rb_erase a l) e (rb_erase a r)
  end.

(** The entries of a tree from left to right. *)
Fixpoint entries (t : rb_tree) : list map_entry :=
  match t with
  | rb_leaf => []
  | rb_node l e r => entries l ++ e :: entries r
  end.

Fixpoint all_keys (p : map_key → bool) (t : rb_tree) : bool :=
  match t with
  | rb_leaf => true
  | rb_node l e r => p (key e) && all_keys p l && all_keys p r
  end.

(** The search-tree order: everything on the left compares below the node,
    everything on the right above it. *)
Fixpoint ordered (t : rb_tree) : bool :=
  match t with
  | rb_leaf => true
  | rb_node l e r =>
      all_keys (λ k, map_key_cmp k (key e) =? -1) l
      && all_keys (λ k, map_key_cmp k (key e) =? 1) r
      && ordered l && ordered r
  end.

(** The strict order of the index on entries. *)
Definition key_lt (e1 e2 : map_entry) : Prop :=
  map_key_cmp (key e1) (key e2) = -1.

(** ** The state of the module

    Locks are the kernel's: an [rwlock_t] admits a reader while no writer
    holds it and a writer while nobody holds it; releasing does not check who
    holds the lock, it only takes the holder out of the lock word. A caller
    that cannot take a lock spins until it can. *)

Record rwlock_t := { wlocked : bool; readers : Z }.

Definition RW_LOCK_UNLOCKED : rwlock_t := {| wlocked := false; readers := 0 |}.

(** [struct buffer_slab]: [kernel_buffer] points at the flexible array that
    ends the enclosing [kernel_data], so only [user_buffer] is a block of its
    own. *)
Record buffer_slab := { user_buffer : addr; rwlock : rwlock_t }.

(** A [kmalloc]ed block: its size in bytes and, for a [kernel_data] whose
    slab has been set up, the slab it holds. *)
Record block := { b_size : N; b_slab : option buffer_slab }.

(** [struct file_ll_head]: the lock and the list of the [kernel_data] whose
    [file_ll_node] is linked in, most recently added first. *)
Record file_ll_head := { spinlock : bool; ll_list : list addr }.

(** What the module uses of a [struct file]: [pid_nr(f_owner.pid)],
    [f_owner.lock] and [private_data] (null, or the file's list head). *)
Record file := {
  f_owner_pid : pid_t;
  f_owner_lock : rwlock_t;
  private_data : option file_ll_head
}.

(** [map_wrapper] together with the files and the allocated blocks. *)
Record state := {
  _root : rb_tree;
  _uid_counter : buffer_id_t;
  lock : rwlock_t;
  files : gmap nat file;
  heap : gmap addr block
}.

Definition set_root (t : rb_tree) (s : state) : state :=
  {| _root := t; _uid_counter := _uid_counter s; lock := lock s;
     files := files s; heap := heap s |}.
Definition set_uid_counter (c : buffer_id_t) (s : state) : state :=
  {| _root := _root s; _uid_counter := c; lock := lock s;
     files := files s; heap := heap s |}.
Definition set_lock (l : rwlock_t) (s : state) : state :=
  {| _root := _root s; _uid_counter := _uid_counter s; lock := l;
     files := files s; heap := heap s |}.
Definition set_files (fs : gmap nat file) (s : state) : state :=
  {| _root := _root s; _uid_counter := _uid_counter s; lock := lock s;
     files := fs; heap := heap s |}.
Definition set_heap (h : gmap addr block) (s : state) : state :=
  {| _root := _root s; _uid_counter := _uid_counter s; lock := lock s;
     files := files s; heap := h |}.

Definition set_f_owner_lock (l : rwlock_t) (f : file) : file :=
  {| f_owner_pid := f_owner_pid f; f_owner_lock := l;
     private_data := private_data f |}.
Definition set_private_data (p : option file_ll_head) (f : file) : file :=
  {| f_owner_pid := f_owner_pid f; f_owner_lock := f_owner_lock f;
     private_data := p |}.
Definition set_rwlock (l : rwlock_t) (b : block) : block :=
  {| b_size := b_size b;
     b_slab := (λ sl, {| user_buffer := user_buffer sl; rwlock := l |})
                 <$> b_slab b |}.

(** ** Runs of an operation

    An operation runs from a state and either returns, or stops: it spins on
    a lock it cannot take, or it dereferences a pointer that is null or
    dangling. Both ways it leaves the events it went through, in order. *)

Inductive lock_id :=
| owner_lock (f : nat)        (* file->f_owner.lock *)
| ll_spinlock (f : nat)       (* the spinlock of the file's list head *)
| map_lock                    (* map_wrapper.lock *)
| slab_lock (a : addr).       (* the rwlock of the slab in the block at a *)

Inductive access := shared | exclusive.

Inductive event :=
| ev_acquire (l : lock_id) (m : access)
| ev_release (l : lock_id) (m : access)
| ev_next_id (id : buffer_id_t)     (* map_wrapper._uid_counter++ *)
| ev_err (id : buffer_id_t).        (* mpr_err: no match found *)

Inductive halt := spinning (l : lock_id) | fault.

Inductive outcome (A : Type) :=
| Ret (a : A) (s : state) (tr : list event)
| Halt (h : halt) (s : state) (tr : list event).
Arguments Ret {A} a s tr.
Arguments Halt {A} h s tr.

Definition M (A : Type) : Type := state → outcome A.

#[global] Instance M_ret : MRet M := λ A a s, Ret a s [].
#[global] Instance M_bind : MBind M := λ A B k m s,
  match m s with
  | Ret a s1 t1 =>
      match k a s1 with
      | Ret b s2 t2 => Ret b s2 (t1 ++ t2)
      | Halt h s2 t2 => Halt h s2 (t1 ++ t2)
      end
  | Halt h s1 t1 => Halt h s1 t1
  end.

Definition get_state : M state := λ s, Ret s s [].
Definition put_state (s' : state) : M unit := λ _, Ret () s' [].
Definition emit (e : event) : M unit := λ s, Ret () s [e].
Definition stop {A} (h : halt) : M A := λ s, Halt h s [].

(** Dereferencing: [None] is a null or dangling pointer. *)
Definition deref {A} (o : option A) : M A :=
  match o with Some a => mret a | None => stop fault end.

(** ** Kernel primitives *)

Definition rw_get (l : lock_id) (s : state) : option rwlock_t :=
  match l with
  | owner_lock f => f_owner_lock <$> files s !! f
  | map_lock => Some (lock s)
  | slab_lock a => blk ← heap s !! a; rwlock <$> b_slab blk
  | ll_spinlock _ => None
  end.

Definition rw_set (l : lock_id) (v : rwlock_t) (s : state) : state :=
  match l with
  | owner_lock f => set_files (alter (set_f_owner_lock v) f (files s)) s
  | map_lock => set_lock v s
  | slab_lock a => set_heap (alter (set_rwlock v) a (heap s)) s
  | ll_spinlock _ => s
  end.

Definition read_lock (l : lock_id) : M unit :=
  s ← get_state;
  rw ← deref (rw_get l s);
  if wlocked rw then stop (spinning l)
  else put_state
         (rw_set l {| wlocked := false; readers := readers rw + 1 |} s);;
       emit (ev_acquire l shared).

Definition read_unlock (l : lock_id) : M unit :=
  s ← get_state;
  rw ← deref (rw_get l s);
  put_state
    (rw_set l {| wlocked := wlocked rw; readers := readers rw - 1 |} s);;
  emit (ev_release l shared).

Definition write_lock (l : lock_id) : M unit :=
  s ← get_state;
  rw ← deref (rw_get l s);
  if wlocked rw || negb (readers rw =? 0) then stop (spinning l)
  else put_state (rw_set l {| wlocked := true; readers := readers rw |} s);;
       emit (ev_acquire l exclusive).

Definition write_unlock (l : lock_id) : M unit :=
  s ← get_state;
  rw ← deref (rw_get l s);
  put_state (rw_set l {| wlocked := false; readers := readers rw |} s);;
  emit (ev_release l exclusive).

(** The list head [file->private_data] points to. *)
Definition ll_head (f : nat) : M file_ll_head :=
  s ← get_state;
  file ← deref (files s !! f);
  deref (private_data file).

Definition set_ll_head (f : nat) (hd : file_ll_head) : M unit :=
  s ← get_state;
  put_state (set_files (alter (set_private_data (Some hd)) f (files s)) s).

Definition spin_lock (f : nat) : M unit :=
  hd ← ll_head f;
  if spinlock hd then stop (spinning (ll_spinlock f))
  else set_ll_head f {| spinlock := true; ll_list := ll_list hd |};;
       emit (ev_acquire (ll_spinlock f) exclusive).

Definition spin_unlock (f : nat) : M unit :=
  hd ← ll_head f;
  set_ll_head f {| spinlock := false; ll_list := ll_list hd |};;
  emit (ev_release (ll_spinlock f) exclusive).

(** [list_add(node, head)] puts the node first. *)
Definition list_add (a : addr) (f : nat) : M unit :=
  hd ← ll_head f;
  set_ll_head f {| spinlock := spinlock hd; ll_list := a :: ll_list hd |}.

(** [list_del(node)] unlinks the node from whatever list it is on; the list
    is not named, so every file's list is relieved of it. *)
Definition unlink (a : addr) (f : file) : file :=
  set_private_data
    ((λ hd, {| spinlock := spinlock hd;
               ll_list := filter (λ b, b ≠ a) (ll_list hd) |})
       <$> private_data f) f.

Definition list_del (a : addr) : M unit :=
  s ← get_state;
  put_state (set_files (unlink a <$> files s) s).

Definition kfree (a : addr) : M unit :=
  s ← get_state;
  put_state (set_heap (delete a (heap s)) s).

(** [pid_nr(file->f_owner.pid)] *)
Definition pid_nr_f_owner (f : nat) : M pid_t :=
  s ← get_state;
  file ← deref (files s !! f);
  mret (f_owner_pid file).

(** The slab inside the [kernel_data] at [a]. *)
Definition slab_at (a : addr) : M buffer_slab :=
  s ← get_state;
  blk ← deref (heap s !! a);
  deref (b_slab blk).

(** ** The id generator *)

Definition gen_next_map_id : M buffer_id_t :=
  s ← get_state;
  put_state
    (set_uid_counter ((_uid_counter s + 1) mod buffer_id_modulus) s);;
  emit (ev_next_id (_uid_counter s));;
  mret (_uid_counter s).

(** ** The operations of buffer.c *)

Definition get_buffer (id : buffer_id_t) (p : pid_t) : M (option addr) :=
  let map_key := {| pid := p; buffer_uid := id |} in
  read_lock map_lock;;
  s ← get_state;
  match map_search (_root s) map_key with
  | None =>
      read_unlock map_lock;;
      mret None
  | Some match_ =>
      (* Hand-over-hand lock must be done. *)
      read_lock (slab_lock (entry_addr match_));;
      read_unlock map_lock;;
      mret (Some (entry_addr match_))
  end.

Definition free_buffer (id : buffer_id_t) (file : nat) : M unit :=
  read_lock (owner_lock file);;
  p ← pid_nr_f_owner file;
  let map_key := {| pid := p; buffer_uid := id |} in
  read_unlock (owner_lock file);;
  write_lock map_lock;;
  s ← get_state;
  match map_search (_root s) map_key with
  | None =>
      write_unlock map_lock;;
      emit (ev_err id)
  | Some match_ =>
      let kernel_data := entry_addr match_ in
      spin_lock file;;
      write_lock (slab_lock kernel_data);;
      s ← get_state;
      put_state (set_root (rb_erase kernel_data (_root s)) s);;
      list_del kernel_data;;
      write_unlock map_lock;;
      spin_unlock file;;
      buffer ← slab_at kernel_data;
      kfree (user_buffer buffer);;
      kfree kernel_data
  end.

(** The body of [list_for_each_entry_safe] in [buffer_free_file], over the
    nodes that were on the list when the loop began: the body unlinks only
    the node it is at, and the next node was read before. *)
Fixpoint free_each (nodes : list addr) : M unit :=
  match nodes with
  | [] => mret ()
  | kernel_data :: rest =>
      write_lock (slab_lock kernel_data);;
      s ← get_state;
      put_state (set_root (rb_erase kernel_data (_root s)) s);;
      list_del kernel_data;;
      buffer ← slab_at kernel_data;
      kfree (user_buffer buffer);;
      kfree kernel_data;;
      free_each rest
  end.

Definition buffer_free_file (file : nat) : M unit :=
  s ← get_state;
  f ← deref (files s !! file);
  match private_data f with
  | None => mret ()
  | Some _ =>
      spin_lock file;;
      write_lock map_lock;;
      hd ← ll_head file;
      free_each (ll_list hd);;
      write_unlock map_lock;;
      spin_unlock file
  end.

Section allocation.
(** [sizeof(struct kernel_data)]: the structure's layout comes from headers
    that are not part of buffer.c. *)
Variable sizeof_kernel_data : N.

(** Whether [kmalloc] finds memory, given the blocks in use and the size
    asked for. A successful [kmalloc] returns a block in use nowhere.

    A request of 0 bytes is special in the kernel: [kmalloc] answers it with
    [ZERO_SIZE_PTR], which is not null and points to no memory, so that a
    store through it faults and [kfree] of it does nothing. Here the answer
    to such a request is a block of 0 bytes: it is not null, a store through
    it faults ([store_check]), and freeing it takes nothing away from the
    memory in use. Each such empty region has a name of its own here, where
    the kernel has one pointer for all of them; statements that depend on
    user buffers being told apart are made for sizes that are not 0. The
    kernel never refuses a request of 0 bytes; here [kmalloc_ok] decides for
    it as for any other size, so that a statement made for every
    [kmalloc_ok] covers what the kernel does. *)
Variable kmalloc_ok : gmap addr block → N → bool.

Definition kmalloc (size : N) : M (option addr) :=
  s ← get_state;
  if kmalloc_ok (heap s) size then
    let a := fresh (dom (heap s)) in
    put_state
      (set_heap (<[a := {| b_size := size; b_slab := None |}]> (heap s)) s);;
    mret (Some a)
  else mret None.

(** A store through a pointer that [kmalloc] returned: there has to be
    memory behind it. *)
Definition store_check (a : addr) : M unit :=
  s ← get_state;
  blk ← deref (heap s !! a);
  if (b_size blk =? 0)%N then stop fault else mret ().

(** Filling in [map_entry.buffer]: the two buffer pointers and
    [rwlock_init]. *)
Definition init_slab (a u : addr) : M unit :=
  s ← get_state;
  blk ← deref (heap s !! a);
  put_state
    (set_heap
       (<[a := {| b_size := b_size blk;
                  b_slab := Some {| user_buffer := u;
                                    rwlock := RW_LOCK_UNLOCKED |} |}]>
          (heap s)) s).

(** The result is the slab handed back through [*buffer], named by the
    address of its [kernel_data]; [None] is the C function's [false]. *)
Definition alloc_buffer (user_buffer_size kernel_buffer_size : N)
    (file : nat) : M (option addr) :=
  kd ← kmalloc ((sizeof_kernel_data + kernel_buffer_size)
                  `mod` size_modulus)%N;
  match kd with
  | None => mret None
  | Some kernel_data =>
      (* kernel_data->map_entry.buffer.kernel_buffer = ... *)
      store_check kernel_data;;
      ub ← kmalloc user_buffer_size;
      match ub with
      | None =>
          kfree kernel_data;;
          mret None
      | Some user_buffer =>
          init_slab kernel_data user_buffer;;
          write_lock (slab_lock kernel_data);;
          read_lock (owner_lock file);;
          id ← gen_next_map_id;
          p ← pid_nr_f_owner file;
          let entry :=
            {| key := {| pid := p; buffer_uid := id |};
               entry_addr := kernel_data |} in
          spin_lock file;;
          write_lock map_lock;;
          read_unlock (owner_lock file);;
          s ← get_state;
          match map_insert (_root s) entry with
          | None =>
              (* There was a duplicate....? *)
              write_unlock map_lock;;
              read_unlock (owner_lock file);;
              kfree user_buffer;;
              kfree kernel_data;;
              mret None
          | Some root' =>
              put_state (set_root root' s);;
              write_unlock map_lock;;
              list_add kernel_data file;;
              spin_unlock file;;
              mret (Some kernel_data)
          end
      end
  end.
End allocation.

(** ** States to run from *)

Definition fresh_file (p : pid_t) : file :=
  {| f_owner_pid := p; f_owner_lock := RW_LOCK_UNLOCKED;
     private_data := Some {| spinlock := false; ll_list := [] |} |}.

(** The owner of the file H1 of the specification's scenario. *)
Definition H1_pid : pid_t := 7.

(** The module as loaded, with H1 open as file 1. *)
Definition boot : state :=
  {| _root := rb_leaf; _uid_counter := 0; lock := RW_LOCK_UNLOCKED;
     files := {[ 1%nat := fresh_file H1_pid ]}; heap := ∅ |}.

(** Memory is never short, or always. *)
Definition always (_ : gmap addr block) (_ : N) : bool := true.

Definition never (_ : gmap addr block) (_ : N) : bool := false.

(** ** Reading the events of a run *)

#[global] Instance lock_id_eq_dec : EqDecision lock_id.
Proof. solve_decision. Defined.
#[global] Instance access_eq_dec : EqDecision access.
Proof. solve_decision. Defined.

(** Remove one occurrence. *)
Fixpoint drop_one (x : lock_id * access) (held : list (lock_id * access))
  : list (lock_id * access) :=
  match held with
  | [] => []
  | y :: rest => if decide (x = y) then rest else y :: drop_one x rest
  end.

(** The locks an operation holds after the events [tr], having held [held]
    before, most recently taken first. *)
Fixpoint held_after (held : list (lock_id * access)) (tr : list event)
  : list (lock_id * access) :=
  match tr with
  | [] => held
  | ev_acquire l m :: tr' => held_after ((l, m) :: held) tr'
  | ev_release l m :: tr' => held_after (drop_one (l, m) held) tr'
  | _ :: tr' => held_after held tr'
  end.

(** The tiers of section 5 of the specification; [f_owner.lock] belongs to
    the file, not to the registry, and has no tier. *)
Definition tier (l : lock_id) : option nat :=
  match l with
  | ll_spinlock _ => Some 1%nat
  | map_lock => Some 2%nat
  | slab_lock _ => Some 3%nat
  | owner_lock _ => None
  end.

(** May [l] be taken while [h] is held: not if [h] is of a higher tier. *)
Definition may_take_holding (l h : lock_id) : bool :=
  match tier l, tier h with
  | Some t, Some th => (th <=? t)%nat
  | _, _ => true
  end.

(** No lock is taken while a lock of a higher tier is held. *)
Fixpoint tier_ordered_from (held : list (lock_id * access))
    (tr : list event) : bool :=
  match tr with
  | [] => true
  | ev_acquire l m :: tr' =>
      forallb (λ h, may_take_holding l h.1) held
      && tier_ordered_from ((l, m) :: held) tr'
  | ev_release l m :: tr' => tier_ordered_from (drop_one (l, m) held) tr'
  | _ :: tr' => tier_ordered_from held tr'
  end.

Definition tier_ordered (tr : list event) : bool := tier_ordered_from [] tr.

(** Every increment of the counter happens with [map_wrapper.lock] held for
    writing. *)
Fixpoint next_id_guarded_from (held : list (lock_id * access))
    (tr : list event) : bool :=
  match tr with
  | [] => true
  | ev_acquire l m :: tr' => next_id_guarded_from ((l, m) :: held) tr'
  | ev_release l m :: tr' => next_id_guarded_from (drop_one (l, m) held) tr'
  | ev_next_id _ :: tr' =>
      bool_decide ((map_lock, exclusive) ∈ held)
      && next_id_guarded_from held tr'
  | _ :: tr' => next_id_guarded_from held tr'
  end.

Definition next_id_guarded (tr : list event) : bool :=
  next_id_guarded_from [] tr.

(** The events on the locks of one tier left out. *)
Definition event_tier (e : event) : option nat :=
  match e with
  | ev_acquire l _ | ev_release l _ => tier l
  | _ => None
  end.

Definition without_tier (n : nat) (tr : list event) : list event :=
  filter (λ e, event_tier e ≠ Some n) tr.

(** The position of the first acquisition of [l] among the events. *)
Fixpoint first_acquire (l : lock_id) (tr : list event) : option nat :=
  match tr with
  | [] => None
  | ev_acquire l' _ :: tr' =>
      if decide (l' = l) then Some 0%nat else S <$> first_acquire l tr'
  | _ :: tr' => S <$> first_acquire l tr'
  end.

(** Runs are taken apart by the rules below, not by unfolding. *)
Arguments M_ret : simpl never.
Arguments M_bind : simpl never.
Arguments get_state : simpl never.
Arguments put_state : simpl never.
Arguments emit : simpl never.
Arguments stop : simpl never.
Arguments deref : simpl never.

(** ** Reasoning about runs *)

(** [returns m s Q]: if [m] returns from [s], then [Q] holds of its result,
    final state and events. [runs m s Q]: [m] does return from [s], and [Q]
    holds. *)
Definition returns {A} (m : M A) (s : state)
    (Q : A → state → list event → Prop) : Prop :=
  ∀ a s' tr, m s = Ret a s' tr → Q a s' tr.

Definition runs {A} (m : M A) (s : state)
    (Q : A → state → list event → Prop) : Prop :=
  match m s with
  | Ret a s' tr => Q a s' tr
  | Halt _ _ _ => False
  end.

(** The buffers on a file's list. *)
Definition members (s : state) (f : nat) : list addr :=
  match files s !! f ≫= private_data with
  | Some hd => ll_list hd
  | None => []
  end.

(** ** What each operation does, path by path *)

Definition lookup_miss_trace : list event :=
  [ev_acquire map_lock shared; ev_release map_lock shared].

Definition lookup_hit_trace (a : addr) : list event :=
  [ev_acquire map_lock shared; ev_acquire (slab_lock a) shared;
   ev_release map_lock shared].

Definition release_miss_trace (f : nat) (id : buffer_id_t) : list event :=
  [ev_acquire (owner_lock f) shared; ev_release (owner_lock f) shared;
   ev_acquire map_lock exclusive; ev_release map_lock exclusive; ev_err id].

Definition release_hit_trace (f : nat) (a : addr) : list event :=
  [ev_acquire (owner_lock f) shared; ev_release (owner_lock f) shared;
   ev_acquire map_lock exclusive; ev_acquire (ll_spinlock f) exclusive;
   ev_acquire (slab_lock a) exclusive; ev_release map_lock exclusive;
   ev_release (ll_spinlock f) exclusive].

(** *** [buffer_free_file] *)

(** The tree, the files and the heap once the loop has been through
    [nodes]. *)
Definition erase_each (nodes : list addr) (t : rb_tree) : rb_tree :=
  foldl (λ t a, rb_erase a t) t nodes.

Definition unlink_each (nodes : list addr) (f : file) : file :=
  set_private_data
    ((λ hd, {| spinlock := spinlock hd;
               ll_list := filter (λ b, b ∉ nodes) (ll_list hd) |})
       <$> private_data f) f.

Definition free_slab (h : gmap addr block) (a : addr) : gmap addr block :=
  match h !! a ≫= b_slab with
  | Some slab => delete a (delete (user_buffer slab) h)
  | None => h
  end.

Definition free_slabs (nodes : list addr) (h : gmap addr block)
  : gmap addr block := foldl free_slab h nodes.

Definition slab_lock_trace (nodes : list addr) : list event :=
  (λ a, ev_acquire (slab_lock a) exclusive) <$> nodes.

Definition release_all_trace (f : nat) (nodes : list addr) : list event :=
  [ev_acquire (ll_spinlock f) exclusive; ev_acquire map_lock exclusive]
  ++ slab_lock_trace nodes
  ++ [ev_release map_lock exclusive; ev_release (ll_spinlock f) exclusive].

(** *** [alloc_buffer] *)

Definition alloc_trace (f : nat) (a : addr) (id : buffer_id_t) : list event :=
  [ev_acquire (slab_lock a) exclusive; ev_acquire (owner_lock f) shared;
   ev_next_id id; ev_acquire (ll_spinlock f) exclusive;
   ev_acquire map_lock exclusive; ev_release (owner_lock f) shared;
   ev_release map_lock exclusive; ev_release (ll_spinlock f) exclusive].

Definition alloc_duplicate_trace (f : nat) (a : addr) (id : buffer_id_t)
  : list event :=
  [ev_acquire (slab_lock a) exclusive; ev_acquire (owner_lock f) shared;
   ev_next_id id; ev_acquire (ll_spinlock f) exclusive;
   ev_acquire map_lock exclusive; ev_release (owner_lock f) shared;
   ev_release map_lock exclusive; ev_release (owner_lock f) shared].

Definition next_uid (s : state) : buffer_id_t :=
  (_uid_counter s + 1) mod buffer_id_modulus.

(** What a run of [alloc_buffer] that returns can have done: nothing at
    all, when memory was short; the path of the duplicate key; or the
    allocation. *)
Definition alloc_duplicate (f : nat) (s s' : state) (tr : list event) : Prop :=
  ∃ file hd a,
    files s !! f = Some file ∧ private_data file = Some hd ∧
    spinlock hd = false ∧ wlocked (f_owner_lock file) = false ∧
    lock s = RW_LOCK_UNLOCKED ∧ heap s !! a = None ∧
    is_Some (map_search (_root s)
               {| pid := f_owner_pid file; buffer_uid := _uid_counter s |}) ∧
    s' = {| _root := _root s;
            _uid_counter := next_uid s;
            lock := RW_LOCK_UNLOCKED;
            files :=
              <[f := {| f_owner_pid := f_owner_pid file;
                        f_owner_lock :=
                          {| wlocked := false;
                             readers := readers (f_owner_lock file) - 1 |};
                        private_data :=
                          Some {| spinlock := true;
                                  ll_list := ll_list hd |} |}]> (files s);
            heap := heap s |} ∧
    tr = alloc_duplicate_trace f a (_uid_counter s).

Definition alloc_done (sizeof_kernel_data user_buffer_size
    kernel_buffer_size : N) (f : nat) (s : state) (a : addr) (s' : state)
    (tr : list event) : Prop :=
  ∃ file hd u root',
    files s !! f = Some file ∧ private_data file = Some hd ∧
    spinlock hd = false ∧ wlocked (f_owner_lock file) = false ∧
    lock s = RW_LOCK_UNLOCKED ∧
    heap s !! a = None ∧ heap s !! u = None ∧ a ≠ u ∧
    map_insert (_root s)
      {| key := {| pid := f_owner_pid file; buffer_uid := _uid_counter s |};
         entry_addr := a |} = Some root' ∧
    s' = {| _root := root';
            _uid_counter := next_uid s;
            lock := RW_LOCK_UNLOCKED;
            files :=
              <[f := set_private_data
                       (Some {| spinlock := false;
                                ll_list := a :: ll_list hd |}) file]>
                (files s);
            heap :=
              <[a := {| b_size := (sizeof_kernel_data + kernel_buffer_size)
                                    `mod` size_modulus;
                        b_slab :=
                          Some {| user_buffer := u;
                                  rwlock := {| wlocked := true;
                                               readers := 0 |} |} |}]>
                (<[u := {| b_size := user_buffer_size; b_slab := None |}]>
                   (heap s)) |} ∧
    tr = alloc_trace f a (_uid_counter s).

(** ** The states of the specification's scenario *)

(** The state after [alloc_buffer(4096, 64, H1)] on the module as loaded,
    for a [kernel_data] of 96 bytes: slab 1 under key (7, 0), still locked
    for writing, with its user buffer in block 2. *)
Definition one_buffer : state :=
  {| _root :=
       rb_node rb_leaf
         {| key := {| pid := H1_pid; buffer_uid := 0 |}; entry_addr := 1 |}
         rb_leaf;
     _uid_counter := 1;
     lock := RW_LOCK_UNLOCKED;
     files :=
       {[ 1%nat :=
            {| f_owner_pid := H1_pid; f_owner_lock := RW_LOCK_UNLOCKED;
               private_data :=
                 Some {| spinlock := false; ll_list := [1%positive] |} |} ]};
     heap :=
       {[ 1%positive :=
            {| b_size := 160;
               b_slab := Some {| user_buffer := 2;
                                 rwlock := {| wlocked := true;
                                              readers := 0 |} |} |};
          2%positive := {| b_size := 4096; b_slab := None |} ]} |}.

(** The caller of [alloc_buffer] gives up the write lock it was handed. *)
Definition one_buffer_unlocked : state :=
  set_heap
    (<[1%positive :=
         {| b_size := 160;
            b_slab := Some {| user_buffer := 2;
                              rwlock := RW_LOCK_UNLOCKED |} |}]>
       (heap one_buffer)) one_buffer.

(** The scenario of section 8 of the specification, with what a caller has
    to do in between: give back the write lock an allocation returns with,
    and the read lock a lookup returns with. The results are those of the
    two allocations and of the two lookups. *)
Definition unlock_new_slab (b : option addr) : M unit :=
  match b with
  | Some a => write_unlock (slab_lock a)
  | None => mret ()
  end.

Definition unlock_found_slab (b : option addr) : M unit :=
  match b with
  | Some a => read_unlock (slab_lock a)
  | None => mret ()
  end.

Definition scenario
  : M (option addr * option addr * option addr * option addr) :=
  b0 ← alloc_buffer 96 always 4096 64 1;
  unlock_new_slab b0;;
  b1 ← alloc_buffer 96 always 4096 64 1;
  unlock_new_slab b1;;
  hit ← get_buffer 0 H1_pid;
  unlock_found_slab hit;;
  free_buffer 0 1;;
  miss ← get_buffer 0 H1_pid;
  buffer_free_file 1;;
  mret (b0, b1, hit, miss).

(** The counter at its last value: the next id is 0 again. *)
Definition last_id : state := set_uid_counter (buffer_id_modulus - 1) boot.

(** An allocation whose size computation wraps: a [kernel_data] of 96 bytes
    and a kernel buffer of [2^64 - 1] bytes make a request of 95 bytes. *)
Definition wrapped_size : N := (2 ^ 64 - 1)%N.

(** A state in which the counter has come round to an id that is still
    registered: slab 1 under key (7, 0), and the counter at 0. *)
Definition id_in_use : state := set_uid_counter 0 one_buffer_unlocked.

Definition id_in_use_after : state :=
  set_files
    {[ 1%nat :=
         {| f_owner_pid := H1_pid;
            f_owner_lock := {| wlocked := false; readers := -1 |};
            private_data :=
              Some {| spinlock := true; ll_list := [1%positive] |} |} ]}
    (set_uid_counter 1 id_in_use).

(** The state after [free_buffer(0, H1)] on [one_buffer_unlocked]. *)
Definition emptied : state :=
  {| _root := rb_leaf; _uid_counter := 1; lock := RW_LOCK_UNLOCKED;
     files := {[ 1%nat := fresh_file H1_pid ]}; heap := ∅ |}.

(** ** The rest of buffer.c: [buffer_init_file] *)

(** [buffer_init_file] allocates a list head, initialises it and stores it
    in [file->private_data], whatever was there; the head's block stays in
    the heap (nothing in buffer.c frees it). [sizeof(struct file_ll_head)]
    is a parameter like [sizeof(struct kernel_data)]; the structure holds a
    spinlock and a list head, so its size is never 0 and the stores that
    initialise it have memory behind them. *)
Definition buffer_init_file (sizeof_file_ll_head : N)
    (kmalloc_ok : gmap addr block → N → bool) (file : nat) : M bool :=
  new_ll ← kmalloc kmalloc_ok sizeof_file_ll_head;
  match new_ll with
  | None => mret false
  | Some _ =>
      s ← get_state;
      _ ← deref (files s !! file);
      set_ll_head file {| spinlock := false; ll_list := [] |};;
      mret true
  end.

(** ** Outcomes of both kinds *)

(** [wp m s QR QH]: from [s], [m] either returns with [QR] or stops with
    [QH]. *)
Definition wp {A} (m : M A) (s : state)
    (QR : A → state → list event → Prop)
    (QH : halt → state → list event → Prop) : Prop :=
  match m s with
  | Ret a s' tr => QR a s' tr
  | Halt h s' tr => QH h s' tr
  end.

(** ** Well-formed states *)

(** The [kernel_data] that are in the index. *)
Definition addrs (s : state) : list addr := entry_addr <$> entries (_root s).

(** The slab set up in the block at [a], if there is one. *)
Definition slab_of (s : state) (a : addr) : option buffer_slab :=
  heap s !! a ≫= b_slab.

(** What the operations keep true of the index, the lists and the heap:
    the index is a search tree over distinct [kernel_data]; each of them is
    an allocated block with its slab set up, whose user buffer is another
    allocated block, of its own; the lists of the files hold exactly the
    [kernel_data] of the index, each one once, on one list. *)
Record consistent (s : state) : Prop := {
  c_ordered : ordered (_root s) = true;
  c_addrs : NoDup (addrs s);
  c_live : ∀ a, a ∈ addrs s →
    ∃ slab ublk, slab_of s a = Some slab
                 ∧ heap s !! user_buffer slab = Some ublk
                 ∧ b_slab ublk = None;
  c_user : ∀ a1 a2 sl1 sl2,
    a1 ∈ addrs s → a2 ∈ addrs s →
    slab_of s a1 = Some sl1 → slab_of s a2 = Some sl2 →
    user_buffer sl1 = user_buffer sl2 → a1 = a2;
  c_lists : ∀ f a, a ∈ members s f → a ∈ addrs s;
  c_owned : ∀ a, a ∈ addrs s → ∃ f, a ∈ members s f;
  c_nodup : ∀ f, NoDup (members s f);
  c_disjoint : ∀ f1 f2 a, a ∈ members s f1 → a ∈ members s f2 → f1 = f2
}.

(** The counter has not wrapped: every id in the index was drawn from it. *)
Definition ids_below (s : state) : Prop :=
  0 ≤ _uid_counter s < buffer_id_modulus
  ∧ ∀ e, e ∈ entries (_root s) → 0 ≤ buffer_uid (key e) < _uid_counter s.

(** What [free_buffer] and the loop of [buffer_free_file] do to the data
    for one [kernel_data]: out of the index, off the lists, its two blocks
    freed. *)
Definition release_slab (s : state) (a : addr) : state :=
  {| _root := rb_erase a (_root s);
     _uid_counter := _uid_counter s;
     lock := lock s;
     files := unlink a <$> files s;
     heap := free_slab (heap s) a |}.

(** The lock of the slab at [a] is there and nobody holds it. *)
Definition slab_unlocked (s : state) (a : addr) : Prop :=
  rw_get (slab_lock a) s = Some RW_LOCK_UNLOCKED.

(** Two open files of the same owner, and a third of another. *)
Definition two_files : state :=
  {| _root := rb_leaf; _uid_counter := 0; lock := RW_LOCK_UNLOCKED;
     files := {[ 1%nat := fresh_file H1_pid; 2%nat := fresh_file H1_pid;
                 3%nat := fresh_file 8 ]};
     heap := ∅ |}.

(** A file that was never given a list head. *)
Definition unopened : state :=
  {| _root := rb_leaf; _uid_counter := 0; lock := RW_LOCK_UNLOCKED;
     files := {[ 1%nat := {| f_owner_pid := H1_pid;
                             f_owner_lock := RW_LOCK_UNLOCKED;
                             private_data := None |} ]};
     heap := ∅ |}.

(** A tree of three keys of two owners. *)
Definition three_keys : rb_tree :=
  rb_node
    (rb_node rb_leaf
       {| key := {| pid := 7; buffer_uid := 0 |}; entry_addr := 1 |} rb_leaf)
    {| key := {| pid := 7; buffer_uid := 4 |}; entry_addr := 5 |}
    (rb_node rb_leaf
       {| key := {| pid := 8; buffer_uid := 1 |}; entry_addr := 3 |} rb_leaf).

(** [two_files] after an allocation through file 2 whose write lock has
    been given back: slab 1 under key (7, 0), on the list of file 2. *)
Definition shared_owner : state :=
  {| _root :=
       rb_node rb_leaf
         {| key := {| pid := H1_pid; buffer_uid := 0 |}; entry_addr := 1 |}
         rb_leaf;
     _uid_counter := 1;
     lock := RW_LOCK_UNLOCKED;
     files :=
       {[ 1%nat := fresh_file H1_pid;
          2%nat :=
            {| f_owner_pid := H1_pid; f_owner_lock := RW_LOCK_UNLOCKED;
               private_data :=
                 Some {| spinlock := false; ll_list := [1%positive] |} |};
          3%nat := fresh_file 8 ]};
     heap :=
       {[ 1%positive :=
            {| b_size := 160;
               b_slab := Some {| user_buffer := 2;
                                 rwlock := RW_LOCK_UNLOCKED |} |};
          2%positive := {| b_size := 4096; b_slab := None |} ]} |}.

(** [two_files] after an allocation through file 1 and one through file 3,
    the write locks given back: slab 1 under key (7, 0) on the list of
    file 1, slab 3 under key (8, 1) on the list of file 3. *)
Definition two_buffers : state :=
  {| _root :=
       rb_node rb_leaf
         {| key := {| pid := H1_pid; buffer_uid := 0 |}; entry_addr := 1 |}
         (rb_node rb_leaf
            {| key := {| pid := 8; buffer_uid := 1 |}; entry_addr := 3 |}
            rb_leaf);
     _uid_counter := 2;
     lock := RW_LOCK_UNLOCKED;
     files :=
       {[ 1%nat :=
            {| f_owner_pid := H1_pid; f_owner_lock := RW_LOCK_UNLOCKED;
               private_data :=
                 Some {| spinlock := false; ll_list := [1%positive] |} |};
          2%nat := fresh_file H1_pid;
          3%nat :=
            {| f_owner_pid := 8; f_owner_lock := RW_LOCK_UNLOCKED;
               private_data :=
                 Some {| spinlock := false; ll_list := [3%positive] |} |} ]};
     heap :=
       {[ 1%positive :=
            {| b_size := 160;
               b_slab := Some {| user_buffer := 2;
                                 rwlock := RW_LOCK_UNLOCKED |} |};
          2%positive := {| b_size := 4096; b_slab := None |};
          3%positive :=
            {| b_size := 160;
               b_slab := Some {| user_buffer := 4;
                                 rwlock := RW_LOCK_UNLOCKED |} |};
          4%positive := {| b_size := 4096; b_slab := None |} ]} |}.

(** The module as loaded after two allocations through H1, the write locks
    given back, and a lookup of the first buffer: the slabs 3 and 1 on the
    list of H1, and one reader on slab 1. *)
Definition one_reader : state :=
  {| _root :=
       rb_node rb_leaf
         {| key := {| pid := H1_pid; buffer_uid := 0 |}; entry_addr := 1 |}
         (rb_node rb_leaf
            {| key := {| pid := H1_pid; buffer_uid := 1 |}; entry_addr := 3 |}
            rb_leaf);
     _uid_counter := 2;
     lock := RW_LOCK_UNLOCKED;
     files :=
       {[ 1%nat :=
            {| f_owner_pid := H1_pid; f_owner_lock := RW_LOCK_UNLOCKED;
               private_data :=
                 Some {| spinlock := false;
                         ll_list := [3%positive; 1%positive] |} |} ]};
     heap :=
       {[ 1%positive :=
            {| b_size := 160;
               b_slab := Some {| user_buffer := 2;
                                 rwlock := {| wlocked := false;
                                              readers := 1 |} |} |};
          2%positive := {| b_size := 4096; b_slab := None |};
          3%positive :=
            {| b_size := 160;
               b_slab := Some {| user_buffer := 4;
                                 rwlock := RW_LOCK_UNLOCKED |} |};
          4%positive := {| b_size := 4096; b_slab := None |} ]} |}.

(** [one_buffer_unlocked] with a second file of the same owner that was
    never given a list head. *)
Definition half_open : state :=
  set_files
    (<[2%nat := {| f_owner_pid := H1_pid; f_owner_lock := RW_LOCK_UNLOCKED;
                   private_data := None |}]> (files one_buffer_unlocked))
    one_buffer_unlocked.

(** ** Histories

    What the callers of buffer.c do to the registry, one call after the
    other: the operations, and giving back the lock of a slab that
    [alloc_buffer] or [get_buffer] returned with. *)
Inductive call :=
| call_alloc_buffer (user_buffer_size kernel_buffer_size : N) (file : nat)
| call_free_buffer (id : buffer_id_t) (file : nat)
| call_get_buffer (id : buffer_id_t) (p : pid_t)
| call_buffer_free_file (file : nat)
| call_buffer_init_file (file : nat)
| call_write_unlock (a : addr)
| call_read_unlock (a : addr).

#[global] Instance call_eq_dec : EqDecision call.
Proof. solve_decision. Defined.

Definition run_call (sizeof_kernel_data sizeof_file_ll_head : N)
    (kmalloc_ok : gmap addr block → N → bool) (c : call) : M unit :=
  match c with
  | call_alloc_buffer us ks f =>
      alloc_buffer sizeof_kernel_data kmalloc_ok us ks f;; mret ()
  | call_free_buffer id f => free_buffer id f
  | call_get_buffer id p => get_buffer id p;; mret ()
  | call_buffer_free_file f => buffer_free_file f
  | call_buffer_init_file f =>
      buffer_init_file sizeof_file_ll_head kmalloc_ok f;; mret ()
  | call_write_unlock a => write_unlock (slab_lock a)
  | call_read_unlock a => read_unlock (slab_lock a)
  end.

Fixpoint run_calls (sizeof_kernel_data sizeof_file_ll_head : N)
    (kmalloc_ok : gmap addr block → N → bool) (cs : list call) : M unit :=
  match cs with
  | [] => mret ()
  | c :: rest =>
      run_call sizeof_kernel_data sizeof_file_ll_head kmalloc_ok c;;
      run_calls sizeof_kernel_data sizeof_file_ll_head kmalloc_ok rest
  end.

(** Whatever the index holds under the key [k] is on the list of [f]. *)
Definition listed (k : map_key) (f : nat) (s : state) : Prop :=
  ∀ e, e ∈ entries (_root s) → key e = k → entry_addr e ∈ members s f.

(** What the history theorem keeps about an allocated buffer: the index is
    ordered, whatever is registered under the buffer's key is on the file's
    list, the registry lock is free, and the key's id is below the
    counter. *)
Definition tracked (k : map_key) (f : nat) (s : state) : Prop :=
  ordered (_root s) = true ∧ listed k f s ∧ lock s = RW_LOCK_UNLOCKED
  ∧ 0 ≤ buffer_uid k < _uid_counter s.

(** The calls of the specification's scenario between the first allocation
    and the teardown, without the release. *)
Definition scenario_calls : list call :=
  [call_write_unlock 1; call_alloc_buffer 4096 64 1; call_write_unlock 3;
   call_get_buffer 0 H1_pid; call_read_unlock 1].

(** * Properties *)

(** ** Facts about the key order *)

Section key_order.
Implicit Types a b c : map_key.

Lemma map_key_cmp_range a b :
  map_key_cmp a b = -1 ∨ map_key_cmp a b = 0 ∨ map_key_cmp a b = 1.
Proof. unfold map_key_cmp. repeat case_match; auto. Qed.

Lemma map_key_cmp_eq a b : map_key_cmp a b = 0 ↔ a = b.
Proof.
  unfold map_key_cmp. destruct a as [p1 u1], b as [p2 u2]; simpl.
  rewrite !Z.gtb_ltb. split.
  - repeat case_match; try discriminate; intros _; f_equal; lia.
  - intros [= -> ->]. rewrite !Z.ltb_irrefl. done.
Qed.

Lemma map_key_cmp_lt a b :
  map_key_cmp a b = -1 ↔
  pid a < pid b ∨ (pid a = pid b ∧ buffer_uid a < buffer_uid b).
Proof.
  unfold map_key_cmp. rewrite !Z.gtb_ltb.
  repeat case_match; split; try discriminate; try lia; auto.
Qed.

Lemma map_key_cmp_gt a b : map_key_cmp a b = 1 ↔ map_key_cmp b a = -1.
Proof.
  rewrite map_key_cmp_lt. unfold map_key_cmp. rewrite !Z.gtb_ltb.
  repeat case_match; split; try discriminate; try lia; auto.
Qed.

Lemma map_key_cmp_lt_trans a b c :
  map_key_cmp a b = -1 → map_key_cmp b c = -1 → map_key_cmp a c = -1.
Proof. rewrite !map_key_cmp_lt. lia. Qed.

Lemma map_key_cmp_refl a : map_key_cmp a a = 0.
Proof. by apply map_key_cmp_eq. Qed.
End key_order.

(** ** Facts about the index *)

Section index_facts.
Implicit Types (t l r : rb_tree) (e d : map_entry) (k : map_key).

Lemma all_keys_spec p t :
  all_keys p t = true ↔ ∀ e, e ∈ entries t → p (key e) = true.
Proof.
  induction t as [|l IHl d r IHr]; simpl.
  - split; [intros _ e He; inversion He | done].
  - rewrite !andb_true_iff, IHl, IHr. split.
    + intros [[Hd Hl] Hr] e He.
      apply elem_of_app in He as [He|He]; [by apply Hl|].
      apply elem_of_cons in He as [->|He]; [done | by apply Hr].
    + intros H. repeat split; [apply H | intros e He; apply H ..]; set_solver.
Qed.

Lemma ordered_sorted t :
  ordered t = true ↔ StronglySorted key_lt (entries t).
Proof.
  induction t as [|l IHl d r IHr]; simpl.
  - split; [constructor | done].
  - rewrite !andb_true_iff, IHl, IHr, !all_keys_spec.
    rewrite StronglySorted_app, StronglySorted_cons, Forall_forall.
    split.
    + intros [[[Hl Hr] Sl] Sr]. repeat split; try done.
      * intros x1 x2 H1 H2. specialize (Hl _ H1). apply Z.eqb_eq in Hl.
        apply elem_of_cons in H2 as [->|H2]; [done|].
        specialize (Hr _ H2). apply Z.eqb_eq, map_key_cmp_gt in Hr.
        unfold key_lt. eauto using map_key_cmp_lt_trans.
      * intros x Hx. specialize (Hr _ Hx).
        by apply Z.eqb_eq, map_key_cmp_gt in Hr.
    + intros (Hlr & Sl & Hr & Sr). repeat split; try done.
      * intros e He. apply Z.eqb_eq. apply (Hlr e d); set_solver.
      * intros e He. apply Z.eqb_eq, map_key_cmp_gt. by apply Hr.
Qed.

Lemma map_search_Some t k e :
  map_search t k = Some e → key e = k ∧ e ∈ entries t.
Proof.
  induction t as [|l IHl d r IHr]; simpl; [done|].
  destruct (map_key_cmp k (key d) <? 0) eqn:H1.
  { intros H. destruct (IHl H). split; [done | set_solver]. }
  destruct (map_key_cmp k (key d) >? 0) eqn:H2.
  { intros H. destruct (IHr H). split; [done | set_solver]. }
  intros [= <-]. split; [|set_solver].
  symmetry. apply map_key_cmp_eq.
  rewrite Z.gtb_ltb in H2. lia.
Qed.

Lemma map_search_ordered t e :
  ordered t = true → e ∈ entries t → map_search t (key e) = Some e.
Proof.
  induction t as [|l IHl d r IHr]; simpl; [intros _ H; inversion H|].
  rewrite !andb_true_iff, !all_keys_spec.
  intros [[[Hl Hr] Ol] Or] He.
  apply elem_of_app in He as [He|He].
  { specialize (Hl _ He). apply Z.eqb_eq in Hl. rewrite Hl. simpl. auto. }
  apply elem_of_cons in He as [->|He].
  { by rewrite map_key_cmp_refl. }
  specialize (Hr _ He). apply Z.eqb_eq in Hr. rewrite Hr. simpl. auto.
Qed.

(** In an ordered tree a key names at most one entry. *)
Lemma ordered_key_inj t e1 e2 :
  ordered t = true → e1 ∈ entries t → e2 ∈ entries t →
  key e1 = key e2 → e1 = e2.
Proof.
  intros Ho H1 H2 Hk.
  pose proof (map_search_ordered _ _ Ho H1) as S1.
  pose proof (map_search_ordered _ _ Ho H2) as S2.
  rewrite Hk in S1. congruence.
Qed.

Lemma map_insert_search t d t' :
  map_insert t d = Some t' → map_search t' (key d) = Some d.
Proof.
  revert t'. induction t as [|l IHl e r IHr]; simpl; intros t'.
  - intros [= <-]. simpl. by rewrite map_key_cmp_refl.
  - destruct (map_key_cmp (key d) (key e) <? 0) eqn:H1.
    { destruct (map_insert l d) as [l'|]; [|done]. intros [= <-]; simpl.
      rewrite H1. auto. }
    destruct (map_key_cmp (key d) (key e) >? 0) eqn:H2; [|done].
    destruct (map_insert r d) as [r'|]; [|done]. intros [= <-]; simpl.
    rewrite H1, H2. auto.
Qed.

Lemma map_insert_search_ne t d t' k :
  map_insert t d = Some t' → k ≠ key d →
  map_search t' k = map_search t k.
Proof.
  revert t'. induction t as [|l IHl e r IHr]; simpl; intros t'.
  - intros [= <-] Hk. simpl.
    destruct (map_key_cmp k (key d) <? 0) eqn:H1; [done|].
    destruct (map_key_cmp k (key d) >? 0) eqn:H2; [done|].
    exfalso. apply Hk, map_key_cmp_eq. rewrite Z.gtb_ltb in H2. lia.
  - destruct (map_key_cmp (key d) (key e) <? 0) eqn:H1.
    { destruct (map_insert l d) as [l'|]; [|done]. intros [= <-] Hk; simpl.
      repeat case_match; auto. }
    destruct (map_key_cmp (key d) (key e) >? 0) eqn:H2; [|done].
    destruct (map_insert r d) as [r'|]; [|done]. intros [= <-] Hk; simpl.
    repeat case_match; auto.
Qed.

(** [map_insert] refuses exactly the keys [map_search] finds. *)
Lemma map_insert_None t d :
  map_insert t d = None ↔ is_Some (map_search t (key d)).
Proof.
  induction t as [|l IHl e r IHr]; simpl.
  - split; [done | by intros [? ?]].
  - destruct (map_key_cmp (key d) (key e) <? 0).
    { rewrite <- IHl. destruct (map_insert l d); simpl; split; done. }
    destruct (map_key_cmp (key d) (key e) >? 0).
    { rewrite <- IHr. destruct (map_insert r d); simpl; split; done. }
    split; eauto.
Qed.

Lemma map_insert_entries t d t' :
  map_insert t d = Some t' → entries t' ≡ₚ d :: entries t.
Proof.
  revert t'. induction t as [|l IHl e r IHr]; simpl; intros t'.
  - by intros [= <-].
  - destruct (map_key_cmp (key d) (key e) <? 0).
    { destruct (map_insert l d) as [l'|]; [|done]. intros [= <-]; simpl.
      by rewrite (IHl l'). }
    destruct (map_key_cmp (key d) (key e) >? 0); [|done].
    destruct (map_insert r d) as [r'|]; [|done]. intros [= <-]; simpl.
    rewrite (IHr r') by done. rewrite <- !Permutation_middle. apply perm_swap.
Qed.

Lemma map_insert_ordered t d t' :
  ordered t = true → map_insert t d = Some t' → ordered t' = true.
Proof.
  revert t'. induction t as [|l IHl e r IHr]; simpl; intros t'.
  - by intros _ [= <-].
  - rewrite !andb_true_iff. intros [[[Hl Hr] Ol] Or].
    destruct (map_key_cmp (key d) (key e) <? 0) eqn:H1.
    { destruct (map_insert l d) as [l'|] eqn:Hi; [|done].
      intros [= <-]; simpl. rewrite !andb_true_iff.
      repeat split; auto.
      apply all_keys_spec. intros x Hx.
      rewrite (map_insert_entries _ _ _ Hi) in Hx.
      apply elem_of_cons in Hx as [->|Hx].
      - apply Z.eqb_eq. pose proof (map_key_cmp_range (key d) (key e)). lia.
      - by apply (proj1 (all_keys_spec _ _) Hl). }
    destruct (map_key_cmp (key d) (key e) >? 0) eqn:H2; [|done].
    destruct (map_insert r d) as [r'|] eqn:Hi; [|done].
    intros [= <-]; simpl. rewrite !andb_true_iff.
    repeat split; auto.
    apply all_keys_spec. intros x Hx.
    rewrite (map_insert_entries _ _ _ Hi) in Hx.
    apply elem_of_cons in Hx as [->|Hx].
    + apply Z.eqb_eq. pose proof (map_key_cmp_range (key d) (key e)).
      rewrite Z.gtb_ltb in H2. lia.
    + by apply (proj1 (all_keys_spec _ _) Hr).
Qed.

Lemma unlink_first_entries l e r m t' :
  unlink_first l e r = (m, t') →
  entries l ++ e :: entries r = m :: entries t'.
Proof.
  revert e r m t'. induction l as [|ll IHll le lr _]; simpl; intros e r m t'.
  - by intros [= <- <-].
  - destruct (unlink_first ll le lr) as [m0 l'] eqn:Hu.
    intros [= <- <-]. simpl. by rewrite (IHll _ _ _ _ Hu).
Qed.

Lemma splice_entries l r : entries (splice l r) = entries l ++ entries r.
Proof.
  destruct r as [|rl re rr]; simpl; [by rewrite app_nil_r|].
  destruct (unlink_first rl re rr) as [m r'] eqn:Hu. simpl.
  by rewrite (unlink_first_entries _ _ _ _ _ Hu).
Qed.

Lemma rb_erase_entries a t :
  entries (rb_erase a t) = filter (λ e, entry_addr e ≠ a) (entries t).
Proof.
  induction t as [|l IHl e r IHr]; simpl; [done|].
  rewrite filter_app, filter_cons.
  destruct (decide (entry_addr e = a)) as [Heq|Hne]; simpl.
  - rewrite splice_entries, IHl, IHr.
    destruct (decide (entry_addr e ≠ a)); done.
  - rewrite IHl, IHr. destruct (decide (entry_addr e ≠ a)); done.
Qed.

Lemma sorted_filter (P : map_entry → Prop) `{∀ x, Decision (P x)} es :
  StronglySorted key_lt es → StronglySorted key_lt (filter P es).
Proof.
  induction 1 as [|x es Hs IH Hx]; [constructor|].
  rewrite filter_cons. destruct (decide (P x)); [|done].
  constructor; [done|].
  apply Forall_forall. intros y Hy. apply list_elem_of_filter in Hy as [_ Hy].
  by apply (proj1 (Forall_forall _ _) Hx).
Qed.

Lemma rb_erase_ordered a t : ordered t = true → ordered (rb_erase a t) = true.
Proof.
  rewrite !ordered_sorted, rb_erase_entries. apply sorted_filter; apply _.
Qed.

(** Once a node is unlinked its key cannot be found any more. *)
Lemma rb_erase_search a t e :
  ordered t = true → e ∈ entries t → entry_addr e = a →
  map_search (rb_erase a t) (key e) = None.
Proof.
  intros Ho He Ha.
  destruct (map_search (rb_erase a t) (key e)) as [e'|] eqn:Hs; [|done].
  apply map_search_Some in Hs as [Hk He'].
  rewrite rb_erase_entries in He'.
  apply list_elem_of_filter in He' as [Hne He'].
  assert (e' = e) by eauto using ordered_key_inj. congruence.
Qed.

(** Unlinking nodes never makes a key appear. *)
Lemma rb_erase_search_None a t k :
  ordered t = true → map_search t k = None →
  map_search (rb_erase a t) k = None.
Proof.
  intros Ho Hn.
  destruct (map_search (rb_erase a t) k) as [e'|] eqn:Hs; [|done].
  apply map_search_Some in Hs as [Hk He'].
  rewrite rb_erase_entries in He'.
  apply list_elem_of_filter in He' as [_ He'].
  apply (map_search_ordered _ _ Ho) in He'. congruence.
Qed.
End index_facts.

(** ** Rules for runs *)

Lemma runs_Ret {A} (m : M A) s a s' tr :
  runs m s (λ a0 s0 t0, a0 = a ∧ s0 = s' ∧ t0 = tr) ↔ m s = Ret a s' tr.
Proof.
  unfold runs. destruct (m s); [|split; [done | discriminate]].
  split; [by intros (-> & -> & ->) | by intros [= -> -> ->]].
Qed.

Lemma runs_returns {A} (m : M A) s P Q :
  runs m s P → returns m s Q → runs m s (λ a s' tr, P a s' tr ∧ Q a s' tr).
Proof. unfold runs, returns. destruct (m s); [|done]. auto. Qed.

Section rules.
Context {A B : Type}.
Implicit Types (s : state) (Q : A → state → list event → Prop).

Lemma returns_bind (m : M A) (k : A → M B) s
    (Q : B → state → list event → Prop) :
  returns m s (λ a s1 t1, returns (k a) s1 (λ b s2 t2, Q b s2 (t1 ++ t2))) →
  returns (m ≫= k) s Q.
Proof.
  intros H b s' tr. unfold mbind, M_bind.
  destruct (m s) as [a s1 t1|] eqn:Hm; [|done].
  destruct (k a s1) as [b' s2 t2|] eqn:Hk; [|done].
  intros [= <- <- <-]. by apply (H _ _ _ Hm).
Qed.

Lemma returns_ret (a : A) s Q : Q a s [] → returns (mret a) s Q.
Proof. by intros H ? ? ? [= <- <- <-]. Qed.

Lemma returns_stop h s Q : returns (stop h) s Q.
Proof. by intros ? ? ?. Qed.

Lemma returns_deref (o : option A) s Q :
  (∀ a, o = Some a → Q a s []) → returns (deref o) s Q.
Proof.
  destruct o; unfold deref; [|intros; apply returns_stop].
  intros H. apply returns_ret. eauto.
Qed.

Lemma returns_mono (m : M A) s Q Q' :
  returns m s Q → (∀ a s' tr, Q a s' tr → Q' a s' tr) → returns m s Q'.
Proof. unfold returns. eauto. Qed.

Lemma runs_bind (m : M A) (k : A → M B) s
    (Q : B → state → list event → Prop) :
  runs m s (λ a s1 t1, runs (k a) s1 (λ b s2 t2, Q b s2 (t1 ++ t2))) →
  runs (m ≫= k) s Q.
Proof.
  unfold runs, mbind, M_bind. destruct (m s) as [a s1 t1|]; [|done].
  by destruct (k a s1).
Qed.

Lemma runs_ret (a : A) s Q : Q a s [] → runs (mret a) s Q.
Proof. done. Qed.

Lemma runs_deref (o : option A) s Q a :
  o = Some a → Q a s [] → runs (deref o) s Q.
Proof. intros ->. by unfold deref. Qed.

Lemma runs_mono (m : M A) s Q Q' :
  runs m s Q → (∀ a s' tr, Q a s' tr → Q' a s' tr) → runs m s Q'.
Proof. unfold runs. destruct (m s); eauto. Qed.
End rules.

Lemma returns_get_state s (Q : state → state → list event → Prop) :
  Q s s [] → returns get_state s Q.
Proof. by intros H ? ? ? [= <- <- <-]. Qed.

Lemma returns_put_state s' s (Q : unit → state → list event → Prop) :
  Q () s' [] → returns (put_state s') s Q.
Proof. by intros H ? ? ? [= <- <- <-]. Qed.

Lemma returns_emit e s (Q : unit → state → list event → Prop) :
  Q () s [e] → returns (emit e) s Q.
Proof. by intros H ? ? ? [= <- <- <-]. Qed.

Lemma runs_get_state s (Q : state → state → list event → Prop) :
  Q s s [] → runs get_state s Q.
Proof. done. Qed.

Lemma runs_put_state s' s (Q : unit → state → list event → Prop) :
  Q () s' [] → runs (put_state s') s Q.
Proof. done. Qed.

Lemma runs_emit e s (Q : unit → state → list event → Prop) :
  Q () s [e] → runs (emit e) s Q.
Proof. done. Qed.

(** [kmalloc] either fails or hands out a block that was not in use. *)
Lemma returns_kmalloc ok n s (Q : option addr → state → list event → Prop) :
  (ok (heap s) n = false → Q None s []) →
  (∀ a, ok (heap s) n = true → heap s !! a = None →
        Q (Some a)
          (set_heap (<[a := {| b_size := n; b_slab := None |}]> (heap s)) s)
          []) →
  returns (kmalloc ok n) s Q.
Proof.
  intros H0 H1 r s' tr. unfold kmalloc, mbind, M_bind, get_state. simpl.
  destruct (ok (heap s) n) eqn:Hok; simpl.
  - intros [= <- <- <-]. apply H1; [done|].
    apply not_elem_of_dom, is_fresh.
  - intros [= <- <- <-]. by apply H0.
Qed.

Ltac unfold_head m :=
  lazymatch m with
  | read_lock _ => unfold read_lock at 1
  | read_unlock _ => unfold read_unlock at 1
  | write_lock _ => unfold write_lock at 1
  | write_unlock _ => unfold write_unlock at 1
  | spin_lock _ => unfold spin_lock at 1
  | spin_unlock _ => unfold spin_unlock at 1
  | ll_head _ => unfold ll_head at 1
  | set_ll_head _ _ => unfold set_ll_head at 1
  | list_add _ _ => unfold list_add at 1
  | list_del _ => unfold list_del at 1
  | kfree _ => unfold kfree at 1
  | pid_nr_f_owner _ => unfold pid_nr_f_owner at 1
  | slab_at _ => unfold slab_at at 1
  | gen_next_map_id => unfold gen_next_map_id at 1
  | init_slab _ _ => unfold init_slab at 1
  | store_check _ => unfold store_check at 1
  end.

Ltac tidy :=
  cbn [rw_get rw_set _root _uid_counter lock files heap set_root
       set_uid_counter set_lock set_files set_heap] in *;
  repeat match goal with
    | H : <[_:=_]> _ !! _ = None |- _ => apply lookup_insert_None in H as [? ?]
    | H : _ || _ = false |- _ => apply orb_false_iff in H as [? ?]
    | H : negb _ = false |- _ => apply negb_false_iff in H
    | H : (_ =? _) = true |- _ => apply Z.eqb_eq in H
    | H : _ <$> _ = Some _ |- _ => apply fmap_Some in H as (? & ? & ?)
    | H : _ <$> _ = None |- _ => apply fmap_None in H
    | H : _ ≫= _ = Some _ |- _ => apply bind_Some in H as (? & ? & ?)
    end;
  simplify_map_eq/=.

(** One step of a run that is assumed to return. *)
Ltac exec_step :=
  lazymatch goal with
  | |- returns (_ ≫= _) _ _ => apply returns_bind
  | |- returns (mret _) _ _ => apply returns_ret
  | |- returns (stop _) _ _ => apply returns_stop
  | |- returns (deref _) _ _ => apply returns_deref; intros ? ?
  | |- returns get_state _ _ => apply returns_get_state
  | |- returns (put_state _) _ _ => apply returns_put_state
  | |- returns (emit _) _ _ => apply returns_emit
  | |- returns (kmalloc _ _) _ _ => apply returns_kmalloc; [intros ? | intros ? ? ?]
  | |- returns (if ?b then _ else _) _ _ => destruct b eqn:?
  | |- returns (match ?x with _ => _ end) _ _ => destruct x eqn:?
  | |- returns ?m _ _ => unfold_head m
  end.

Ltac exec := repeat (exec_step; tidy).

(** One step of a run that has to be shown to return. *)
Ltac run_step :=
  lazymatch goal with
  | |- runs (_ ≫= _) _ _ => apply runs_bind
  | |- runs (mret _) _ _ => apply runs_ret
  | |- runs (deref ?o) _ _ =>
      let a := fresh "a" in
      destruct o as [a|] eqn:?; [apply (runs_deref _ _ _ a eq_refl) | ]
  | |- runs get_state _ _ => apply runs_get_state
  | |- runs (put_state _) _ _ => apply runs_put_state
  | |- runs (emit _) _ _ => apply runs_emit
  | |- runs (if ?b then _ else _) _ _ => destruct b eqn:?
  | |- runs (match ?x with _ => _ end) _ _ => destruct x eqn:?
  | |- runs ?m _ _ => unfold_head m
  end.

Ltac run := repeat (run_step; tidy).

(** Equality of two maps by their lookups. *)
Ltac map_lookups :=
  apply map_eq; intros ?;
  repeat first
    [ rewrite lookup_alter | rewrite lookup_insert | rewrite lookup_delete
    | rewrite lookup_fmap ];
  repeat case_decide; simplify_eq/=; try done.

Lemma rwlock_t_eq (l : rwlock_t) w r :
  wlocked l = w → readers l = r → {| wlocked := w; readers := r |} = l.
Proof. destruct l; simpl. by intros -> ->. Qed.

Lemma file_eq (f : file) l p :
  l = f_owner_lock f → p = private_data f →
  {| f_owner_pid := f_owner_pid f; f_owner_lock := l; private_data := p |} = f.
Proof. destruct f; simpl. by intros -> ->. Qed.

Lemma state_ext (s1 s2 : state) :
  _root s1 = _root s2 → _uid_counter s1 = _uid_counter s2 →
  lock s1 = lock s2 → files s1 = files s2 → heap s1 = heap s2 → s1 = s2.
Proof. destruct s1, s2; simpl. by intros -> -> -> -> ->. Qed.

Ltac state_eq :=
  apply state_ext;
  cbn [_root _uid_counter lock files heap set_root set_uid_counter set_lock
       set_files set_heap];
  try reflexivity.

(** ** Each operation, path by path *)

Lemma get_buffer_run id p s :
  wlocked (lock s) = false →
  match map_search (_root s) {| pid := p; buffer_uid := id |} with
  | None => get_buffer id p s = Ret None s lookup_miss_trace
  | Some e =>
      ∀ rw, rw_get (slab_lock (entry_addr e)) s = Some rw →
            wlocked rw = false →
            get_buffer id p s =
              Ret (Some (entry_addr e))
                  (rw_set (slab_lock (entry_addr e))
                     {| wlocked := false; readers := readers rw + 1 |} s)
                  (lookup_hit_trace (entry_addr e))
  end.
Proof.
  intros Hl. destruct s as [root c lk fs hp]; simpl in *.
  destruct (map_search root _) as [e|] eqn:Hs.
  - intros rw Hrw Hw. apply runs_Ret. unfold get_buffer. run.
    split_and!; try done. state_eq. apply rwlock_t_eq; [done | lia].
  - apply runs_Ret. unfold get_buffer. run.
    split_and!; try done. state_eq. apply rwlock_t_eq; [done | lia].
Qed.

Lemma free_buffer_miss_run id f s file :
  files s !! f = Some file →
  wlocked (f_owner_lock file) = false →
  lock s = RW_LOCK_UNLOCKED →
  map_search (_root s) {| pid := f_owner_pid file; buffer_uid := id |} = None →
  free_buffer id f s = Ret () s (release_miss_trace f id).
Proof.
  intros Hf Ho Hl Hs. apply runs_Ret. unfold free_buffer.
  destruct s as [root c lk fs hp]; simpl in *; subst.
  run. split_and!; try done. state_eq.
  map_lookups. rewrite Hf. simpl. f_equal. unfold set_f_owner_lock; simpl.
  apply file_eq; [|done]. apply rwlock_t_eq; [done | lia].
Qed.

Lemma free_buffer_returns id f s :
  returns (free_buffer id f) s (λ _ s' tr,
    ∃ file, files s !! f = Some file ∧
      wlocked (f_owner_lock file) = false ∧ lock s = RW_LOCK_UNLOCKED ∧
      match map_search (_root s)
              {| pid := f_owner_pid file; buffer_uid := id |} with
      | None => s' = s ∧ tr = release_miss_trace f id
      | Some e =>
          ∃ hd blk slab,
            private_data file = Some hd ∧ spinlock hd = false ∧
            heap s !! entry_addr e = Some blk ∧ b_slab blk = Some slab ∧
            rwlock slab = RW_LOCK_UNLOCKED ∧
            s' = {| _root := rb_erase (entry_addr e) (_root s);
                    _uid_counter := _uid_counter s;
                    lock := RW_LOCK_UNLOCKED;
                    files := unlink (entry_addr e) <$> files s;
                    heap := delete (entry_addr e)
                              (delete (user_buffer slab) (heap s)) |} ∧
            tr = release_hit_trace f (entry_addr e)
      end).
Proof.
  unfold free_buffer. destruct s as [root c lk fs hp]. exec.
  - eexists. split_and!; try done.
    { symmetry. by apply rwlock_t_eq. }
    rewrite Heqo. do 3 eexists. split_and!; try done.
    { symmetry. by apply rwlock_t_eq. }
    state_eq.
    + by apply rwlock_t_eq.
    + map_lookups. rewrite H. simpl. f_equal.
      unfold unlink, set_private_data, set_f_owner_lock; simpl.
      rewrite H2. simpl. f_equal; [|by rewrite Heqb0].
      apply rwlock_t_eq; [done | lia].
    + map_lookups.
  - eexists. split_and!; try done.
    { symmetry. by apply rwlock_t_eq. }
    rewrite Heqo. split; [|done]. state_eq.
    + by apply rwlock_t_eq.
    + map_lookups. rewrite H. simpl. f_equal.
      unfold set_f_owner_lock; simpl.
      apply file_eq; [|done]. apply rwlock_t_eq; [done | lia].
Qed.

Lemma unlink_each_nil f : unlink_each [] f = f.
Proof.
  destruct f as [p l [[sp ms]|]]; unfold unlink_each, set_private_data;
    simpl; [|done].
  do 3 f_equal. induction ms as [|m ms IH]; [done|].
  rewrite filter_cons. rewrite decide_True by set_solver. by f_equal.
Qed.

Lemma unlink_each_cons a nodes f :
  unlink_each (a :: nodes) f = unlink_each nodes (unlink a f).
Proof.
  destruct f as [p l [[sp ms]|]]; unfold unlink_each, unlink, set_private_data;
    simpl; [|done].
  do 3 f_equal. rewrite list_filter_filter. apply list_filter_iff.
  intros x. set_solver.
Qed.

Lemma erase_each_entries nodes t :
  entries (erase_each nodes t)
  = filter (λ e, entry_addr e ∉ nodes) (entries t).
Proof.
  revert t. induction nodes as [|a nodes IH]; intros t; simpl.
  - induction (entries t) as [|e es IHes]; [done|].
    rewrite filter_cons. rewrite decide_True by set_solver. by f_equal.
  - unfold erase_each in *. rewrite IH, rb_erase_entries, list_filter_filter.
    apply list_filter_iff. intros x. set_solver.
Qed.

Lemma erase_each_ordered nodes t :
  ordered t = true → ordered (erase_each nodes t) = true.
Proof.
  rewrite !ordered_sorted, erase_each_entries. apply sorted_filter; apply _.
Qed.

(** None of the unlinked nodes can be found afterwards. *)
Lemma erase_each_search nodes t e :
  ordered t = true → e ∈ entries t → entry_addr e ∈ nodes →
  map_search (erase_each nodes t) (key e) = None.
Proof.
  intros Ho He Ha.
  destruct (map_search (erase_each nodes t) (key e)) as [e'|] eqn:Hs; [|done].
  apply map_search_Some in Hs as [Hk He'].
  rewrite erase_each_entries in He'.
  apply list_elem_of_filter in He' as [Hne He'].
  assert (e' = e) by eauto using ordered_key_inj. congruence.
Qed.

Lemma free_each_returns nodes s :
  returns (free_each nodes) s (λ _ s' tr,
    s' = {| _root := erase_each nodes (_root s);
            _uid_counter := _uid_counter s;
            lock := lock s;
            files := unlink_each nodes <$> files s;
            heap := free_slabs nodes (heap s) |} ∧
    tr = slab_lock_trace nodes).
Proof.
  revert s. induction nodes as [|a nodes IH]; intros s; simpl.
  - apply returns_ret. split; [|done]. destruct s; simpl. f_equal.
    rewrite <- (map_fmap_id files0) at 1. apply map_fmap_ext.
    intros. by rewrite unlink_each_nil.
  - destruct s as [root c lk fs hp]. exec.
    eapply returns_mono; [apply IH|]. simpl.
    intros _ s' tr [-> ->]. split; [|done]. f_equal.
    + rewrite <- map_fmap_compose. apply map_fmap_ext.
      intros. simpl. by rewrite unlink_each_cons.
    + f_equal. unfold free_slab. rewrite H. simpl. rewrite H0. map_lookups.
Qed.

Lemma buffer_free_file_returns f s :
  returns (buffer_free_file f) s (λ _ s' tr,
    ∃ file, files s !! f = Some file ∧
      match private_data file with
      | None => s' = s ∧ tr = []
      | Some hd =>
          spinlock hd = false ∧ lock s = RW_LOCK_UNLOCKED ∧
          s' = {| _root := erase_each (ll_list hd) (_root s);
                  _uid_counter := _uid_counter s;
                  lock := RW_LOCK_UNLOCKED;
                  files := unlink_each (ll_list hd) <$> files s;
                  heap := free_slabs (ll_list hd) (heap s) |} ∧
          tr = release_all_trace f (ll_list hd)
      end).
Proof.
  unfold buffer_free_file. destruct s as [root c lk fs hp]. exec.
  - eapply returns_mono; [apply free_each_returns|]. simpl.
    intros _ s1 t1 [-> ->]. exec.
    eexists. split; [done|]. rewrite Heqo. split_and!; try done.
    { symmetry. by apply rwlock_t_eq. }
    state_eq.
    + by apply rwlock_t_eq.
    + map_lookups. rewrite H. simpl. f_equal.
      unfold unlink_each, set_private_data; simpl. rewrite Heqo. simpl.
      by rewrite Heqb.
  - eexists. split; [done|]. by rewrite Heqo.
Qed.

Lemma alloc_buffer_returns sz ok us ks f s :
  returns (alloc_buffer sz ok us ks f) s
    (λ r s' tr,
       match r with
       | None => (s' = s ∧ tr = []) ∨ alloc_duplicate f s s' tr
       | Some a => alloc_done sz us ks f s a s' tr
       end).
Proof.
  unfold alloc_buffer. destruct s as [root c lk fs hp]. exec.
  - by left.
  - left. split; [|done]. state_eq. map_lookups.
  - unfold alloc_done. simpl. exists x, a1, a0, r.
    split_and!; try done.
    { symmetry. by apply rwlock_t_eq. }
    unfold next_uid. state_eq.
    + by apply rwlock_t_eq.
    + map_lookups. rewrite H4. simpl. f_equal.
      unfold set_private_data, set_f_owner_lock; simpl. f_equal.
      apply rwlock_t_eq; [done | lia].
    + map_lookups.
  - right. unfold alloc_duplicate. simpl. exists x, a1, a.
    split_and!; try done.
    { symmetry. by apply rwlock_t_eq. }
    { apply map_insert_None in Heqo. done. }
    unfold next_uid. state_eq.
    + by apply rwlock_t_eq.
    + map_lookups. rewrite H4. simpl. f_equal.
      unfold set_private_data, set_f_owner_lock; simpl. do 2 f_equal. lia.
    + map_lookups.
Qed.

(** *** [get_buffer], read backwards *)

Lemma get_buffer_returns id p s :
  returns (get_buffer id p) s (λ r s' tr,
    match r with
    | None =>
        map_search (_root s) {| pid := p; buffer_uid := id |} = None ∧
        tr = lookup_miss_trace
    | Some a =>
        (∃ e, map_search (_root s) {| pid := p; buffer_uid := id |} = Some e ∧
              entry_addr e = a) ∧
        tr = lookup_hit_trace a
    end).
Proof.
  unfold get_buffer. destruct s as [root c lk fs hp]. exec; eauto.
Qed.

(** ** The order of the index is kept *)

Lemma alloc_buffer_ordered sz ok us ks f s r s' tr :
  ordered (_root s) = true →
  alloc_buffer sz ok us ks f s = Ret r s' tr → ordered (_root s') = true.
Proof.
  intros Ho Hr. apply alloc_buffer_returns in Hr. destruct r as [a|].
  - destruct Hr as (file & hd & u & root' & ? & ? & ? & ? & ? & ? & ? & ?
                    & Hi & -> & ?).
    simpl. eauto using map_insert_ordered.
  - destruct Hr as [[-> _]|(file & hd & a & ? & ? & ? & ? & ? & ? & ? & -> & ?)];
      done.
Qed.

Lemma free_buffer_ordered id f s s' tr :
  ordered (_root s) = true →
  free_buffer id f s = Ret () s' tr → ordered (_root s') = true.
Proof.
  intros Ho Hr. apply free_buffer_returns in Hr.
  destruct Hr as (file & ? & ? & ? & Hr).
  destruct (map_search _ _) as [e|].
  - destruct Hr as (hd & blk & slab & ? & ? & ? & ? & ? & -> & ?).
    simpl. by apply rb_erase_ordered.
  - by destruct Hr as [-> _].
Qed.

Lemma buffer_free_file_ordered f s s' tr :
  ordered (_root s) = true →
  buffer_free_file f s = Ret () s' tr → ordered (_root s') = true.
Proof.
  intros Ho Hr. apply buffer_free_file_returns in Hr.
  destruct Hr as (file & ? & Hr). destruct (private_data file) as [hd|].
  - destruct Hr as (? & ? & -> & ?). simpl. by apply erase_each_ordered.
  - by destruct Hr as [-> _].
Qed.

Lemma boot_alloc :
  alloc_buffer 96 always 4096 64 1 boot
  = Ret (Some 1%positive) one_buffer (alloc_trace 1 1 0).
Proof. vm_compute. reflexivity. Qed.

Lemma one_buffer_write_unlock :
  write_unlock (slab_lock 1) one_buffer
  = Ret () one_buffer_unlocked [ev_release (slab_lock 1) exclusive].
Proof. vm_compute. reflexivity. Qed.

(** The scenario runs to its end: the allocations return the slabs 1 and 3
    under the ids 0 and 1, the first lookup finds slab 1, the second finds
    nothing, and the registry ends empty, the file's list too, with every
    block freed. The only locks never given back are those of the two
    slabs, which are freed while locked for writing. *)
Lemma scenario_runs :
  ∃ tr,
    scenario boot
    = Ret (Some 1%positive, Some 3%positive, Some 1%positive, None)
          (set_uid_counter 2 boot) tr
    ∧ ev_next_id 0 ∈ tr ∧ ev_next_id 1 ∈ tr
    ∧ held_after [] tr
      = [(slab_lock 3, exclusive); (slab_lock 1, exclusive)].
Proof.
  destruct (scenario boot) as [r s tr|] eqn:E; vm_compute in E;
    [|discriminate].
  injection E as <- <- <-. eexists. split; [reflexivity|].
  split_and!; [set_solver | set_solver | reflexivity].
Qed.

(** ** The id generator (C9) *)

Lemma gen_next_map_id_run s :
  gen_next_map_id s
  = Ret (_uid_counter s) (set_uid_counter (next_uid s) s)
        [ev_next_id (_uid_counter s)].
Proof. reflexivity. Qed.

(** C9, as stated, fails where the counter wraps: two successive calls
    return [2^64 - 1] and then [0]. *)
Lemma gen_next_map_id_wraps :
  gen_next_map_id last_id
  = Ret (buffer_id_modulus - 1) (set_uid_counter 0 boot)
        [ev_next_id (buffer_id_modulus - 1)]
  ∧ gen_next_map_id (set_uid_counter 0 boot)
    = Ret 0 (set_uid_counter 1 boot) [ev_next_id 0]
  ∧ ¬ (buffer_id_modulus - 1 < 0).
Proof. split_and!; [vm_compute; reflexivity .. | vm_compute; discriminate]. Qed.

(** C9, amended: [gen_next_map_id] returns the current value of the counter
    and advances the counter by one modulo [2^64]. While the counter is below
    [2^64 - 1], two successive calls return [c] and [c + 1], strictly
    increasing, and two successive allocations are registered under the ids
    [c] and [c + 1]: 0 and 1 from the module as loaded. *)
Theorem gen_next_map_id_successive (s : state) :
  0 ≤ _uid_counter s < buffer_id_modulus - 1 →
  let c := _uid_counter s in
  gen_next_map_id s = Ret c (set_uid_counter (c + 1) s) [ev_next_id c]
  ∧ gen_next_map_id (set_uid_counter (c + 1) s)
    = Ret (c + 1) (set_uid_counter ((c + 2) mod buffer_id_modulus) s)
          [ev_next_id (c + 1)]
  ∧ c < c + 1
  ∧ ∀ sz ok us1 ks1 f1 us2 ks2 f2 a1 s1 t1 a2 s2 t2,
      alloc_buffer sz ok us1 ks1 f1 s = Ret (Some a1) s1 t1 →
      alloc_buffer sz ok us2 ks2 f2 s1 = Ret (Some a2) s2 t2 →
      ∃ p1 p2,
        map_search (_root s1) {| pid := p1; buffer_uid := c |}
        = Some {| key := {| pid := p1; buffer_uid := c |};
                  entry_addr := a1 |}
        ∧ map_search (_root s2) {| pid := p2; buffer_uid := c + 1 |}
          = Some {| key := {| pid := p2; buffer_uid := c + 1 |};
                    entry_addr := a2 |}.
Proof.
  intros Hc c.
  assert (next_uid s = c + 1) as Hn.
  { unfold next_uid. apply Z.mod_small. unfold c. lia. }
  split_and!.
  - rewrite gen_next_map_id_run. by rewrite Hn.
  - rewrite gen_next_map_id_run. unfold next_uid. simpl.
    by replace (c + 1 + 1) with (c + 2) by lia.
  - lia.
  - intros sz ok us1 ks1 f1 us2 ks2 f2 a1 s1 t1 a2 s2 t2 Hr1 Hr2.
    apply alloc_buffer_returns in Hr1
      as (file1 & hd1 & u1 & r1 & _ & _ & _ & _ & _ & _ & _ & _ & Hi1 & -> & _).
    apply alloc_buffer_returns in Hr2
      as (file2 & hd2 & u2 & r2 & _ & _ & _ & _ & _ & _ & _ & _ & Hi2 & -> & _).
    simpl in *. exists (f_owner_pid file1), (f_owner_pid file2). split.
    + apply (map_insert_search _ _ _ Hi1).
    + fold c in Hn. rewrite Hn in Hi2. apply (map_insert_search _ _ _ Hi2).
Qed.

(** From the module as loaded the two allocations of the specification's
    scenario are registered under the ids 0 and 1. *)
Lemma gen_next_map_id_successive_boot :
  0 ≤ _uid_counter boot < buffer_id_modulus - 1
  ∧ gen_next_map_id boot = Ret 0 (set_uid_counter 1 boot) [ev_next_id 0]
  ∧ ∃ a1 s1 t1 a2 s2 t2 p1 p2,
      alloc_buffer 96 always 4096 64 1 boot = Ret (Some a1) s1 t1
      ∧ alloc_buffer 96 always 4096 64 1 s1 = Ret (Some a2) s2 t2
      ∧ map_search (_root s1) {| pid := p1; buffer_uid := 0 |}
        = Some {| key := {| pid := p1; buffer_uid := 0 |}; entry_addr := a1 |}
      ∧ map_search (_root s2) {| pid := p2; buffer_uid := 1 |}
        = Some {| key := {| pid := p2; buffer_uid := 1 |}; entry_addr := a2 |}.
Proof.
  assert (0 ≤ _uid_counter boot < buffer_id_modulus - 1) as Hc
    by (vm_compute; split; [discriminate | reflexivity]).
  destruct (gen_next_map_id_successive boot Hc) as (Hg & _ & _ & Ha).
  split; [exact Hc|]. split; [exact Hg|].
  destruct (alloc_buffer 96 always 4096 64 1 boot) as [[a1|] s1 t1|] eqn:E1;
    [|vm_compute in E1; discriminate ..].
  destruct (alloc_buffer 96 always 4096 64 1 s1) as [[a2|] s2 t2|] eqn:E2;
    [|vm_compute in E1; injection E1 as <- <- <-;
      vm_compute in E2; discriminate ..].
  destruct (Ha _ _ _ _ _ _ _ _ _ _ _ _ _ _ E1 E2) as (p1 & p2 & S1 & S2).
  exists a1, s1, t1, a2, s2, t2, p1, p2. done.
Defined.

(** ** The counter and the registry lock (C3) *)

(** C3 against the code: whenever a run of [alloc_buffer] changes the
    counter, it does so before it takes [map_wrapper.lock]: the increment is
    its third event, the locks it holds at that moment are the new slab's
    and the file owner's, and the registry lock is taken two events later.
    (The specification asks for the increment under the registry's write
    lock; the code carries a FIXME at [gen_next_map_id].) *)
Theorem alloc_buffer_next_id_unguarded sz ok us ks f s r s' tr :
  alloc_buffer sz ok us ks f s = Ret r s' tr →
  _uid_counter s' ≠ _uid_counter s →
  next_id_guarded tr = false
  ∧ tr !! 2%nat = Some (ev_next_id (_uid_counter s))
  ∧ first_acquire map_lock tr = Some 4%nat
  ∧ ∃ a, held_after [] (take 2 tr)
         = [(owner_lock f, shared); (slab_lock a, exclusive)].
Proof.
  intros Hr Hc. apply alloc_buffer_returns in Hr. destruct r as [a|].
  - destruct Hr as (file & hd & u & root' & _ & _ & _ & _ & _ & _ & _ & _
                    & _ & -> & ->).
    split_and!; [done | done | done | by exists a].
  - destruct Hr as [[-> _]|(file & hd & a & _ & _ & _ & _ & _ & _ & _ & -> & ->)];
      [done|].
    split_and!; [done | done | done | by exists a].
Qed.

(** The first allocation on the module as loaded. *)
Lemma alloc_buffer_next_id_unguarded_boot :
  alloc_buffer 96 always 4096 64 1 boot
  = Ret (Some 1%positive) one_buffer (alloc_trace 1 1 0)
  ∧ _uid_counter one_buffer ≠ _uid_counter boot
  ∧ next_id_guarded (alloc_trace 1 1 0) = false.
Proof.
  split; [exact boot_alloc|]. split; [discriminate|].
  exact (proj1 (alloc_buffer_next_id_unguarded 96 always 4096 64 1 boot
                  (Some 1%positive) one_buffer (alloc_trace 1 1 0) boot_alloc
                  ltac:(discriminate))).
Defined.

(** ** Lookup (C7) *)

(** C7: with the registry lock free of writers, [get_buffer] on a miss takes
    and releases the registry's read lock, changes nothing and returns
    holding no lock; on a hit (the slab's lock being free of writers) it
    takes the slab's read lock while it still holds the registry's, releases
    the registry's, and returns the slab with one more reader on the slab's
    lock and the registry lock as it found it. *)
Theorem get_buffer_hand_over_hand id p s :
  wlocked (lock s) = false →
  match map_search (_root s) {| pid := p; buffer_uid := id |} with
  | None =>
      get_buffer id p s = Ret None s lookup_miss_trace
      ∧ held_after [] lookup_miss_trace = []
  | Some e =>
      let a := entry_addr e in
      ∀ rw, rw_get (slab_lock a) s = Some rw → wlocked rw = false →
        ∃ s',
          get_buffer id p s = Ret (Some a) s' (lookup_hit_trace a)
          ∧ rw_get (slab_lock a) s'
            = Some {| wlocked := false; readers := readers rw + 1 |}
          ∧ lock s' = lock s
          ∧ held_after [] (take 2 (lookup_hit_trace a))
            = [(slab_lock a, shared); (map_lock, shared)]
          ∧ held_after [] (lookup_hit_trace a) = [(slab_lock a, shared)]
  end.
Proof.
  intros Hl. pose proof (get_buffer_run id p s Hl) as Hrun.
  destruct (map_search _ _) as [e|]; [|done].
  intros a rw Hrw Hw. eexists. split; [by apply Hrun|].
  split_and!; try done.
  - subst a. destruct s as [root c lk fs hp]. simpl in *. rewrite lookup_alter.
    rewrite decide_True by done.
    destruct (hp !! entry_addr e) as [blk|]; [|done]. simpl in *.
    by destruct (b_slab blk).
Qed.

Lemma get_buffer_hand_over_hand_hit :
  wlocked (lock one_buffer_unlocked) = false
  ∧ ∃ s',
      get_buffer 0 H1_pid one_buffer_unlocked
      = Ret (Some 1%positive) s' (lookup_hit_trace 1)
      ∧ rw_get (slab_lock 1) s' = Some {| wlocked := false; readers := 1 |}.
Proof.
  split; [reflexivity|].
  destruct (get_buffer_hand_over_hand 0 H1_pid one_buffer_unlocked eq_refl
              RW_LOCK_UNLOCKED eq_refl eq_refl) as (s' & Hr & Hs & _).
  exists s'. split; [exact Hr | exact Hs].
Defined.

(** ** Release of an unknown key (C8) *)

(** C8: when the key is not in the index, [free_buffer] returns (it is a
    [void] function: nothing is reported to the caller), the whole state is
    as before -- index, counter, every file and list, every lock -- and the
    events are the four lock operations and the logged message. *)
Theorem free_buffer_miss id f s file :
  files s !! f = Some file →
  wlocked (f_owner_lock file) = false →
  lock s = RW_LOCK_UNLOCKED →
  map_search (_root s) {| pid := f_owner_pid file; buffer_uid := id |} = None →
  free_buffer id f s = Ret () s (release_miss_trace f id)
  ∧ held_after [] (release_miss_trace f id) = []
  ∧ ev_err id ∈ release_miss_trace f id.
Proof.
  intros Hf Ho Hl Hs. split; [by eapply free_buffer_miss_run|].
  split; [|set_solver].
  unfold release_miss_trace. simpl. by rewrite !decide_True by done.
Qed.

Lemma free_buffer_miss_boot :
  files boot !! 1%nat = Some (fresh_file H1_pid)
  ∧ free_buffer 5 1 boot = Ret () boot (release_miss_trace 1 5).
Proof.
  split; [reflexivity|].
  exact (proj1 (free_buffer_miss 5 1 boot (fresh_file H1_pid)
                  eq_refl eq_refl eq_refl eq_refl)).
Defined.

(** ** Release removes visibility (C4) *)

Lemma map_key_eta (k : map_key) :
  {| pid := pid k; buffer_uid := buffer_uid k |} = k.
Proof. by destruct k. Qed.

(** C4: in a state whose index is ordered, once [free_buffer id file] has
    returned, [get_buffer] with the same id and the file's owner finds
    nothing: it returns [false] (the specification's NotFoundError) and
    leaves the state as it is. *)
Theorem free_buffer_then_get_buffer id f s file s1 tr :
  ordered (_root s) = true →
  files s !! f = Some file →
  free_buffer id f s = Ret () s1 tr →
  get_buffer id (f_owner_pid file) s1 = Ret None s1 lookup_miss_trace.
Proof.
  intros Ho Hf Hr. apply free_buffer_returns in Hr.
  destruct Hr as (file' & Hf' & _ & Hl & Hr). simplify_eq.
  destruct (map_search (_root s) _) as [e|] eqn:Hs.
  - destruct Hr as (hd & blk & slab & _ & _ & _ & _ & _ & -> & _).
    pose proof (get_buffer_run id (f_owner_pid file)
      {| _root := rb_erase (entry_addr e) (_root s);
         _uid_counter := _uid_counter s; lock := RW_LOCK_UNLOCKED;
         files := unlink (entry_addr e) <$> files s;
         heap := delete (entry_addr e) (delete (user_buffer slab) (heap s)) |}
      eq_refl) as Hg.
    simpl in Hg. apply map_search_Some in Hs as [Hk He].
    rewrite <- Hk, rb_erase_search in Hg by done. exact Hg.
  - destruct Hr as [-> _].
    pose proof (get_buffer_run id (f_owner_pid file) s) as Hg.
    rewrite Hl, Hs in Hg. by apply Hg.
Qed.

Lemma free_buffer_then_get_buffer_one :
  ordered (_root one_buffer_unlocked) = true
  ∧ (∃ s1 tr,
       free_buffer 0 1 one_buffer_unlocked = Ret () s1 tr
       ∧ _root s1 = rb_leaf
       ∧ get_buffer 0 H1_pid s1 = Ret None s1 lookup_miss_trace).
Proof.
  split; [reflexivity|].
  destruct (free_buffer 0 1 one_buffer_unlocked) as [[] s1 tr|] eqn:E;
    [|vm_compute in E; discriminate].
  exists s1, tr. split; [reflexivity|]. split.
  - vm_compute in E. by injection E as <- <-.
  - exact (free_buffer_then_get_buffer 0 1 one_buffer_unlocked
             {| f_owner_pid := H1_pid; f_owner_lock := RW_LOCK_UNLOCKED;
                private_data :=
                  Some {| spinlock := false; ll_list := [1%positive] |} |}
             s1 tr eq_refl eq_refl E).
Defined.

(** ** Bulk teardown (C5, C10) *)

Lemma filter_not_in_self (l : list addr) : filter (λ b, b ∉ l) l = [].
Proof.
  assert (∀ k, k ⊆ l → filter (λ b : addr, b ∉ l) k = []) as H.
  { induction k as [|x k IH]; intros Hk; [done|].
    rewrite filter_cons, decide_False by set_solver.
    apply IH. set_solver. }
  by apply H.
Qed.

(** Once [buffer_free_file file] has returned from a state whose index is
    ordered, every entry of the index whose [kernel_data] was on the file's
    list is gone from the index: [get_buffer] with its key fails; and the
    file's list is empty. *)
Lemma buffer_free_file_listed f s s1 tr :
  ordered (_root s) = true →
  buffer_free_file f s = Ret () s1 tr →
  (∀ e, e ∈ entries (_root s) → entry_addr e ∈ members s f →
        get_buffer (buffer_uid (key e)) (pid (key e)) s1
        = Ret None s1 lookup_miss_trace)
  ∧ members s1 f = [].
Proof.
  intros Ho Hr. apply buffer_free_file_returns in Hr.
  destruct Hr as (file & Hf & Hr). unfold members. rewrite Hf. simpl.
  destruct (private_data file) as [hd|] eqn:Hp.
  - destruct Hr as (Hsp & Hl & -> & _). simpl. split.
    + intros e He Ha.
      pose proof (get_buffer_run (buffer_uid (key e)) (pid (key e))
        {| _root := erase_each (ll_list hd) (_root s);
           _uid_counter := _uid_counter s; lock := RW_LOCK_UNLOCKED;
           files := unlink_each (ll_list hd) <$> files s;
           heap := free_slabs (ll_list hd) (heap s) |} eq_refl) as Hg.
      simpl in Hg. rewrite map_key_eta, erase_each_search in Hg by done.
      exact Hg.
    + rewrite lookup_fmap, Hf. simpl. rewrite Hp. simpl.
      apply filter_not_in_self.
  - destruct Hr as [-> _]. split; [intros e _ Ha; inversion Ha|].
    rewrite Hf. simpl. by rewrite Hp.
Qed.

Lemma buffer_free_file_null_run f s file :
  files s !! f = Some file → private_data file = None →
  buffer_free_file f s = Ret () s [].
Proof.
  intros Hf Hp. apply runs_Ret. unfold buffer_free_file.
  destruct s as [root c lk fs hp]; simpl in *. run. done.
Qed.

Lemma buffer_free_file_empty_run f s file hd :
  files s !! f = Some file → private_data file = Some hd →
  spinlock hd = false → ll_list hd = [] → lock s = RW_LOCK_UNLOCKED →
  buffer_free_file f s = Ret () s (release_all_trace f []).
Proof.
  intros Hf Hp Hsp Hll Hl. apply runs_Ret. unfold buffer_free_file.
  destruct s as [root c lk fs hp]; simpl in *; subst. run.
  rewrite Hll. cbn [free_each]. run.
  split_and!; try done. state_eq.
  map_lookups. rewrite Hf. simpl. f_equal.
  unfold set_private_data; simpl. apply file_eq; [done|].
  rewrite Heqo. f_equal. destruct hd; simpl in *. by subst.
Qed.

(** C10: once [buffer_free_file file] has returned, calling it again
    straight away returns and changes nothing. The first call leaves
    [private_data] as it found it: if it is null the second call returns at
    once; otherwise the second call finds the list empty, takes and releases
    the spinlock and the registry lock around an empty loop, and frees
    nothing. *)
Theorem buffer_free_file_twice f s s1 t1 :
  buffer_free_file f s = Ret () s1 t1 →
  ∃ file file1,
    files s !! f = Some file ∧ files s1 !! f = Some file1 ∧
    match private_data file with
    | None =>
        private_data file1 = None
        ∧ buffer_free_file f s1 = Ret () s1 []
    | Some _ =>
        (∃ hd1, private_data file1 = Some hd1 ∧ ll_list hd1 = [])
        ∧ buffer_free_file f s1 = Ret () s1 (release_all_trace f [])
        ∧ release_all_trace f []
          = [ev_acquire (ll_spinlock f) exclusive;
             ev_acquire map_lock exclusive; ev_release map_lock exclusive;
             ev_release (ll_spinlock f) exclusive]
    end.
Proof.
  intros Hr. apply buffer_free_file_returns in Hr.
  destruct Hr as (file & Hf & Hr). exists file.
  destruct (private_data file) as [hd|] eqn:Hp.
  - destruct Hr as (Hsp & Hl & -> & _). simpl. eexists.
    split; [done|]. split; [by rewrite lookup_fmap, Hf|]. simpl. rewrite Hp.
    simpl. rewrite filter_not_in_self. split_and!; [by eexists | | done].
    apply (buffer_free_file_empty_run f _ (unlink_each (ll_list hd) file)
             {| spinlock := spinlock hd; ll_list := [] |}); simpl; try done.
    + by rewrite lookup_fmap, Hf.
    + rewrite Hp. simpl. by rewrite filter_not_in_self.
  - destruct Hr as [-> _]. exists file. split_and!; try done.
    by eapply buffer_free_file_null_run.
Qed.

Lemma buffer_free_file_twice_one :
  ∃ s1 t1,
    buffer_free_file 1 one_buffer_unlocked = Ret () s1 t1
    ∧ buffer_free_file 1 s1 = Ret () s1 (release_all_trace 1 []).
Proof.
  destruct (buffer_free_file 1 one_buffer_unlocked) as [[] s1 t1|] eqn:E;
    [|vm_compute in E; discriminate].
  exists s1, t1. split; [reflexivity|].
  destruct (buffer_free_file_twice 1 one_buffer_unlocked s1 t1 E)
    as (file & file1 & Hf & _ & H).
  vm_compute in Hf. injection Hf as <-. simpl in H.
  exact (proj1 (proj2 H)).
Defined.

(** ** Allocation followed by lookup (C6) *)

Lemma write_unlock_run l s rw :
  rw_get l s = Some rw →
  write_unlock l s
  = Ret () (rw_set l {| wlocked := false; readers := readers rw |} s)
        [ev_release l exclusive].
Proof.
  intros Hrw. apply runs_Ret. unfold write_unlock.
  apply runs_bind, runs_get_state, runs_bind.
  eapply runs_deref; [done|].
  apply runs_bind, runs_put_state, runs_emit. done.
Qed.

(** C6, as stated, fails in two ways. Right after the allocation the slab is
    still locked for writing, and the lookup spins on it, having taken the
    registry's read lock. And a kernel size that makes the request wrap
    yields a block of 95 bytes, smaller than the [kernel_data] itself. *)
Lemma alloc_then_lookup_spins :
  alloc_buffer 96 always 4096 64 1 boot
  = Ret (Some 1%positive) one_buffer (alloc_trace 1 1 0)
  ∧ get_buffer 0 H1_pid one_buffer
    = Halt (spinning (slab_lock 1))
        (set_lock {| wlocked := false; readers := 1 |} one_buffer)
        [ev_acquire map_lock shared]
  ∧ ∃ s1 t1 blk,
      alloc_buffer 96 always 4096 wrapped_size 1 boot
      = Ret (Some 1%positive) s1 t1
      ∧ heap s1 !! 1%positive = Some blk
      ∧ b_size blk = 95%N
      ∧ (b_size blk - 96)%N ≠ wrapped_size.
Proof.
  split; [exact boot_alloc|]. split; [vm_compute; reflexivity|].
  destruct (alloc_buffer 96 always 4096 wrapped_size 1 boot)
    as [r s1 t1|] eqn:E; vm_compute in E; [|discriminate].
  injection E as <- <- <-. do 3 eexists. split; [reflexivity|].
  split; [vm_compute; reflexivity|]. split; [reflexivity | discriminate].
Qed.

(** C6, amended: after a successful [alloc_buffer] through a file, once the
    caller has released the write lock the slab came back with, [get_buffer]
    with the id the allocation consumed and the file's owner returns the
    same slab (holding its read lock). The slab's user buffer is a block of
    [user_buffer_size] bytes; its [kernel_data] is a block of
    [sizeof(struct kernel_data) + kernel_buffer_size] bytes computed in
    [size_t], which leaves [kernel_buffer_size] bytes for the kernel buffer
    whenever that sum does not wrap. *)
Theorem alloc_then_unlock_then_lookup sz ok us ks f s file a s1 t1 :
  files s !! f = Some file →
  alloc_buffer sz ok us ks f s = Ret (Some a) s1 t1 →
  ∃ s2 s3 blk slab ublk,
    write_unlock (slab_lock a) s1 = Ret () s2 [ev_release (slab_lock a) exclusive]
    ∧ get_buffer (_uid_counter s) (f_owner_pid file) s2
      = Ret (Some a) s3 (lookup_hit_trace a)
    ∧ heap s3 !! a = Some blk
    ∧ b_slab blk = Some slab
    ∧ heap s3 !! user_buffer slab = Some ublk
    ∧ b_size ublk = us
    ∧ b_size blk = ((sz + ks) `mod` size_modulus)%N
    ∧ ((sz + ks < size_modulus)%N → (b_size blk - sz)%N = ks).
Proof.
  intros Hf Hr. apply alloc_buffer_returns in Hr.
  destruct Hr as (file' & hd & u & root' & Hf' & Hp & Hsp & Ho & Hl & Ha & Hu
                  & Hau & Hi & -> & ->).
  simplify_eq.
  set (s1 := {| _root := root'; _uid_counter := next_uid s;
                lock := RW_LOCK_UNLOCKED; files := _; heap := _ |}).
  assert (rw_get (slab_lock a) s1 = Some {| wlocked := true; readers := 0 |})
    as Hrw by (simpl; by rewrite lookup_insert_eq).
  pose proof (write_unlock_run _ _ _ Hrw) as Hw.
  set (s2 := rw_set (slab_lock a) _ s1) in Hw.
  pose proof (get_buffer_run (_uid_counter s) (f_owner_pid file) s2 eq_refl)
    as Hg.
  pose proof (map_insert_search _ _ _ Hi) as Hs. simpl in Hs.
  replace (_root s2) with root' in Hg by done.
  rewrite Hs in Hg. simpl in Hg.
  specialize (Hg RW_LOCK_UNLOCKED).
  rewrite lookup_alter, decide_True, lookup_insert_eq in Hg by done.
  specialize (Hg eq_refl eq_refl).
  eexists _, _, _, _, _. split; [exact Hw|]. split; [exact Hg|].
  simpl. rewrite !lookup_alter, !decide_True, lookup_insert_eq by done.
  simpl. split; [reflexivity|]. split; [reflexivity|]. simpl.
  rewrite !decide_False, lookup_insert_ne, lookup_insert_eq by done.
  split; [reflexivity|]. split; [reflexivity|]. split; [reflexivity|].
  simpl. intros Hlt. rewrite N.mod_small by done. lia.
Qed.

Lemma alloc_then_unlock_then_lookup_boot :
  files boot !! 1%nat = Some (fresh_file H1_pid)
  ∧ alloc_buffer 96 always 4096 64 1 boot
    = Ret (Some 1%positive) one_buffer (alloc_trace 1 1 0)
  ∧ ∃ s3,
      write_unlock (slab_lock 1) one_buffer
      = Ret () one_buffer_unlocked [ev_release (slab_lock 1) exclusive]
      ∧ get_buffer 0 H1_pid one_buffer_unlocked
        = Ret (Some 1%positive) s3 (lookup_hit_trace 1).
Proof.
  split; [reflexivity|]. split; [exact boot_alloc|].
  destruct (alloc_then_unlock_then_lookup 96 always 4096 64 1 boot
              (fresh_file H1_pid) 1 one_buffer (alloc_trace 1 1 0)
              eq_refl boot_alloc)
    as (s2 & s3 & blk & slab & ublk & Hw & Hg & _).
  rewrite one_buffer_write_unlock in Hw. injection Hw as <-.
  exists s3. split; [exact one_buffer_write_unlock | exact Hg].
Defined.

(** ** Failure of an allocation (C2) *)

(** C2, as stated, fails on the duplicate key: [alloc_buffer] returns
    [false] with the counter advanced, the file's spinlock still held and
    [f_owner.lock] released once more than it was taken. *)
Lemma alloc_buffer_duplicate_leaves_traces :
  alloc_buffer 96 always 4096 64 1 id_in_use
  = Ret None id_in_use_after (alloc_duplicate_trace 1 3 0)
  ∧ _uid_counter id_in_use_after ≠ _uid_counter id_in_use
  ∧ ((ll_spinlock 1, exclusive)
     ∈ held_after [] (alloc_duplicate_trace 1 3 0))
  ∧ id_in_use_after ≠ id_in_use.
Proof.
  split; [vm_compute; reflexivity|]. split; [discriminate|].
  split; [vm_compute; set_solver | discriminate].
Qed.

(** C2, amended: when [alloc_buffer] returns [false], either memory was
    short, and then it has taken no lock, has freed the block it may have
    got, and the state is exactly as before; or the key was a duplicate, and
    then the two blocks are freed, the index, the lists of all files and the
    registry lock are as before, and the counter has advanced by one.
    (Nothing is said here of the file's spinlock and of [f_owner.lock] on
    the duplicate path.) *)
Theorem alloc_buffer_failure sz ok us ks f s s' tr :
  alloc_buffer sz ok us ks f s = Ret None s' tr →
  (s' = s ∧ tr = [])
  ∨ (∃ file,
       files s !! f = Some file
       ∧ is_Some (map_search (_root s)
                    {| pid := f_owner_pid file;
                       buffer_uid := _uid_counter s |})
       ∧ _root s' = _root s
       ∧ heap s' = heap s
       ∧ (∀ f', members s' f' = members s f')
       ∧ lock s' = lock s
       ∧ ((map_lock, exclusive) ∉ held_after [] tr)
       ∧ _uid_counter s' = next_uid s).
Proof.
  intros Hr. apply alloc_buffer_returns in Hr.
  destruct Hr as [?|(file & hd & a & Hf & Hp & _ & _ & Hl & _ & Hs & -> & ->)];
    [by left|].
  right. exists file. split_and!; try done.
  - intros f'. unfold members. simpl.
    destruct (decide (f' = f)) as [->|Hne].
    + rewrite lookup_insert_eq, Hf. simpl. by rewrite Hp.
    + by rewrite lookup_insert_ne.
  - unfold alloc_duplicate_trace. simpl.
    destruct (decide ((owner_lock f, shared) = (owner_lock f, shared)));
      [|done].
    simpl.
    destruct (decide ((owner_lock f, shared) = (ll_spinlock f, exclusive)));
      [done|].
    simpl.
    destruct (decide ((owner_lock f, shared) = (slab_lock a, exclusive)));
      [done|].
    set_solver.
Qed.

Lemma alloc_buffer_failure_cases :
  alloc_buffer 96 never 4096 64 1 boot = Ret None boot []
  ∧ (alloc_buffer 96 always 4096 64 1 id_in_use
     = Ret None id_in_use_after (alloc_duplicate_trace 1 3 0)
     ∧ _root id_in_use_after = _root id_in_use
     ∧ heap id_in_use_after = heap id_in_use
     ∧ _uid_counter id_in_use_after = 1).
Proof.
  split.
  - reflexivity.
  - assert (alloc_buffer 96 always 4096 64 1 id_in_use
            = Ret None id_in_use_after (alloc_duplicate_trace 1 3 0)) as E
      by (vm_compute; reflexivity).
    split; [exact E|].
    destruct (alloc_buffer_failure 96 always 4096 64 1 id_in_use
                id_in_use_after _ E)
      as [[H _]|(file & _ & _ & Hr & Hh & _ & _ & _ & Hc)].
    + exfalso. revert H. discriminate.
    + split; [exact Hr|]. split; [exact Hh|]. exact Hc.
Defined.

(** ** The order of lock acquisitions (C1) *)

(** C1, as stated, fails twice. [alloc_buffer] takes the file's spinlock
    (tier 1) and the registry lock (tier 2) while it holds the write lock of
    the slab it has just set up (tier 3). [free_buffer] takes the registry
    lock (its third event) before the file's spinlock (its fourth). *)
Lemma lock_tiers_violated :
  alloc_buffer 96 always 4096 64 1 boot
  = Ret (Some 1%positive) one_buffer (alloc_trace 1 1 0)
  ∧ tier_ordered (alloc_trace 1 1 0) = false
  ∧ free_buffer 0 1 one_buffer_unlocked
    = Ret () emptied (release_hit_trace 1 1)
  ∧ first_acquire map_lock (release_hit_trace 1 1) = Some 2%nat
  ∧ first_acquire (ll_spinlock 1) (release_hit_trace 1 1) = Some 3%nat
  ∧ tier_ordered (release_hit_trace 1 1) = false.
Proof. split_and!; vm_compute; reflexivity. Qed.

Lemma may_take_slab_lock a h : may_take_holding (slab_lock a) h = true.
Proof. by destruct h. Qed.

Lemma tier_ordered_slab_locks nodes held rest :
  tier_ordered_from held (slab_lock_trace nodes ++ rest)
  = tier_ordered_from
      (reverse ((λ a, (slab_lock a, exclusive)) <$> nodes) ++ held) rest.
Proof.
  revert held. induction nodes as [|a nodes IH]; intros held; [done|].
  simpl. rewrite IH, reverse_cons, <- app_assoc. simpl.
  replace (forallb _ held) with true; [done|].
  symmetry. apply forallb_forall. intros. apply may_take_slab_lock.
Qed.

Lemma tier_ordered_release_all f nodes :
  tier_ordered (release_all_trace f nodes) = true.
Proof.
  unfold tier_ordered, release_all_trace. simpl.
  by rewrite tier_ordered_slab_locks.
Qed.

Ltac decide_locks :=
  repeat first
    [ rewrite decide_True by done
    | rewrite decide_False by done ];
  simpl.

(** C1, amended: [get_buffer] and [buffer_free_file] take their locks in
    the order of the tiers and never take a lock while holding one of a
    higher tier. [alloc_buffer] first takes the write lock of the slab it
    has just set up, which nothing else can reach yet, and keeps it; apart
    from that lock it keeps the order: the file's spinlock, then the
    registry lock. [free_buffer] takes the slab's lock last: the order is
    kept between the registry lock and the slab's lock, and between the
    file's spinlock and the slab's lock. (Nothing is said here of the order
    in which [free_buffer] takes the spinlock and the registry lock.) *)
Theorem lock_tiers_kept :
  (∀ id p s r s' tr,
     get_buffer id p s = Ret r s' tr → tier_ordered tr = true)
  ∧ (∀ f s s' tr,
       buffer_free_file f s = Ret () s' tr → tier_ordered tr = true)
  ∧ (∀ sz ok us ks f s r s' tr,
       alloc_buffer sz ok us ks f s = Ret r s' tr →
       tier_ordered (without_tier 3 tr) = true
       ∧ ∀ a, r = Some a →
           tr = alloc_trace f a (_uid_counter s)
           ∧ first_acquire (slab_lock a) tr = Some 0%nat
           ∧ first_acquire (ll_spinlock f) tr = Some 3%nat
           ∧ first_acquire map_lock tr = Some 4%nat)
  ∧ (∀ id f s s' tr,
       free_buffer id f s = Ret () s' tr →
       tier_ordered (without_tier 1 tr) = true
       ∧ tier_ordered (without_tier 2 tr) = true).
Proof.
  split_and!.
  - intros id p s r s' tr Hr. apply get_buffer_returns in Hr.
    destruct r as [a|]; destruct Hr as [_ ->]; [|done].
    unfold tier_ordered, lookup_hit_trace. simpl. by decide_locks.
  - intros f s s' tr Hr. apply buffer_free_file_returns in Hr.
    destruct Hr as (file & _ & Hr). destruct (private_data file).
    + destruct Hr as (_ & _ & _ & ->). apply tier_ordered_release_all.
    + by destruct Hr as [_ ->].
  - intros sz ok us ks f s r s' tr Hr. apply alloc_buffer_returns in Hr.
    destruct r as [a|].
    + destruct Hr as (file & hd & u & root' & _ & _ & _ & _ & _ & _ & _ & _
                      & _ & _ & ->).
      split.
      * unfold tier_ordered, alloc_trace, without_tier.
        rewrite !filter_cons. simpl. decide_locks. by decide_locks.
      * intros ? [= <-]. split; [done|].
        unfold alloc_trace. simpl. decide_locks. done.
    + split; [|done].
      destruct Hr as [[_ ->]|(file & hd & a & _ & _ & _ & _ & _ & _ & _ & _
                              & ->)]; [done|].
      unfold tier_ordered, alloc_duplicate_trace, without_tier.
      rewrite !filter_cons. simpl. decide_locks. by decide_locks.
  - intros id f s s' tr Hr. apply free_buffer_returns in Hr.
    destruct Hr as (file & _ & _ & _ & Hr). destruct (map_search _ _) as [e|].
    + destruct Hr as (hd & blk & slab & _ & _ & _ & _ & _ & _ & ->).
      unfold tier_ordered, release_hit_trace, without_tier.
      rewrite !filter_cons. simpl. decide_locks. by decide_locks.
    + destruct Hr as [_ ->].
      unfold tier_ordered, release_miss_trace, without_tier.
      rewrite !filter_cons. simpl. decide_locks. by decide_locks.
Qed.

Lemma lock_tiers_kept_runs :
  (∃ s', get_buffer 0 H1_pid one_buffer_unlocked
         = Ret (Some 1%positive) s' (lookup_hit_trace 1))
  ∧ tier_ordered (lookup_hit_trace 1) = true
  ∧ buffer_free_file 1 one_buffer_unlocked
    = Ret () emptied (release_all_trace 1 [1%positive])
  ∧ tier_ordered (release_all_trace 1 [1%positive]) = true
  ∧ tier_ordered (without_tier 3 (alloc_trace 1 1 0)) = true
  ∧ tier_ordered (without_tier 1 (release_hit_trace 1 1)) = true.
Proof.
  destruct lock_tiers_kept as (Hg & Hb & Ha & Hf).
  assert (buffer_free_file 1 one_buffer_unlocked
          = Ret () emptied (release_all_trace 1 [1%positive])) as Eb
    by (vm_compute; reflexivity).
  assert (free_buffer 0 1 one_buffer_unlocked
          = Ret () emptied (release_hit_trace 1 1)) as Ef
    by (vm_compute; reflexivity).
  destruct (get_buffer 0 H1_pid one_buffer_unlocked) as [[a|] s' tr|] eqn:Eg;
    vm_compute in Eg; try discriminate.
  injection Eg as <- <- <-.
  split; [by eexists|]. split_and!.
  - reflexivity.
  - exact Eb.
  - exact (Hb _ _ _ _ Eb).
  - exact (proj1 (Ha _ _ _ _ _ _ _ _ _ boot_alloc)).
  - exact (proj1 (Hf _ _ _ _ _ Ef)).
Defined.

(** * More of buffer.c *)

(** ** Rules for outcomes of both kinds *)

Section wp_rules.
Context {A B : Type}.

Lemma wp_bind (m : M A) (k : A → M B) s
    (QR : B → state → list event → Prop) QH :
  wp m s (λ a s1 t1, wp (k a) s1 (λ b s2 t2, QR b s2 (t1 ++ t2))
                        (λ h s2 t2, QH h s2 (t1 ++ t2)))
         QH →
  wp (m ≫= k) s QR QH.
Proof.
  unfold wp, mbind, M_bind. destruct (m s) as [a s1 t1|]; [|done].
  by destruct (k a s1).
Qed.

Lemma wp_ret (a : A) s (QR : A → state → list event → Prop) QH :
  QR a s [] → wp (mret a) s QR QH.
Proof. done. Qed.

Lemma wp_stop h s (QR : A → state → list event → Prop)
    (QH : halt → state → list event → Prop) :
  QH h s [] → wp (stop h) s QR QH.
Proof. done. Qed.

Lemma wp_deref (o : option A) s (QR : A → state → list event → Prop)
    (QH : halt → state → list event → Prop) :
  match o with Some a => QR a s [] | None => QH fault s [] end →
  wp (deref o) s QR QH.
Proof. by destruct o. Qed.

Lemma wp_Ret (m : M A) s a s' tr :
  wp m s (λ a0 s0 t0, a0 = a ∧ s0 = s' ∧ t0 = tr) (λ _ _ _, False)
  ↔ m s = Ret a s' tr.
Proof.
  unfold wp. destruct (m s); [|split; [done | discriminate]].
  split; [by intros (-> & -> & ->) | by intros [= -> -> ->]].
Qed.

Lemma wp_Halt (m : M A) s h s' tr :
  wp m s (λ _ _ _, False) (λ h0 s0 t0, h0 = h ∧ s0 = s' ∧ t0 = tr)
  ↔ m s = Halt h s' tr.
Proof.
  unfold wp. destruct (m s); [split; [done | discriminate]|].
  split; [by intros (-> & -> & ->) | by intros [= -> -> ->]].
Qed.
End wp_rules.

Lemma wp_get_state s (QR : state → state → list event → Prop) QH :
  QR s s [] → wp get_state s QR QH.
Proof. done. Qed.

Lemma wp_put_state s' s (QR : unit → state → list event → Prop) QH :
  QR () s' [] → wp (put_state s') s QR QH.
Proof. done. Qed.

Lemma wp_emit e s (QR : unit → state → list event → Prop) QH :
  QR () s [e] → wp (emit e) s QR QH.
Proof. done. Qed.

Lemma wp_kmalloc (ok : gmap addr block → N → bool) n s
    (QR : option addr → state → list event → Prop) QH :
  (if ok (heap s) n then
     QR (Some (fresh (dom (heap s))))
        (set_heap (<[fresh (dom (heap s)) :=
                      {| b_size := n; b_slab := None |}]> (heap s)) s) []
   else QR None s []) →
  wp (kmalloc ok n) s QR QH.
Proof.
  unfold wp, kmalloc, mbind, M_bind, get_state. simpl.
  by destruct (ok (heap s) n).
Qed.

Lemma wp_store_check a s blk (QR : unit → state → list event → Prop) QH :
  heap s !! a = Some blk → b_size blk ≠ 0%N → QR () s [] →
  wp (store_check a) s QR QH.
Proof.
  intros Hb Hn HQ. unfold store_check.
  apply wp_bind, wp_get_state, wp_bind, wp_deref. rewrite Hb.
  destruct (b_size blk =? 0)%N eqn:Hz; [by apply N.eqb_eq in Hz|].
  by apply wp_ret.
Qed.

(** One step of a run, whichever way it ends. *)
Ltac wp_step :=
  lazymatch goal with
  | |- wp (_ ≫= _) _ _ _ => apply wp_bind
  | |- wp (mret _) _ _ _ => apply wp_ret
  | |- wp (stop _) _ _ _ => apply wp_stop
  | |- wp (deref ?o) _ _ _ => apply wp_deref; destruct o eqn:?
  | |- wp get_state _ _ _ => apply wp_get_state
  | |- wp (put_state _) _ _ _ => apply wp_put_state
  | |- wp (emit _) _ _ _ => apply wp_emit
  | |- wp (kmalloc _ _) _ _ _ => apply wp_kmalloc
  | |- wp (if ?b then _ else _) _ _ _ => destruct b eqn:?
  | |- wp (match ?x with _ => _ end) _ _ _ => destruct x eqn:?
  | |- wp ?m _ _ _ => unfold_head m
  end.

Ltac wp_run := repeat (wp_step; tidy).

(** ** The key order and the index *)

(** X1: [map_key_cmp] compares by owner first and by buffer id among the
    keys of one owner; it answers -1, 0 or 1, answers 0 exactly on equal
    keys, answers the opposite when its arguments are swapped, and "below"
    is transitive. *)
Theorem map_key_cmp_total_order (a b c : map_key) :
  (map_key_cmp a b = -1 ∨ map_key_cmp a b = 0 ∨ map_key_cmp a b = 1)
  ∧ (map_key_cmp a b = -1 ↔
       pid a < pid b ∨ (pid a = pid b ∧ buffer_uid a < buffer_uid b))
  ∧ (map_key_cmp a b = 0 ↔ a = b)
  ∧ map_key_cmp b a = - map_key_cmp a b
  ∧ (map_key_cmp a b = -1 → map_key_cmp b c = -1 → map_key_cmp a c = -1).
Proof.
  split_and!.
  - apply map_key_cmp_range.
  - apply map_key_cmp_lt.
  - apply map_key_cmp_eq.
  - pose proof (map_key_cmp_range a b) as Hr.
    pose proof (map_key_cmp_gt a b) as Hg.
    pose proof (map_key_cmp_gt b a) as Hg'.
    pose proof (map_key_cmp_eq a b) as He.
    pose proof (map_key_cmp_eq b a) as He'.
    pose proof (map_key_cmp_range b a) as Hr'.
    destruct Hr as [Hr|[Hr|Hr]].
    + rewrite Hr. apply Hg'. done.
    + rewrite Hr. apply He'. symmetry. by apply He.
    + rewrite Hr. by apply Hg.
  - apply map_key_cmp_lt_trans.
Qed.

(** X2: in an ordered tree [map_search] finds an entry exactly when the tree
    holds one with that key, and then it is that entry; it finds nothing
    exactly when no entry has the key. *)
Theorem map_search_finds (t : rb_tree) (k : map_key) :
  ordered t = true →
  (∀ e, map_search t k = Some e ↔ e ∈ entries t ∧ key e = k)
  ∧ (map_search t k = None ↔ ∀ e, e ∈ entries t → key e ≠ k).
Proof.
  intros Ho.
  assert (∀ e, map_search t k = Some e ↔ e ∈ entries t ∧ key e = k) as Hs.
  { intros e. split.
    - intros H. apply map_search_Some in H. naive_solver.
    - intros [He <-]. by apply map_search_ordered. }
  split; [exact Hs|]. split.
  - intros Hn e He Hk.
    assert (map_search t k = Some e) by (by apply Hs). congruence.
  - intros Hn. destruct (map_search t k) as [e|] eqn:E; [|done].
    apply map_search_Some in E as [Hk He]. by destruct (Hn e He).
Qed.

Lemma map_search_finds_three :
  ordered three_keys = true
  ∧ map_search three_keys {| pid := 8; buffer_uid := 1 |}
    = Some {| key := {| pid := 8; buffer_uid := 1 |}; entry_addr := 3 |}
  ∧ map_search three_keys {| pid := 8; buffer_uid := 0 |} = None.
Proof.
  split; [reflexivity|].
  destruct (map_search_finds three_keys {| pid := 8; buffer_uid := 1 |}
              eq_refl) as [Hs _].
  split; [|reflexivity].
  apply Hs. split; [|reflexivity]. vm_compute. set_solver.
Defined.

(** X3: [map_insert] refuses an entry exactly when [map_search] finds its
    key, whatever the tree; otherwise it links the entry in. *)
Theorem map_insert_refuses_duplicates (t : rb_tree) (d : map_entry) :
  (map_insert t d = None ↔ is_Some (map_search t (key d)))
  ∧ (is_Some (map_insert t d) ↔ map_search t (key d) = None).
Proof.
  pose proof (map_insert_None t d) as H. split; [exact H|].
  rewrite <- not_eq_None_Some, H, eq_None_not_Some. done.
Qed.

(** X4: when [map_insert] links an entry into an ordered tree, the tree
    stays ordered, holds the entries it held and the new one, the new key
    is found, and every other key is found or not as before. *)
Theorem map_insert_adds (t t' : rb_tree) (d : map_entry) :
  ordered t = true →
  map_insert t d = Some t' →
  ordered t' = true
  ∧ entries t' ≡ₚ d :: entries t
  ∧ map_search t' (key d) = Some d
  ∧ ∀ k, k ≠ key d → map_search t' k = map_search t k.
Proof.
  intros Ho Hi. split_and!.
  - by eapply map_insert_ordered.
  - by apply map_insert_entries.
  - by eapply map_insert_search.
  - intros k Hk. by eapply map_insert_search_ne.
Qed.

Lemma map_insert_adds_three :
  ordered three_keys = true
  ∧ ∃ t',
      map_insert three_keys
        {| key := {| pid := 7; buffer_uid := 2 |}; entry_addr := 9 |}
      = Some t'
      ∧ ordered t' = true
      ∧ map_search t' {| pid := 7; buffer_uid := 2 |}
        = Some {| key := {| pid := 7; buffer_uid := 2 |}; entry_addr := 9 |}.
Proof.
  split; [reflexivity|].
  destruct (map_insert three_keys
              {| key := {| pid := 7; buffer_uid := 2 |}; entry_addr := 9 |})
    as [t'|] eqn:E; [|vm_compute in E; discriminate].
  exists t'. split; [reflexivity|].
  destruct (map_insert_adds three_keys t' _ eq_refl E) as (Ho & _ & Hs & _).
  split; [exact Ho | exact Hs].
Defined.

(** ** Unlinking a node *)

Lemma rb_erase_search_other a t e' :
  ordered t = true → e' ∈ entries t → entry_addr e' ≠ a →
  map_search (rb_erase a t) (key e') = Some e'.
Proof.
  intros Ho He Ha. apply map_search_ordered; [by apply rb_erase_ordered|].
  rewrite rb_erase_entries. by apply list_elem_of_filter.
Qed.

Lemma NoDup_fmap_inj {X Y} (f : X → Y) (l : list X) x y :
  NoDup (f <$> l) → x ∈ l → y ∈ l → f x = f y → x = y.
Proof.
  induction l as [|z l IH]; simpl; [by intros _ H; inversion H|].
  rewrite NoDup_cons, !elem_of_cons. intros [Hz Hl] [->|Hx] [->|Hy] Hf.
  - done.
  - destruct Hz. rewrite Hf. by apply list_elem_of_fmap_2.
  - destruct Hz. rewrite <- Hf. by apply list_elem_of_fmap_2.
  - by apply IH.
Qed.

(** With distinct nodes, unlinking one leaves every other key as it was. *)
Lemma rb_erase_search_ne a t e k :
  ordered t = true → NoDup (entry_addr <$> entries t) →
  e ∈ entries t → entry_addr e = a → k ≠ key e →
  map_search (rb_erase a t) k = map_search t k.
Proof.
  intros Ho Hn He Ha Hk.
  destruct (map_search t k) as [e'|] eqn:Hs.
  - apply map_search_Some in Hs as [<- He'].
    apply rb_erase_search_other; [done..|].
    intros Ha'. destruct Hk. f_equal.
    apply (NoDup_fmap_inj entry_addr (entries t)); [done..|congruence].
  - by apply rb_erase_search_None.
Qed.

Lemma rb_erase_absent a t :
  a ∉ entry_addr <$> entries t → rb_erase a t = t.
Proof.
  induction t as [|l IHl e r IHr]; simpl; [done|].
  rewrite fmap_app, fmap_cons. intros Hn.
  rewrite decide_False by set_solver.
  rewrite IHl, IHr by set_solver. done.
Qed.

(** Linking a new node and unlinking it again gives the tree back. *)
Lemma rb_erase_map_insert t d t' :
  map_insert t d = Some t' → entry_addr d ∉ entry_addr <$> entries t →
  rb_erase (entry_addr d) t' = t.
Proof.
  revert t'. induction t as [|l IHl e r IHr]; simpl; intros t'.
  - intros [= <-] _. simpl. by rewrite decide_True.
  - rewrite fmap_app, fmap_cons. intros Hi Hn.
    destruct (map_key_cmp (key d) (key e) <? 0).
    { destruct (map_insert l d) as [l'|] eqn:El; [|done].
      injection Hi as <-. simpl. rewrite decide_False by set_solver.
      rewrite (IHl l') by set_solver.
      rewrite (rb_erase_absent _ r) by set_solver. done. }
    destruct (map_key_cmp (key d) (key e) >? 0); [|done].
    destruct (map_insert r d) as [r'|] eqn:Er; [|done].
    injection Hi as <-. simpl. rewrite decide_False by set_solver.
    rewrite (IHr r') by set_solver.
    rewrite (rb_erase_absent _ l) by set_solver. done.
Qed.

(** ** Well-formed states *)

Lemma slab_of_Some s a slab :
  slab_of s a = Some slab ↔
  ∃ blk, heap s !! a = Some blk ∧ b_slab blk = Some slab.
Proof. unfold slab_of. by rewrite bind_Some. Qed.

Lemma fmap_filter_addr a (es : list map_entry) :
  entry_addr <$> filter (λ e, entry_addr e ≠ a) es
  = filter (λ b, b ≠ a) (entry_addr <$> es).
Proof.
  induction es as [|e es IH]; [done|].
  rewrite fmap_cons, !filter_cons.
  destruct (decide (entry_addr e ≠ a)); [rewrite fmap_cons; f_equal|]; exact IH.
Qed.

Lemma addrs_release s a :
  addrs (release_slab s a) = filter (λ b, b ≠ a) (addrs s).
Proof. unfold addrs. simpl. by rewrite rb_erase_entries, fmap_filter_addr. Qed.

Lemma members_release s a f :
  members (release_slab s a) f = filter (λ b, b ≠ a) (members s f).
Proof.
  unfold members. simpl. rewrite lookup_fmap.
  destruct (files s !! f) as [[p l [hd|]]|]; done.
Qed.

Lemma heap_release s a slab b :
  slab_of s a = Some slab →
  heap (release_slab s a) !! b
  = if decide (b = a ∨ b = user_buffer slab) then None else heap s !! b.
Proof.
  intros Hs. simpl. unfold free_slab. unfold slab_of in Hs. rewrite Hs.
  case_decide as Hb.
  - destruct (decide (b = a)) as [->|]; [by rewrite lookup_delete_eq|].
    rewrite lookup_delete_ne by done.
    destruct Hb as [? | ->]; [done|]. by rewrite lookup_delete_eq.
  - rewrite !lookup_delete_ne by naive_solver. done.
Qed.

(** A [kernel_data] of the index is no one's user buffer. *)
Lemma consistent_user_ne s a a' slab :
  consistent s → a ∈ addrs s → a' ∈ addrs s → slab_of s a = Some slab →
  user_buffer slab ≠ a'.
Proof.
  intros C Ha Ha' Hs Heq.
  destruct (c_live _ C a Ha) as (sl & ub & Hsl & Hu & Hun).
  destruct (c_live _ C a' Ha') as (sl' & ub' & Hsl' & _).
  simplify_eq. apply slab_of_Some in Hsl' as (blk' & Hb' & Hs').
  simplify_eq.
Qed.

Lemma release_slab_consistent s a :
  consistent s → a ∈ addrs s → consistent (release_slab s a).
Proof.
  intros C Ha.
  destruct (c_live _ C a Ha) as (slab & ublk & Hsl & Hu & Hun).
  assert (∀ a', a' ∈ addrs s → a' ≠ a →
            slab_of (release_slab s a) a' = slab_of s a') as Hframe.
  { intros a' Ha' Hne. unfold slab_of at 1.
    rewrite (heap_release s a slab) by done.
    rewrite decide_False; [done|]. intros [? | ->]; [done|].
    by eapply (consistent_user_ne s a). }
  split.
  - simpl. apply rb_erase_ordered, C.
  - rewrite addrs_release. apply NoDup_filter, C.
  - intros a'. rewrite addrs_release, list_elem_of_filter. intros [Hne Ha'].
    destruct (c_live _ C a' Ha') as (sl' & ub' & Hsl' & Hu' & Hun').
    exists sl', ub'. rewrite Hframe by done. split; [done|]. split; [|done].
    rewrite (heap_release s a slab) by done. rewrite decide_False; [done|].
    intros [Heq|Heq].
    + by eapply (consistent_user_ne s a' a).
    + destruct Hne. by eapply (c_user _ C).
  - intros a1 a2 sl1 sl2. rewrite !addrs_release, !list_elem_of_filter.
    intros [Hn1 H1] [Hn2 H2]. rewrite !Hframe by done. by apply (c_user _ C).
  - intros f a'. rewrite members_release, addrs_release, !list_elem_of_filter.
    intros [? ?]. split; [done|]. by eapply (c_lists _ C).
  - intros a'. rewrite addrs_release, list_elem_of_filter. intros [Hne Ha'].
    destruct (c_owned _ C a' Ha') as [f Hf]. exists f.
    rewrite members_release. by apply list_elem_of_filter.
  - intros f. rewrite members_release. apply NoDup_filter, C.
  - intros f1 f2 a'. rewrite !members_release, !list_elem_of_filter.
    intros [_ ?] [_ ?]. by eapply (c_disjoint _ C).
Qed.

(** Well-formedness does not look at the locks. *)
Lemma consistent_same_data s s' :
  _root s' = _root s → (∀ f, members s' f = members s f) →
  (∀ b, (λ blk, user_buffer <$> b_slab blk) <$> heap s' !! b
        = (λ blk, user_buffer <$> b_slab blk) <$> heap s !! b) →
  consistent s → consistent s'.
Proof.
  intros Hr Hm Hh C.
  assert (addrs s' = addrs s) as Ha by (unfold addrs; by rewrite Hr).
  assert (∀ b, user_buffer <$> slab_of s' b = user_buffer <$> slab_of s b)
    as Hsl.
  { intros b. specialize (Hh b). unfold slab_of.
    destruct (heap s' !! b), (heap s !! b); simplify_eq/=; done. }
  assert (∀ b ublk, heap s !! b = Some ublk → b_slab ublk = None →
            ∃ ublk', heap s' !! b = Some ublk' ∧ b_slab ublk' = None) as Hu.
  { intros b ublk Hb Hn. specialize (Hh b). rewrite Hb in Hh.
    destruct (heap s' !! b) as [ublk'|]; simplify_eq/=.
    exists ublk'. split; [done|]. rewrite Hn in Hh.
    by destruct (b_slab ublk'). }
  split.
  - rewrite Hr. apply C.
  - rewrite Ha. apply C.
  - intros a. rewrite Ha. intros Hin.
    destruct (c_live _ C a Hin) as (sl & ub & Hs & Hb & Hn).
    pose proof (Hsl a) as Hsa. rewrite Hs in Hsa.
    destruct (slab_of s' a) as [sl'|]; simplify_eq/=.
    rewrite <- Hsa in Hb. destruct (Hu _ _ Hb Hn) as (ub' & ? & ?).
    by exists sl', ub'.
  - intros a1 a2 sl1 sl2. rewrite !Ha. intros H1 H2 Hs1 Hs2 Heq.
    pose proof (Hsl a1) as E1. pose proof (Hsl a2) as E2.
    rewrite Hs1 in E1. rewrite Hs2 in E2.
    destruct (slab_of s a1) as [t1|] eqn:T1; simplify_eq/=.
    destruct (slab_of s a2) as [t2|] eqn:T2; simplify_eq/=.
    eapply (c_user _ C); eauto. congruence.
  - intros f a. rewrite Hm, Ha. apply C.
  - intros a. rewrite Ha. intros Hin. destruct (c_owned _ C a Hin) as [f ?].
    exists f. by rewrite Hm.
  - intros f. rewrite Hm. apply C.
  - intros f1 f2 a. rewrite !Hm. apply C.
Qed.

(** An allocation that succeeds keeps the state well formed. *)
Lemma alloc_done_consistent sz us ks f s a s' tr :
  consistent s → alloc_done sz us ks f s a s' tr → consistent s'.
Proof.
  intros C (file & hd & u & root' & Hf & Hp & Hsp & Ho & Hl & Ha & Hu & Hau
            & Hi & -> & ->).
  set (s' := {| _root := root'; _uid_counter := next_uid s |}).
  assert (a ∉ addrs s) as Hfresh.
  { intros Hin. destruct (c_live _ C a Hin) as (sl & ? & Hs & _).
    apply slab_of_Some in Hs as (? & ? & _). congruence. }
  assert (∀ x, x ∈ addrs s' ↔ x = a ∨ x ∈ addrs s) as Haddrs.
  { intros x. unfold addrs. simpl.
    rewrite (map_insert_entries _ _ _ Hi), fmap_cons, elem_of_cons. done. }
  assert (slab_of s' a
          = Some {| user_buffer := u;
                    rwlock := {| wlocked := true; readers := 0 |} |})
    as Hslab_a.
  { unfold slab_of. simpl. by rewrite lookup_insert_eq. }
  assert (∀ b, is_Some (heap s !! b) → heap s' !! b = heap s !! b) as Hold.
  { intros b [blk Hb]. simpl. rewrite !lookup_insert_ne by congruence. done. }
  assert (∀ x, x ∈ addrs s → slab_of s' x = slab_of s x) as Hslab_old.
  { intros x Hx. destruct (c_live _ C x Hx) as (sl & ? & Hs & _).
    apply slab_of_Some in Hs as (blk & Hb & Hs).
    unfold slab_of. rewrite Hold; eauto. }
  assert (∀ f', members s' f'
                = if decide (f' = f) then a :: members s f
                  else members s f') as Hmem.
  { intros f'. unfold members. simpl. case_decide as Hd.
    - subst. rewrite lookup_insert_eq, Hf. simpl. by rewrite Hp.
    - by rewrite lookup_insert_ne. }
  assert (∀ f', a ∉ members s f') as Hnew.
  { intros f' Hin. apply Hfresh. by eapply (c_lists _ C). }
  split.
  - simpl. eapply map_insert_ordered; [apply C | done].
  - unfold addrs. simpl. rewrite (map_insert_entries _ _ _ Hi), fmap_cons.
    apply NoDup_cons. split; [exact Hfresh | apply C].
  - intros x Hx. apply Haddrs in Hx as [->|Hx].
    + eexists _, _. split; [exact Hslab_a|]. simpl.
      rewrite lookup_insert_ne, lookup_insert_eq by done. done.
    + destruct (c_live _ C x Hx) as (sl & ub & Hs & Hb & Hn).
      exists sl, ub. rewrite Hslab_old by done.
      rewrite Hold by eauto. done.
  - intros a1 a2 sl1 sl2 H1 H2 Hs1 Hs2 Heq.
    apply Haddrs in H1 as [->|H1]; apply Haddrs in H2 as [->|H2]; [done | | |].
    + rewrite Hslab_a in Hs1. rewrite Hslab_old in Hs2 by done.
      destruct (c_live _ C a2 H2) as (sl & ub & Hs & Hb & _).
      simplify_eq/=; congruence.
    + rewrite Hslab_a in Hs2. rewrite Hslab_old in Hs1 by done.
      destruct (c_live _ C a1 H1) as (sl & ub & Hs & Hb & _).
      simplify_eq/=; congruence.
    + rewrite Hslab_old in Hs1, Hs2 by done. by eapply (c_user _ C).
  - intros f' x. rewrite Hmem, Haddrs. case_decide.
    + rewrite elem_of_cons. intros [->|?]; [by left|].
      right. by eapply (c_lists _ C).
    + intros ?. right. by eapply (c_lists _ C).
  - intros x Hx. apply Haddrs in Hx as [->|Hx].
    + exists f. rewrite Hmem, decide_True by done. by left.
    + destruct (c_owned _ C x Hx) as [f' Hf']. exists f'. rewrite Hmem.
      case_decide; [subst; by right | done].
  - intros f'. rewrite Hmem. case_decide; [|apply C].
    apply NoDup_cons. split; [apply Hnew | apply C].
  - intros f1 f2 x. rewrite !Hmem.
    repeat case_decide; subst; try done; rewrite ?elem_of_cons.
    + intros [->|H1] H2; [by destruct (Hnew f2)|]. by eapply (c_disjoint _ C).
    + intros H1 [->|H2]; [by destruct (Hnew f1)|]. by eapply (c_disjoint _ C).
    + apply C.
Qed.

(** The loop of [buffer_free_file] releases the slabs one by one. *)
Lemma release_each nodes s :
  foldl release_slab s nodes
  = {| _root := erase_each nodes (_root s);
       _uid_counter := _uid_counter s;
       lock := lock s;
       files := unlink_each nodes <$> files s;
       heap := free_slabs nodes (heap s) |}.
Proof.
  revert s. induction nodes as [|a nodes IH]; intros s; simpl.
  - destruct s as [root c lk fs hp]; simpl. f_equal.
    rewrite <- (map_fmap_id fs) at 1. apply map_fmap_ext.
    intros. by rewrite unlink_each_nil.
  - rewrite IH. simpl. f_equal.
    rewrite <- map_fmap_compose. apply map_fmap_ext.
    intros. simpl. by rewrite unlink_each_cons.
Qed.

Lemma release_each_consistent nodes s :
  consistent s → NoDup nodes → (∀ a, a ∈ nodes → a ∈ addrs s) →
  consistent (foldl release_slab s nodes).
Proof.
  revert s. induction nodes as [|a nodes IH]; intros s C Hn Hin; simpl;
    [done|].
  apply NoDup_cons in Hn as [Ha Hn].
  apply IH; [apply release_slab_consistent; [done | apply Hin; by left]
            | done |].
  intros b Hb. rewrite addrs_release. apply list_elem_of_filter.
  split; [by intros -> | apply Hin; by right].
Qed.

(** ** Runs that do return *)

Lemma free_buffer_hit_run id f s file e hd slab :
  files s !! f = Some file →
  wlocked (f_owner_lock file) = false →
  lock s = RW_LOCK_UNLOCKED →
  map_search (_root s) {| pid := f_owner_pid file; buffer_uid := id |}
  = Some e →
  private_data file = Some hd → spinlock hd = false →
  slab_of s (entry_addr e) = Some slab → rwlock slab = RW_LOCK_UNLOCKED →
  free_buffer id f s
  = Ret () (release_slab s (entry_addr e))
        (release_hit_trace f (entry_addr e)).
Proof.
  intros Hf Ho Hl Hs Hp Hsp Hsl Hrw.
  apply slab_of_Some in Hsl as (blk & Hb & Hbs).
  assert (runs (free_buffer id f) s (λ _ _ _, True)) as Hr.
  { unfold free_buffer. destruct s as [root c lk fs hp], slab as [u rw];
      simpl in *; subst.
    run. done. }
  unfold runs in Hr.
  destruct (free_buffer id f s) as [[] s' tr|] eqn:E; [|done].
  apply free_buffer_returns in E.
  destruct E as (file' & Hf' & _ & _ & E). simplify_eq. rewrite Hs in E.
  destruct E as (hd' & blk' & slab' & ? & ? & ? & ? & ? & -> & ->).
  simplify_eq. f_equal. unfold release_slab, free_slab.
  rewrite Hb. simpl. rewrite Hbs, Hl. done.
Qed.

Lemma alloc_buffer_run sz ok us ks f s file hd :
  let n := ((sz + ks) `mod` size_modulus)%N in
  let a := fresh (dom (heap s)) in
  n ≠ 0%N →
  ok (heap s) n = true →
  ok (<[a := {| b_size := n; b_slab := None |}]> (heap s)) us = true →
  files s !! f = Some file → private_data file = Some hd →
  spinlock hd = false → wlocked (f_owner_lock file) = false →
  lock s = RW_LOCK_UNLOCKED →
  map_search (_root s)
    {| pid := f_owner_pid file; buffer_uid := _uid_counter s |} = None →
  ∃ s', alloc_buffer sz ok us ks f s
        = Ret (Some a) s' (alloc_trace f a (_uid_counter s))
        ∧ alloc_done sz us ks f s a s' (alloc_trace f a (_uid_counter s)).
Proof.
  intros n a Hn Hk1 Hk2 Hf Hp Hsp Ho Hl Hs.
  assert (wp (alloc_buffer sz ok us ks f) s (λ r _ _, r = Some a)
            (λ _ _ _, False)) as Hr.
  { unfold alloc_buffer. destruct s as [root c lk fs hp]; simpl in *; subst.
    apply wp_bind, wp_kmalloc. cbn [heap]. fold n. rewrite Hk1.
    apply wp_bind,
      (wp_store_check _ _ {| b_size := n; b_slab := None |});
      [by apply lookup_insert_eq | done |].
    apply wp_bind, wp_kmalloc. cbn [heap set_heap]. fold a. rewrite Hk2.
    wp_run.
    all: try done.
    match goal with
    | H : map_insert _ _ = None |- _ => apply map_insert_None in H as [? Hx]
    end.
    simpl in Hx. congruence. }
  unfold wp in Hr.
  destruct (alloc_buffer sz ok us ks f s) as [r s' tr|] eqn:E; [|done].
  subst r. exists s'. pose proof E as E'. apply alloc_buffer_returns in E'.
  assert (tr = alloc_trace f a (_uid_counter s)) as ->.
  { by destruct E' as (? & ? & ? & ? & ? & ? & ? & ? & ? & ? & ? & ? & ? & ?
                       & ->). }
  done.
Qed.

(** What [get_buffer] has done when it returns. *)
Lemma get_buffer_returns_state id p s :
  returns (get_buffer id p) s (λ r s' tr,
    wlocked (lock s) = false ∧
    match r with
    | None => s' = s
    | Some a =>
        ∃ rw, rw_get (slab_lock a) s = Some rw ∧ wlocked rw = false ∧
              s' = rw_set (slab_lock a)
                     {| wlocked := false; readers := readers rw + 1 |} s
    end).
Proof.
  unfold get_buffer. destruct s as [root c lk fs hp]. exec.
  - split; [done|]. eexists. split_and!; try done.
    state_eq. apply rwlock_t_eq; [done | lia].
  - split; [done|]. state_eq. apply rwlock_t_eq; [done | lia].
Qed.

(** The loop of [buffer_free_file] gets through a list of distinct nodes
    whose slabs nobody holds. *)
Lemma free_each_run nodes s :
  NoDup nodes →
  (∀ a, a ∈ nodes →
        ∃ slab, slab_of s a = Some slab ∧ rwlock slab = RW_LOCK_UNLOCKED
                ∧ user_buffer slab ∉ nodes) →
  runs (free_each nodes) s (λ _ _ _, True).
Proof.
  revert s. induction nodes as [|a nodes IH]; intros s Hn Hall; simpl.
  { by apply runs_ret. }
  apply NoDup_cons in Hn as [Ha Hn].
  destruct (Hall a) as ([u rw] & Hsl & Hrw & Hu); [by left|].
  apply slab_of_Some in Hsl as (blk & Hb & Hbs). simpl in *. subst rw.
  destruct s as [root c lk fs hp]; simpl in *.
  run.
  eapply runs_mono; [apply IH; [done|] | done].
  intros a' Ha'. destruct (Hall a') as (slab' & Hsl' & Hrw' & Hu');
    [by right|].
  exists slab'. split_and!; [|done|set_solver].
  unfold slab_of in *. simpl in *.
  rewrite !lookup_delete_ne, lookup_alter_ne by set_solver. done.
Qed.

Lemma buffer_free_file_run f s file hd :
  files s !! f = Some file → private_data file = Some hd →
  spinlock hd = false → lock s = RW_LOCK_UNLOCKED →
  NoDup (ll_list hd) →
  (∀ a, a ∈ ll_list hd →
        ∃ slab, slab_of s a = Some slab ∧ rwlock slab = RW_LOCK_UNLOCKED
                ∧ user_buffer slab ∉ ll_list hd) →
  buffer_free_file f s
  = Ret () (foldl release_slab s (ll_list hd))
        (release_all_trace f (ll_list hd)).
Proof.
  intros Hf Hp Hsp Hl Hn Hall.
  assert (runs (buffer_free_file f) s (λ _ _ _, True)) as Hr.
  { unfold buffer_free_file.
    destruct s as [root c lk fs hp]; simpl in *; subst. run.
    eapply runs_mono;
      [apply runs_returns; [apply free_each_run | apply free_each_returns]|].
    - done.
    - intros a Ha. destruct (Hall a Ha) as (slab & ? & ? & ?). by exists slab.
    - simpl. intros _ s1 t1 [_ [-> ->]]. run. done. }
  unfold runs in Hr.
  destruct (buffer_free_file f s) as [[] s' tr|] eqn:E; [|done].
  apply buffer_free_file_returns in E.
  destruct E as (file' & Hf' & E). simplify_eq. rewrite Hp in E.
  destruct E as (_ & _ & -> & ->). f_equal.
  rewrite release_each. by rewrite Hl.
Qed.

(** ** Allocation *)



(** X6: an allocation that succeeds touches nothing that was there: the
    two blocks it uses were free, every other block is as before, every
    other key is found or not as before, every other file is as before,
    and of the file itself only the list has changed. *)
Theorem alloc_buffer_frame sz ok us ks f s a s' tr :
  alloc_buffer sz ok us ks f s = Ret (Some a) s' tr →
  ∃ file file' u,
    files s !! f = Some file ∧ files s' !! f = Some file'
    ∧ heap s !! a = None ∧ heap s !! u = None ∧ a ≠ u
    ∧ slab_of s' a
      = Some {| user_buffer := u;
                rwlock := {| wlocked := true; readers := 0 |} |}
    ∧ (∃ ublk, heap s' !! u = Some ublk ∧ b_size ublk = us
               ∧ b_slab ublk = None)
    ∧ (∀ b, b ≠ a → b ≠ u → heap s' !! b = heap s !! b)
    ∧ (∀ k, k ≠ {| pid := f_owner_pid file; buffer_uid := _uid_counter s |} →
            map_search (_root s') k = map_search (_root s) k)
    ∧ (∀ g, g ≠ f → files s' !! g = files s !! g)
    ∧ f_owner_pid file' = f_owner_pid file
    ∧ f_owner_lock file' = f_owner_lock file
    ∧ (spinlock <$> private_data file') = (spinlock <$> private_data file)
    ∧ lock s' = lock s.
Proof.
  intros Hr. apply alloc_buffer_returns in Hr.
  destruct Hr as (file & hd & u & root' & Hf & Hp & Hsp & Ho & Hl & Ha & Hu
                  & Hau & Hi & -> & _).
  eexists file, _, u. simpl. split; [done|].
  split; [by rewrite lookup_insert_eq|]. split_and!; try done.
  - unfold slab_of. simpl. by rewrite lookup_insert_eq.
  - eexists. rewrite lookup_insert_ne, lookup_insert_eq by done. done.
  - intros b ? ?. by rewrite !lookup_insert_ne.
  - intros k Hk. by apply (map_insert_search_ne _ _ _ _ Hi).
  - intros g ?. by rewrite lookup_insert_ne.
  - rewrite Hp. simpl. by rewrite Hsp.
Qed.

Lemma alloc_buffer_frame_one :
  ∃ a s' tr,
    alloc_buffer 96 always 4096 64 1 one_buffer_unlocked = Ret (Some a) s' tr
    ∧ heap s' !! 1%positive = heap one_buffer_unlocked !! 1%positive
    ∧ map_search (_root s') {| pid := H1_pid; buffer_uid := 0 |}
      = map_search (_root one_buffer_unlocked)
          {| pid := H1_pid; buffer_uid := 0 |}.
Proof.
  destruct (alloc_buffer 96 always 4096 64 1 one_buffer_unlocked)
    as [[a|] s' tr|] eqn:E; try (vm_compute in E; discriminate).
  exists a, s', tr. split; [reflexivity|].
  destruct (alloc_buffer_frame _ _ _ _ _ _ _ _ _ E)
    as (file & file' & u & Hf & _ & Ha & Hu & _ & _ & _ & Hh & Hk & _).
  vm_compute in Hf. injection Hf as <-. split.
  - apply Hh; intros <-; [vm_compute in Ha | vm_compute in Hu]; discriminate.
  - apply Hk. vm_compute. discriminate.
Defined.

(** ** What every operation keeps *)

(** With nothing in the index and nothing on the lists a state is well
    formed. *)
Lemma empty_consistent s :
  _root s = rb_leaf → (∀ f, members s f = []) → consistent s.
Proof.
  intros Hr Hm. split.
  - by rewrite Hr.
  - unfold addrs. rewrite Hr. constructor.
  - unfold addrs. rewrite Hr. intros a Ha. inversion Ha.
  - unfold addrs. rewrite Hr. intros a1 a2 sl1 sl2 Ha. inversion Ha.
  - intros f a. rewrite Hm. intros Ha. inversion Ha.
  - unfold addrs. rewrite Hr. intros a Ha. inversion Ha.
  - intros f. rewrite Hm. constructor.
  - intros f1 f2 a. rewrite Hm. intros Ha. inversion Ha.
Qed.

Lemma boot_consistent : consistent boot.
Proof.
  apply empty_consistent; [done|]. intros f. unfold members. simpl.
  destruct (decide (f = 1%nat)) as [->|Hne].
  - by rewrite lookup_singleton_eq.
  - by rewrite lookup_singleton_ne.
Qed.

Lemma consistent_rw_set l v s : consistent s → consistent (rw_set l v s).
Proof.
  apply consistent_same_data; destruct l as [f|f| |a]; try done; simpl.
  - intros g. unfold members. simpl.
    destruct (decide (g = f)) as [->|?];
      [rewrite lookup_alter_eq | by rewrite lookup_alter_ne].
    by destruct (files s !! f).
  - intros b.
    destruct (decide (b = a)) as [->|?];
      [rewrite lookup_alter_eq | by rewrite lookup_alter_ne].
    destruct (heap s !! a) as [[n [sl|]]|]; done.
Qed.

Lemma alloc_duplicate_consistent f s s' tr :
  consistent s → alloc_duplicate f s s' tr → consistent s'.
Proof.
  intros C (file & hd & a & Hf & Hp & _ & _ & _ & _ & _ & -> & _).
  revert C. apply consistent_same_data; try done. simpl.
  intros g. unfold members. simpl.
  destruct (decide (g = f)) as [->|Hne].
  - rewrite lookup_insert_eq, Hf. simpl. by rewrite Hp.
  - by rewrite lookup_insert_ne.
Qed.

(** X7: the operations keep the registry well formed: an ordered index over
    distinct [kernel_data], each one an allocated block whose user buffer is
    another allocated block of its own, and each one on the list of exactly
    one file, once. Whatever [alloc_buffer] for a user buffer that is not
    of 0 bytes, [free_buffer], [get_buffer] and [buffer_free_file] return
    from a well-formed state, the state they leave is well formed. (A user
    buffer of 0 bytes is [ZERO_SIZE_PTR], which is no allocated block and is
    the same for every slab that asks for one: an allocation of that kind
    does not keep a state well formed in this sense.) *)
Theorem consistent_kept (s : state) :
  consistent s →
  (∀ sz ok us ks f r s' tr,
     us ≠ 0%N →
     alloc_buffer sz ok us ks f s = Ret r s' tr → consistent s')
  ∧ (∀ id f s' tr, free_buffer id f s = Ret () s' tr → consistent s')
  ∧ (∀ id p r s' tr, get_buffer id p s = Ret r s' tr → consistent s')
  ∧ (∀ f s' tr, buffer_free_file f s = Ret () s' tr → consistent s').
Proof.
  intros C. split_and!.
  - intros sz ok us ks f r s' tr _ Hr. apply alloc_buffer_returns in Hr.
    destruct r as [a|]; [by eapply alloc_done_consistent|].
    destruct Hr as [[-> _]|Hd]; [done|]. by eapply alloc_duplicate_consistent.
  - intros id f s' tr Hr. apply free_buffer_returns in Hr.
    destruct Hr as (file & Hf & _ & Hl & Hr).
    destruct (map_search _ _) as [e|] eqn:Hs; [|by destruct Hr as [-> _]].
    destruct Hr as (hd & blk & slab & _ & _ & Hb & Hbs & _ & -> & _).
    apply map_search_Some in Hs as [_ He].
    replace {| _root := _; _uid_counter := _; lock := _; files := _;
               heap := _ |} with (release_slab s (entry_addr e)).
    + apply release_slab_consistent; [done|].
      unfold addrs. by apply list_elem_of_fmap_2.
    + unfold release_slab, free_slab. rewrite Hb. simpl. by rewrite Hbs, Hl.
  - intros id p r s' tr Hr. apply get_buffer_returns_state in Hr.
    destruct Hr as [_ Hr]. destruct r as [a|]; [|by subst].
    destruct Hr as (rw & _ & _ & ->). by apply consistent_rw_set.
  - intros f s' tr Hr. apply buffer_free_file_returns in Hr.
    destruct Hr as (file & Hf & Hr).
    destruct (private_data file) as [hd|] eqn:Hp; [|by destruct Hr as [-> _]].
    destruct Hr as (_ & Hl & -> & _). rewrite <- Hl, <- release_each.
    assert (members s f = ll_list hd) as Hm.
    { unfold members. rewrite Hf. simpl. by rewrite Hp. }
    apply release_each_consistent; [done | |].
    + rewrite <- Hm. apply C.
    + intros a Ha. apply (c_lists _ C f). by rewrite Hm.
Qed.

Lemma consistent_kept_boot :
  consistent boot
  ∧ ∃ s1 s2 tr1 tr2,
      alloc_buffer 96 always 4096 64 1 boot = Ret (Some 1%positive) s1 tr1
      ∧ consistent s1
      ∧ buffer_free_file 1 (rw_set (slab_lock 1) RW_LOCK_UNLOCKED s1)
        = Ret () s2 tr2
      ∧ consistent s2.
Proof.
  split; [exact boot_consistent|].
  destruct (alloc_buffer 96 always 4096 64 1 boot) as [[a|] s1 tr1|] eqn:E1;
    try (vm_compute in E1; discriminate).
  assert (a = 1%positive) as -> by (vm_compute in E1; congruence).
  assert (4096 ≠ 0)%N as Hus by discriminate.
  pose proof (proj1 (consistent_kept boot boot_consistent)
                _ _ _ _ _ _ _ _ Hus E1) as C1.
  destruct (buffer_free_file 1 (rw_set (slab_lock 1) RW_LOCK_UNLOCKED s1))
    as [[] s2 tr2|] eqn:E2.
  - exists s1, s2, tr1, tr2. split; [reflexivity|]. split; [exact C1|].
    split; [exact E2|].
    exact (proj2 (proj2 (proj2
             (consistent_kept _
                (consistent_rw_set (slab_lock 1) RW_LOCK_UNLOCKED s1 C1))))
             _ _ _ E2).
  - vm_compute in E1. injection E1 as <- <-. vm_compute in E2. discriminate.
Defined.

(** X8: a run of [alloc_buffer] that no other call runs alongside does not
    take the duplicate path before the counter wraps. Of such a run, from a
    state in which every id in the index is below the counter and the
    counter is below [2^64 - 1]: if it returns [false] it was short of
    memory and has changed nothing, if it returns [true] it has advanced the
    counter by one, and either way the ids in the index stay below the
    counter; runs of [free_buffer], [get_buffer] and [buffer_free_file] keep
    them below it too. Nothing is said here of allocations that run at the
    same time: the id is drawn at line 190, outside the registry lock, so
    two of them can draw the same id and one of them then takes the
    duplicate path. *)
Theorem ids_below_kept (s : state) :
  ids_below s →
  (∀ sz ok us ks f r s' tr,
     _uid_counter s < buffer_id_modulus - 1 →
     alloc_buffer sz ok us ks f s = Ret r s' tr →
     ids_below s'
     ∧ match r with
       | None => s' = s ∧ tr = []
       | Some _ => _uid_counter s' = _uid_counter s + 1
       end)
  ∧ (∀ id f s' tr, free_buffer id f s = Ret () s' tr → ids_below s')
  ∧ (∀ id p r s' tr, get_buffer id p s = Ret r s' tr → ids_below s')
  ∧ (∀ f s' tr, buffer_free_file f s = Ret () s' tr → ids_below s').
Proof.
  intros [Hc Hb]. split_and!.
  - intros sz ok us ks f r s' tr Hlt Hr. apply alloc_buffer_returns in Hr.
    assert (next_uid s = _uid_counter s + 1) as Hn.
    { unfold next_uid. apply Z.mod_small. lia. }
    destruct r as [a|].
    + destruct Hr as (file & hd & u & root' & _ & _ & _ & _ & _ & _ & _ & _
                      & Hi & -> & _).
      simpl. rewrite Hn. split; [|done]. split; simpl; [lia|].
      intros e. rewrite (map_insert_entries _ _ _ Hi), elem_of_cons.
      intros [->|He]; simpl; [lia|]. specialize (Hb e He). lia.
    + destruct Hr as [[-> ->]|(file & hd & a & _ & _ & _ & _ & _ & _ & Hs
                               & _)]; [done|].
      destruct Hs as [e Hs]. apply map_search_Some in Hs as [Hk He].
      specialize (Hb e He). rewrite Hk in Hb. simpl in Hb. lia.
  - intros id f s' tr Hr. apply free_buffer_returns in Hr.
    destruct Hr as (file & _ & _ & _ & Hr).
    destruct (map_search _ _) as [e|]; [|by destruct Hr as [-> _]].
    destruct Hr as (hd & blk & slab & _ & _ & _ & _ & _ & -> & _).
    split; simpl; [done|]. intros e'. rewrite rb_erase_entries.
    intros [_ He]%list_elem_of_filter. by apply Hb.
  - intros id p r s' tr Hr. apply get_buffer_returns_state in Hr.
    destruct Hr as [_ Hr]. destruct r as [a|]; [|by subst].
    destruct Hr as (rw & _ & _ & ->). done.
  - intros f s' tr Hr. apply buffer_free_file_returns in Hr.
    destruct Hr as (file & _ & Hr).
    destruct (private_data file) as [hd|]; [|by destruct Hr as [-> _]].
    destruct Hr as (_ & _ & -> & _). split; simpl; [done|].
    intros e'. rewrite erase_each_entries.
    intros [_ He]%list_elem_of_filter. by apply Hb.
Qed.

Lemma ids_below_kept_boot :
  ids_below boot
  ∧ ∃ s1 tr1,
      alloc_buffer 96 always 4096 64 1 boot = Ret (Some 1%positive) s1 tr1
      ∧ ids_below s1 ∧ _uid_counter s1 = 1.
Proof.
  assert (ids_below boot) as Hb.
  { split; [vm_compute; split; [discriminate | reflexivity]|].
    intros e He. inversion He. }
  split; [exact Hb|].
  destruct (alloc_buffer 96 always 4096 64 1 boot) as [[a|] s1 tr1|] eqn:E1;
    try (vm_compute in E1; discriminate).
  assert (a = 1%positive) as -> by (vm_compute in E1; congruence).
  exists s1, tr1. split; [reflexivity|].
  exact (proj1 (ids_below_kept boot Hb) _ _ _ _ _ _ _ _ eq_refl E1).
Defined.



(** X27: a request of 0 bytes for the [kernel_data]. When the sum of
    [sizeof(struct kernel_data)] and the kernel size, taken in [size_t],
    wraps to 0 and [kmalloc] answers the request, the answer is
    [ZERO_SIZE_PTR], which is not null: [alloc_buffer] gets past its null
    check and faults at the store through it at line 171, before it asks for
    the user buffer, takes a lock or draws an id. The index, the counter,
    the locks and the files are as they were, and no memory has been taken:
    what is new in the memory in use has 0 bytes. *)
Theorem alloc_buffer_zero_size sz ok us ks f s :
  ((sz + ks) `mod` size_modulus = 0)%N →
  ok (heap s) 0%N = true →
  ∃ s',
    alloc_buffer sz ok us ks f s = Halt fault s' []
    ∧ _root s' = _root s ∧ _uid_counter s' = _uid_counter s
    ∧ lock s' = lock s ∧ files s' = files s
    ∧ (∀ b blk, heap s !! b = Some blk → heap s' !! b = Some blk)
    ∧ (∀ b blk, heap s' !! b = Some blk →
                heap s !! b = Some blk ∨ b_size blk = 0%N).
Proof.
  intros Hz Hk.
  assert (heap s !! fresh (dom (heap s)) = None) as Hfresh
    by apply not_elem_of_dom, is_fresh.
  exists (set_heap
            (<[fresh (dom (heap s)) := {| b_size := 0; b_slab := None |}]>
               (heap s)) s).
  split_and!; try done.
  - apply wp_Halt. unfold alloc_buffer.
    apply wp_bind, wp_kmalloc. rewrite Hz, Hk.
    apply wp_bind. unfold store_check.
    apply wp_bind, wp_get_state, wp_bind, wp_deref.
    cbn [heap set_heap]. rewrite lookup_insert_eq. simpl.
    by apply wp_stop.
  - simpl. intros b blk Hb. rewrite lookup_insert_ne; [done|]. congruence.
  - simpl. intros b blk.
    destruct (decide (b = fresh (dom (heap s)))) as [->|?].
    + rewrite lookup_insert_eq. intros [= <-]. by right.
    + rewrite lookup_insert_ne by done. by left.
Qed.

Lemma alloc_buffer_zero_size_boot :
  ((96 + (2 ^ 64 - 96)) `mod` size_modulus = 0)%N
  ∧ ∃ s',
      alloc_buffer 96 always 4096 (2 ^ 64 - 96) 1 boot = Halt fault s' []
      ∧ _root s' = rb_leaf ∧ _uid_counter s' = 0.
Proof.
  split; [reflexivity|].
  destruct (alloc_buffer_zero_size 96 always 4096 (2 ^ 64 - 96) 1 boot
              eq_refl eq_refl) as (s' & Hr & Ht & Hc & _).
  exists s'. split; [exact Hr|]. split; [exact Ht | exact Hc].
Defined.

(** ** Lookup *)

(** X10: [get_buffer] only reads. Whenever it returns, the index, the
    counter, the files and the registry lock are as before. When it returns
    [false] the key is not in the index and nothing at all has changed; when
    it returns a slab, that is the slab of the key, its lock was free of
    writers and now counts one more reader, and nothing else in memory has
    changed. *)
Theorem get_buffer_frame id p s r s' tr :
  get_buffer id p s = Ret r s' tr →
  _root s' = _root s ∧ _uid_counter s' = _uid_counter s
  ∧ files s' = files s ∧ lock s' = lock s
  ∧ match r with
    | None =>
        s' = s
        ∧ map_search (_root s) {| pid := p; buffer_uid := id |} = None
    | Some a =>
        ∃ e slab,
          map_search (_root s) {| pid := p; buffer_uid := id |} = Some e
          ∧ entry_addr e = a
          ∧ slab_of s a = Some slab ∧ wlocked (rwlock slab) = false
          ∧ slab_of s' a
            = Some {| user_buffer := user_buffer slab;
                      rwlock := {| wlocked := false;
                                   readers := readers (rwlock slab) + 1 |} |}
          ∧ (b_size <$> heap s' !! a) = (b_size <$> heap s !! a)
          ∧ ∀ b, b ≠ a → heap s' !! b = heap s !! b
    end.
Proof.
  intros Hr. pose proof (get_buffer_returns _ _ _ _ _ _ Hr) as H1.
  pose proof (get_buffer_returns_state _ _ _ _ _ _ Hr) as [_ H2].
  destruct r as [a|].
  - destruct H1 as [(e & Hs & Ha) _]. destruct H2 as (rw & Hrw & Hw & ->).
    simpl in *. split_and!; try done.
    destruct (heap s !! a) as [[n sl]|] eqn:Hb; [|done]. simpl in Hrw.
    destruct sl as [[u rw']|]; simplify_eq/=.
    exists e, {| user_buffer := u; rwlock := rw |}.
    unfold slab_of. simpl. rewrite Hb, lookup_alter_eq, Hb. simpl.
    split_and!; try done. intros b ?. by rewrite lookup_alter_ne.
  - destruct H1 as [Hs _]. by subst.
Qed.

Lemma get_buffer_frame_one :
  ∃ s' tr,
    get_buffer 0 H1_pid one_buffer_unlocked = Ret (Some 1%positive) s' tr
    ∧ _root s' = _root one_buffer_unlocked
    ∧ files s' = files one_buffer_unlocked
    ∧ heap s' !! 2%positive = heap one_buffer_unlocked !! 2%positive.
Proof.
  destruct (get_buffer 0 H1_pid one_buffer_unlocked) as [[a|] s' tr|] eqn:E;
    try (vm_compute in E; discriminate).
  assert (a = 1%positive) as -> by (vm_compute in E; congruence).
  exists s', tr. split; [reflexivity|].
  destruct (get_buffer_frame _ _ _ _ _ _ E)
    as (Hr & _ & Hf & _ & e & slab & _ & _ & _ & _ & _ & _ & Hh).
  split; [exact Hr|]. split; [exact Hf|]. by apply Hh.
Defined.

(** X11: a lookup that meets a writer on the slab waits for it with the
    registry's read lock in its hand: with the registry lock free of writers
    and the key in the index, if the slab's lock is held for writing (as it
    is when [alloc_buffer] returns), [get_buffer] does not return; it spins
    on the slab's lock, having taken the registry's read lock and nothing
    else. *)
Theorem get_buffer_waits_for_writer id p s e rw :
  wlocked (lock s) = false →
  map_search (_root s) {| pid := p; buffer_uid := id |} = Some e →
  rw_get (slab_lock (entry_addr e)) s = Some rw → wlocked rw = true →
  get_buffer id p s
  = Halt (spinning (slab_lock (entry_addr e)))
         (set_lock {| wlocked := false; readers := readers (lock s) + 1 |} s)
         [ev_acquire map_lock shared]
  ∧ held_after [] [ev_acquire map_lock shared] = [(map_lock, shared)].
Proof.
  intros Hl Hs Hrw Hw. split; [|done]. apply wp_Halt. unfold get_buffer.
  destruct s as [root c lk fs hp]; simpl in *. wp_run. done.
Qed.

Lemma get_buffer_waits_for_writer_one :
  get_buffer 0 H1_pid one_buffer
  = Halt (spinning (slab_lock 1))
         (set_lock {| wlocked := false; readers := 1 |} one_buffer)
         [ev_acquire map_lock shared].
Proof.
  exact (proj1 (get_buffer_waits_for_writer 0 H1_pid one_buffer
                  {| key := {| pid := H1_pid; buffer_uid := 0 |};
                     entry_addr := 1 |}
                  {| wlocked := true; readers := 0 |}
                  eq_refl eq_refl eq_refl eq_refl)).
Defined.

(** ** Release of one buffer *)

Lemma one_buffer_unlocked_consistent : consistent one_buffer_unlocked.
Proof.
  apply (consistent_rw_set (slab_lock 1) RW_LOCK_UNLOCKED one_buffer).
  eapply alloc_done_consistent; [apply boot_consistent|].
  exact (alloc_buffer_returns _ _ _ _ _ _ _ _ _ boot_alloc).
Qed.

(** X12: in a well-formed state, with the file open and its spinlock free,
    [f_owner.lock] free of writers, the registry lock free, the key in the
    index and nobody holding the slab's lock, [free_buffer] returns. The key
    is gone from the index and every other key is found or not as before;
    the slab's [kernel_data] is off every list and the lists are otherwise
    as before; its two blocks are freed and every other block is as it was;
    the counter and the registry lock are unchanged, and the state is still
    well formed. *)
Theorem free_buffer_releases id f s file e hd slab :
  consistent s →
  files s !! f = Some file →
  wlocked (f_owner_lock file) = false →
  lock s = RW_LOCK_UNLOCKED →
  map_search (_root s) {| pid := f_owner_pid file; buffer_uid := id |}
  = Some e →
  private_data file = Some hd → spinlock hd = false →
  slab_of s (entry_addr e) = Some slab → rwlock slab = RW_LOCK_UNLOCKED →
  ∃ s',
    free_buffer id f s = Ret () s' (release_hit_trace f (entry_addr e))
    ∧ consistent s'
    ∧ map_search (_root s') (key e) = None
    ∧ (∀ k, k ≠ key e → map_search (_root s') k = map_search (_root s) k)
    ∧ (∀ g, members s' g = filter (λ b, b ≠ entry_addr e) (members s g))
    ∧ (∀ b, heap s' !! b
            = if decide (b = entry_addr e ∨ b = user_buffer slab) then None
              else heap s !! b)
    ∧ _uid_counter s' = _uid_counter s ∧ lock s' = lock s.
Proof.
  intros C Hf Ho Hl Hs Hp Hsp Hsl Hrw.
  exists (release_slab s (entry_addr e)).
  pose proof Hs as [Hk He]%map_search_Some.
  assert (entry_addr e ∈ addrs s) as Ha
    by (unfold addrs; by apply list_elem_of_fmap_2).
  split_and!; try done.
  - by eapply free_buffer_hit_run.
  - by apply release_slab_consistent.
  - simpl. apply rb_erase_search; [apply C | done..].
  - intros k Hne. simpl.
    eapply rb_erase_search_ne; [apply C | apply C | done..].
  - intros g. apply members_release.
  - intros b. by apply heap_release.
Qed.

Lemma free_buffer_releases_one :
  ∃ s',
    free_buffer 0 1 one_buffer_unlocked = Ret () s' (release_hit_trace 1 1)
    ∧ consistent s'
    ∧ members s' 1 = []
    ∧ heap s' !! 1%positive = None ∧ heap s' !! 2%positive = None.
Proof.
  destruct (free_buffer_releases 0 1 one_buffer_unlocked
              {| f_owner_pid := H1_pid; f_owner_lock := RW_LOCK_UNLOCKED;
                 private_data :=
                   Some {| spinlock := false; ll_list := [1%positive] |} |}
              {| key := {| pid := H1_pid; buffer_uid := 0 |};
                 entry_addr := 1 |}
              {| spinlock := false; ll_list := [1%positive] |}
              {| user_buffer := 2; rwlock := RW_LOCK_UNLOCKED |}
              one_buffer_unlocked_consistent
              eq_refl eq_refl eq_refl eq_refl eq_refl eq_refl eq_refl eq_refl)
    as (s' & Hr & C & _ & _ & Hm & Hh & _).
  exists s'. split; [exact Hr|]. split; [exact C|].
  split; [exact (Hm 1%nat)|]. split; [exact (Hh 1%positive)|].
  exact (Hh 2%positive).
Defined.

(** Giving back a read lock on a slab nobody else holds restores the
    state. *)
Lemma read_lock_unlock_slab s a :
  slab_unlocked s a →
  read_unlock (slab_lock a)
    (rw_set (slab_lock a) {| wlocked := false; readers := 0 + 1 |} s)
  = Ret () s [ev_release (slab_lock a) shared].
Proof.
  unfold slab_unlocked. intros Hu. apply runs_Ret. unfold read_unlock.
  destruct s as [root c lk fs hp]; simpl in *.
  apply bind_Some in Hu as (blk & Hb & Hs).
  apply fmap_Some in Hs as ([u rw] & Hs & Hrw). simpl in *. subst rw.
  run. split_and!; try done. state_eq.
  apply map_eq. intros b. destruct (decide (b = a)) as [->|?].
  - rewrite !lookup_alter_eq, Hb. simpl. f_equal.
    destruct blk as [n sl]; simpl in *. subst sl. done.
  - by rewrite !lookup_alter_ne.
Qed.

(** X13: a reader keeps the slab alive. From a state in which nobody holds
    the slab's lock, once [get_buffer] has returned the slab (holding its
    read lock), [free_buffer] for the same id through a file of that owner
    does not return: it spins on the slab's lock, holding the registry lock
    for writing and the file's spinlock, with the index and the memory
    untouched. Once the reader has given the read lock back, the same
    [free_buffer] returns and the slab is released. *)
Theorem free_buffer_waits_for_reader id f s file hd a s1 t1 :
  files s !! f = Some file →
  wlocked (f_owner_lock file) = false →
  lock s = RW_LOCK_UNLOCKED →
  private_data file = Some hd → spinlock hd = false →
  slab_unlocked s a →
  get_buffer id (f_owner_pid file) s = Ret (Some a) s1 t1 →
  (∃ s2,
     free_buffer id f s1
     = Halt (spinning (slab_lock a)) s2
         [ev_acquire (owner_lock f) shared; ev_release (owner_lock f) shared;
          ev_acquire map_lock exclusive; ev_acquire (ll_spinlock f) exclusive]
     ∧ _root s2 = _root s ∧ heap s2 = heap s1
     ∧ lock s2 = {| wlocked := true; readers := 0 |}
     ∧ (files s2 !! f ≫= private_data)
       = Some {| spinlock := true; ll_list := ll_list hd |})
  ∧ read_unlock (slab_lock a) s1 = Ret () s [ev_release (slab_lock a) shared]
  ∧ free_buffer id f s = Ret () (release_slab s a) (release_hit_trace f a).
Proof.
  intros Hf Ho Hl Hp Hsp Hu Hr.
  pose proof (get_buffer_returns _ _ _ _ _ _ Hr) as [(e & Hs & <-) _].
  pose proof (get_buffer_returns_state _ _ _ _ _ _ Hr)
    as [_ (rw & Hrw & _ & ->)].
  unfold slab_unlocked in Hu. rewrite Hu in Hrw. injection Hrw as <-.
  split_and!.
  - assert (wp (free_buffer id f)
              (rw_set (slab_lock (entry_addr e))
                 {| wlocked := false; readers := readers RW_LOCK_UNLOCKED + 1 |}
                 s)
              (λ _ _ _, False)
              (λ h s2 tr,
                 h = spinning (slab_lock (entry_addr e))
                 ∧ tr = [ev_acquire (owner_lock f) shared;
                         ev_release (owner_lock f) shared;
                         ev_acquire map_lock exclusive;
                         ev_acquire (ll_spinlock f) exclusive]
                 ∧ _root s2 = _root s
                 ∧ heap s2
                   = heap (rw_set (slab_lock (entry_addr e))
                             {| wlocked := false;
                                readers := readers RW_LOCK_UNLOCKED + 1 |} s)
                 ∧ lock s2 = {| wlocked := true; readers := 0 |}
                 ∧ (files s2 !! f ≫= private_data)
                   = Some {| spinlock := true; ll_list := ll_list hd |}))
      as Hw.
    { unfold free_buffer. destruct s as [root c lk fs hp]; simpl in *; subst.
      apply bind_Some in Hu as (blk & Hb & Hbs).
      apply fmap_Some in Hbs as ([u rw] & Hbs & Hrw). simpl in *. subst rw.
      wp_run. done. }
    unfold wp in Hw.
    destruct (free_buffer id f _) as [|h s2 tr] eqn:E; [done|].
    destruct Hw as (-> & -> & ? & ? & ? & ?). by exists s2.
  - by apply read_lock_unlock_slab.
  - apply bind_Some in Hu as (blk & Hb & Hbs).
    apply fmap_Some in Hbs as (slab & Hbs & Hrw).
    eapply free_buffer_hit_run; try done.
    apply slab_of_Some. eauto.
Qed.

Lemma free_buffer_waits_for_reader_one :
  ∃ s1 t1 s2 tr,
    get_buffer 0 H1_pid one_buffer_unlocked = Ret (Some 1%positive) s1 t1
    ∧ free_buffer 0 1 s1 = Halt (spinning (slab_lock 1)) s2 tr
    ∧ is_Some (heap s2 !! 1%positive)
    ∧ read_unlock (slab_lock 1) s1
      = Ret () one_buffer_unlocked [ev_release (slab_lock 1) shared].
Proof.
  destruct (get_buffer 0 H1_pid one_buffer_unlocked) as [[a|] s1 t1|] eqn:E;
    try (vm_compute in E; discriminate).
  assert (a = 1%positive) as -> by (vm_compute in E; congruence).
  destruct (free_buffer_waits_for_reader 0 1 one_buffer_unlocked
              {| f_owner_pid := H1_pid; f_owner_lock := RW_LOCK_UNLOCKED;
                 private_data :=
                   Some {| spinlock := false; ll_list := [1%positive] |} |}
              {| spinlock := false; ll_list := [1%positive] |}
              1%positive s1 t1
              eq_refl eq_refl eq_refl eq_refl eq_refl eq_refl E)
    as ((s2 & Hw & _ & Hh & _) & Hu & _).
  eexists s1, t1, s2, _. split; [reflexivity|]. split; [exact Hw|].
  split; [|exact Hu]. rewrite Hh.
  vm_compute in E. injection E as <- <-. by eexists.
Defined.

(** X14: [free_buffer] finds the slab by (owner, id) and unlinks its node
    from whatever list it is on, holding only the spinlock of the file it
    was called with. When a file [g] of the same owner holds the slab on its
    list, [free_buffer] through another file [f] returns having taken the
    node off the list of [g], without ever taking the spinlock of [g],
    whose state it does not even look at. *)
Theorem free_buffer_foreign_list id f g s file gfile ghd e hd slab :
  f ≠ g →
  files s !! f = Some file → files s !! g = Some gfile →
  wlocked (f_owner_lock file) = false →
  lock s = RW_LOCK_UNLOCKED →
  map_search (_root s) {| pid := f_owner_pid file; buffer_uid := id |}
  = Some e →
  private_data file = Some hd → spinlock hd = false →
  slab_of s (entry_addr e) = Some slab → rwlock slab = RW_LOCK_UNLOCKED →
  private_data gfile = Some ghd → entry_addr e ∈ ll_list ghd →
  ∃ s',
    free_buffer id f s = Ret () s' (release_hit_trace f (entry_addr e))
    ∧ (files s' !! g ≫= private_data)
      = Some {| spinlock := spinlock ghd;
                ll_list := filter (λ b, b ≠ entry_addr e) (ll_list ghd) |}
    ∧ (entry_addr e ∉ members s' g)
    ∧ (∀ ev, ev ∈ release_hit_trace f (entry_addr e) →
             ev ≠ ev_acquire (ll_spinlock g) exclusive).
Proof.
  intros Hfg Hf Hg Ho Hl Hs Hp Hsp Hsl Hrw Hgp Hin.
  exists (release_slab s (entry_addr e)). split_and!.
  - by eapply free_buffer_hit_run.
  - simpl. rewrite lookup_fmap, Hg. simpl. by rewrite Hgp.
  - rewrite members_release. intros [? _]%list_elem_of_filter. done.
  - intros ev Hev ->. unfold release_hit_trace in Hev.
    rewrite !elem_of_cons in Hev.
    destruct Hev as [?|[?|[?|[?|[?|[?|[?|Hev]]]]]]]; try congruence.
    inversion Hev.
Qed.

Lemma free_buffer_foreign_list_shared_owner :
  members shared_owner 2 = [1%positive]
  ∧ ∃ s',
      free_buffer 0 1 shared_owner = Ret () s' (release_hit_trace 1 1)
      ∧ members s' 2 = []
      ∧ ev_acquire (ll_spinlock 2) exclusive ∉ release_hit_trace 1 1.
Proof.
  split; [reflexivity|].
  destruct (free_buffer_foreign_list 0 1 2 shared_owner
              (fresh_file H1_pid)
              {| f_owner_pid := H1_pid; f_owner_lock := RW_LOCK_UNLOCKED;
                 private_data :=
                   Some {| spinlock := false; ll_list := [1%positive] |} |}
              {| spinlock := false; ll_list := [1%positive] |}
              {| key := {| pid := H1_pid; buffer_uid := 0 |};
                 entry_addr := 1 |}
              {| spinlock := false; ll_list := [] |}
              {| user_buffer := 2; rwlock := RW_LOCK_UNLOCKED |})
    as (s' & Hr & Hm & _ & Hev);
    [done | reflexivity.. | by left |].
  exists s'. split; [exact Hr|]. split.
  - unfold members. by rewrite Hm.
  - intros Hin. by apply (Hev _ Hin).
Defined.

Lemma filter_ne_absent (a : addr) (l : list addr) :
  a ∉ l → filter (λ b, b ≠ a) l = l.
Proof.
  induction l as [|x l IH]; [done|]. rewrite not_elem_of_cons.
  intros [? ?]. rewrite filter_cons, decide_True by done. f_equal. auto.
Qed.

Lemma unlink_absent a (fl : file) :
  (∀ hd, private_data fl = Some hd → a ∉ ll_list hd) → unlink a fl = fl.
Proof.
  destruct fl as [p l [[sp ms]|]]; unfold unlink, set_private_data; simpl;
    [|done].
  intros H. rewrite filter_ne_absent; [done|]. by apply (H _ eq_refl).
Qed.

(** A block that is not allocated is neither in the index nor on a list. *)
Lemma consistent_fresh s a :
  consistent s → heap s !! a = None →
  (a ∉ addrs s) ∧ ∀ g, a ∉ members s g.
Proof.
  intros C Ha.
  assert (a ∉ addrs s) as Hn.
  { intros Hin. destruct (c_live _ C a Hin) as (sl & ? & Hs & _).
    apply slab_of_Some in Hs as (? & ? & _). congruence. }
  split; [done|]. intros g Hin. apply Hn. by eapply (c_lists _ C).
Qed.

(** Releasing the slab an allocation has just set up undoes the
    allocation, up to the counter. *)
Lemma alloc_done_release sz us ks f s a s1 tr :
  consistent s → alloc_done sz us ks f s a s1 tr →
  release_slab
    (rw_set (slab_lock a) {| wlocked := false; readers := 0 |} s1) a
  = set_uid_counter (next_uid s) s.
Proof.
  intros C (file & hd & u & root' & Hf & Hp & Hsp & Ho & Hl & Ha & Hu & Hau
            & Hi & -> & _).
  destruct (consistent_fresh s a C Ha) as [Hna Hnm].
  apply state_ext; simpl.
  - by apply (rb_erase_map_insert _
                {| key := {| pid := f_owner_pid file;
                             buffer_uid := _uid_counter s |};
                   entry_addr := a |}).
  - done.
  - done.
  - apply map_eq. intros g. rewrite lookup_fmap.
    destruct (decide (g = f)) as [->|Hne].
    + rewrite lookup_insert_eq, Hf. simpl. f_equal.
      unfold unlink, set_private_data. simpl.
      rewrite filter_cons, decide_False by naive_solver.
      rewrite filter_ne_absent.
      * apply file_eq; [done|]. rewrite Hp. f_equal.
        destruct hd; simpl in *. by subst.
      * specialize (Hnm f). unfold members in Hnm.
        rewrite Hf in Hnm. simpl in Hnm. by rewrite Hp in Hnm.
    + rewrite lookup_insert_ne by done.
      destruct (files s !! g) as [gf|] eqn:Hg; [|done]. simpl. f_equal.
      apply unlink_absent. intros ghd Hgp.
      specialize (Hnm g). unfold members in Hnm.
      rewrite Hg in Hnm. simpl in Hnm. by rewrite Hgp in Hnm.
  - unfold free_slab. rewrite lookup_alter_eq, lookup_insert_eq. simpl.
    apply map_eq. intros b.
    destruct (decide (b = a)) as [->|?]; [by rewrite lookup_delete_eq|].
    rewrite lookup_delete_ne by done.
    destruct (decide (b = u)) as [->|?]; [by rewrite lookup_delete_eq|].
    rewrite lookup_delete_ne, lookup_alter_ne, !lookup_insert_ne by done.
    done.
Qed.

(** X15: allocation and release are inverse to each other, up to the
    counter. From a well-formed state, once [alloc_buffer] has returned a
    slab and its caller has given back the write lock it came with,
    [free_buffer] with the id the allocation drew, through the same file,
    returns and leaves the state the allocation started from -- index,
    lists, locks and memory -- with only the counter advanced. *)
Theorem alloc_buffer_then_free_buffer sz ok us ks f s a s1 t1 :
  consistent s →
  alloc_buffer sz ok us ks f s = Ret (Some a) s1 t1 →
  ∃ s2,
    write_unlock (slab_lock a) s1
    = Ret () s2 [ev_release (slab_lock a) exclusive]
    ∧ free_buffer (_uid_counter s) f s2
      = Ret () (set_uid_counter (next_uid s) s) (release_hit_trace f a).
Proof.
  intros C Hr. apply alloc_buffer_returns in Hr.
  rewrite <- (alloc_done_release _ _ _ _ _ _ _ _ C Hr).
  destruct Hr as (file & hd & u & root' & Hf & Hp & Hsp & Ho & Hl & Ha & Hu
                  & Hau & Hi & -> & _).
  set (s1 := {| _root := root'; _uid_counter := next_uid s |}).
  assert (rw_get (slab_lock a) s1 = Some {| wlocked := true; readers := 0 |})
    as Hrw by (simpl; by rewrite lookup_insert_eq).
  eexists. split; [by apply write_unlock_run|].
  set (s2 := rw_set _ _ s1).
  set (e := {| key := {| pid := f_owner_pid file;
                         buffer_uid := _uid_counter s |};
               entry_addr := a |}).
  eapply (free_buffer_hit_run _ f s2 _ e).
  - simpl. by rewrite lookup_insert_eq.
  - done.
  - done.
  - apply (map_insert_search _ _ _ Hi).
  - done.
  - done.
  - unfold slab_of. simpl. rewrite lookup_alter_eq, lookup_insert_eq. done.
  - done.
Qed.

Lemma alloc_buffer_then_free_buffer_boot :
  consistent boot
  ∧ ∃ s1 t1 s2,
      alloc_buffer 96 always 4096 64 1 boot = Ret (Some 1%positive) s1 t1
      ∧ write_unlock (slab_lock 1) s1
        = Ret () s2 [ev_release (slab_lock 1) exclusive]
      ∧ free_buffer 0 1 s2
        = Ret () (set_uid_counter 1 boot) (release_hit_trace 1 1).
Proof.
  split; [exact boot_consistent|].
  destruct (alloc_buffer 96 always 4096 64 1 boot) as [[a|] s1 t1|] eqn:E;
    try (vm_compute in E; discriminate).
  assert (a = 1%positive) as -> by (vm_compute in E; congruence).
  destruct (alloc_buffer_then_free_buffer _ _ _ _ _ _ _ _ _ boot_consistent E)
    as (s2 & Hw & Hfree).
  exists s1, t1, s2. split; [reflexivity|]. split; [exact Hw | exact Hfree].
Defined.

(** ** Release of all the buffers of a file *)

Lemma free_slab_subseteq h a : free_slab h a ⊆ h.
Proof.
  unfold free_slab. destruct (h !! a ≫= b_slab); [|done].
  etrans; apply delete_subseteq.
Qed.

Lemma free_slabs_subseteq nodes h : free_slabs nodes h ⊆ h.
Proof.
  revert h. induction nodes as [|a nodes IH]; intros h; [done|].
  etrans; [apply IH | apply free_slab_subseteq].
Qed.

(** The loop frees nothing but the nodes and their user buffers. *)
Lemma free_slabs_kept nodes h b :
  b ∉ nodes →
  (∀ a blk slab, a ∈ nodes → h !! a = Some blk → b_slab blk = Some slab →
                 user_buffer slab ≠ b) →
  free_slabs nodes h !! b = h !! b.
Proof.
  revert h. induction nodes as [|a nodes IH]; intros h Hb Hu; [done|].
  apply not_elem_of_cons in Hb as [Hba Hb].
  unfold free_slabs. simpl. fold (free_slabs nodes (free_slab h a)).
  rewrite IH; [|done|].
  - unfold free_slab. destruct (h !! a) as [blk|] eqn:Ha; [|done]. simpl.
    destruct (b_slab blk) as [slab|] eqn:Hs; [|done].
    rewrite !lookup_delete_ne; [done| |done].
    apply (Hu a blk slab); [by left | done..].
  - intros a' blk slab Ha' Hl. apply (Hu a' blk); [by right|].
    eapply lookup_weaken; [exact Hl | apply free_slab_subseteq].
Qed.

Lemma slab_of_release_other s x a :
  consistent s → x ∈ addrs s → a ∈ addrs s → a ≠ x →
  slab_of (release_slab s x) a = slab_of s a.
Proof.
  intros C Hx Ha Hne.
  destruct (c_live _ C x Hx) as (slab & ublk & Hsl & _).
  unfold slab_of at 1. rewrite (heap_release s x slab) by done.
  rewrite decide_False; [done|]. intros [? | ->]; [done|].
  by eapply (consistent_user_ne s x).
Qed.

(** The loop frees the two blocks of every node. *)
Lemma release_each_freed nodes s a slab :
  consistent s → NoDup nodes → (∀ x, x ∈ nodes → x ∈ addrs s) →
  a ∈ nodes → slab_of s a = Some slab →
  heap (foldl release_slab s nodes) !! a = None
  ∧ heap (foldl release_slab s nodes) !! user_buffer slab = None.
Proof.
  revert s. induction nodes as [|x nodes IH]; intros s C Hn Hin Ha Hs.
  { inversion Ha. }
  apply NoDup_cons in Hn as [Hx Hn]. simpl.
  assert (consistent (release_slab s x)) as C'
    by (apply release_slab_consistent; [done | apply Hin; by left]).
  assert (∀ y, y ∈ nodes → y ∈ addrs (release_slab s x)) as Hin'.
  { intros y Hy. rewrite addrs_release. apply list_elem_of_filter.
    split; [by intros -> | apply Hin; by right]. }
  apply elem_of_cons in Ha as [->|Ha].
  - rewrite release_each. simpl.
    split; (eapply lookup_weaken_None; [|apply free_slabs_subseteq]).
    + fold (heap (release_slab s x)). rewrite (heap_release s x slab) by done.
      by rewrite decide_True by auto.
    + fold (heap (release_slab s x)). rewrite (heap_release s x slab) by done.
      by rewrite decide_True by auto.
  - apply IH; try done.
    rewrite slab_of_release_other; try done.
    + apply Hin. by left.
    + apply Hin. by right.
    + by intros ->.
Qed.

Lemma members_release_each nodes s g :
  members (foldl release_slab s nodes) g
  = filter (λ b, b ∉ nodes) (members s g).
Proof.
  rewrite release_each. unfold members. simpl. rewrite lookup_fmap.
  destruct (files s !! g) as [[p l [hd|]]|]; done.
Qed.

Lemma unlink_each_absent nodes (fl : file) :
  (∀ hd a, private_data fl = Some hd → a ∈ ll_list hd → a ∉ nodes) →
  unlink_each nodes fl = fl.
Proof.
  destruct fl as [p l [[sp ms]|]]; unfold unlink_each, set_private_data;
    simpl; [|done].
  intros H. do 3 f_equal.
  assert (∀ a, a ∈ ms → a ∉ nodes) as H'
    by (intros a Ha; by apply (H _ a eq_refl)).
  clear H. induction ms as [|m ms IH]; [done|].
  rewrite filter_cons, decide_True by (apply H'; by left).
  f_equal. apply IH. intros a Ha. apply H'. by right.
Qed.

(** X16: in a well-formed state, with the file open and its spinlock free,
    the registry lock free and nobody holding the lock of any slab on the
    file's list, [buffer_free_file] returns. Every slab of the list has its
    two blocks freed and the list is empty; the other files are as they
    were, and every entry whose [kernel_data] was not on the list is still
    found, with its slab and its user buffer as before; the counter and the
    registry lock are unchanged, and the state is still well formed. *)
Theorem buffer_free_file_releases f s file hd :
  consistent s →
  files s !! f = Some file → private_data file = Some hd →
  spinlock hd = false → lock s = RW_LOCK_UNLOCKED →
  (∀ a, a ∈ ll_list hd → slab_unlocked s a) →
  ∃ s',
    buffer_free_file f s = Ret () s' (release_all_trace f (ll_list hd))
    ∧ consistent s'
    ∧ members s' f = []
    ∧ (∀ g, g ≠ f → files s' !! g = files s !! g)
    ∧ (∀ a slab, a ∈ ll_list hd → slab_of s a = Some slab →
                 heap s' !! a = None ∧ heap s' !! user_buffer slab = None)
    ∧ (∀ e, e ∈ entries (_root s) → entry_addr e ∉ ll_list hd →
            map_search (_root s') (key e) = Some e
            ∧ slab_of s' (entry_addr e) = slab_of s (entry_addr e)
            ∧ ∀ slab, slab_of s (entry_addr e) = Some slab →
                      heap s' !! user_buffer slab
                      = heap s !! user_buffer slab)
    ∧ _uid_counter s' = _uid_counter s ∧ lock s' = lock s.
Proof.
  intros C Hf Hp Hsp Hl Hun.
  assert (members s f = ll_list hd) as Hm.
  { unfold members. rewrite Hf. simpl. by rewrite Hp. }
  assert (NoDup (ll_list hd)) as Hn by (rewrite <- Hm; apply C).
  assert (∀ a, a ∈ ll_list hd → a ∈ addrs s) as Hin.
  { intros a Ha. apply (c_lists _ C f). by rewrite Hm. }
  exists (foldl release_slab s (ll_list hd)). split_and!.
  - apply (buffer_free_file_run f s file hd); try done.
    intros a Ha. specialize (Hun a Ha). unfold slab_unlocked in Hun.
    simpl in Hun. apply bind_Some in Hun as (blk & Hb & Hs).
    apply fmap_Some in Hs as (slab & Hs & Hrw).
    assert (slab_of s a = Some slab) as Hsl by (apply slab_of_Some; eauto).
    exists slab. split_and!; try done.
    intros Hu. by apply (consistent_user_ne s a (user_buffer slab) slab C);
      auto.
  - by apply release_each_consistent.
  - rewrite members_release_each, Hm. apply filter_not_in_self.
  - intros g Hg. rewrite release_each. simpl. rewrite lookup_fmap.
    destruct (files s !! g) as [gf|] eqn:Hgf; [|done]. simpl. f_equal.
    apply unlink_each_absent. intros ghd a Hgp Ha Hnode. apply Hg.
    apply (c_disjoint _ C g f a).
    + unfold members. rewrite Hgf. simpl. by rewrite Hgp.
    + by rewrite Hm.
  - intros a slab Ha Hs. by apply release_each_freed.
  - intros e He Hne.
    assert (entry_addr e ∈ addrs s) as Hea
      by (unfold addrs; by apply list_elem_of_fmap_2).
    assert (∀ b, b ∉ ll_list hd →
              (∀ a slab, a ∈ ll_list hd → slab_of s a = Some slab →
                         user_buffer slab ≠ b) →
              heap (foldl release_slab s (ll_list hd)) !! b = heap s !! b)
      as Hkept.
    { intros b Hb Hu. rewrite release_each. simpl.
      apply free_slabs_kept; [done|]. intros a blk slab Ha Hblk Hs.
      apply (Hu a slab Ha). apply slab_of_Some. eauto. }
    assert (heap (foldl release_slab s (ll_list hd)) !! entry_addr e
            = heap s !! entry_addr e) as Hsame.
    { apply Hkept; [done|]. intros a slab Ha Hs.
      apply (consistent_user_ne s a (entry_addr e) slab C); auto. }
    split_and!.
    + rewrite release_each. simpl. apply map_search_ordered.
      * apply erase_each_ordered, C.
      * rewrite erase_each_entries. by apply list_elem_of_filter.
    + unfold slab_of. by rewrite Hsame.
    + intros slab Hs. apply Hkept.
      * intros Hu.
        by apply (consistent_user_ne s (entry_addr e) (user_buffer slab) slab
                    C); auto.
      * intros a slab' Ha Hs' Heq.
        assert (a = entry_addr e) as ->
          by (eapply (c_user _ C); eauto). done.
  - by rewrite release_each.
  - by rewrite release_each.
Qed.

Lemma two_files_consistent : consistent two_files.
Proof.
  apply empty_consistent; [done|]. intros f. unfold members. simpl.
  destruct (decide (f = 1%nat)) as [->|?]; [done|].
  rewrite lookup_insert_ne by done.
  destruct (decide (f = 2%nat)) as [->|?]; [done|].
  rewrite lookup_insert_ne by done.
  destruct (decide (f = 3%nat)) as [->|?]; [done|].
  by rewrite lookup_singleton_ne.
Qed.

(** [two_buffers] is what the two allocations leave. *)
Lemma two_buffers_reached :
  ∃ tr,
    (b0 ← alloc_buffer 96 always 4096 64 1; unlock_new_slab b0;;
     b1 ← alloc_buffer 96 always 4096 64 3; unlock_new_slab b1) two_files
    = Ret () two_buffers tr.
Proof. eexists. vm_compute. reflexivity. Qed.

Lemma two_buffers_consistent : consistent two_buffers.
Proof.
  destruct (alloc_buffer 96 always 4096 64 1 two_files)
    as [[a1|] s1 t1|] eqn:E1; try (vm_compute in E1; discriminate).
  pose proof (alloc_done_consistent _ _ _ _ _ _ _ _ two_files_consistent
                (alloc_buffer_returns _ _ _ _ _ _ _ _ _ E1)) as C1.
  apply (consistent_rw_set (slab_lock a1) RW_LOCK_UNLOCKED) in C1.
  destruct (alloc_buffer 96 always 4096 64 3
              (rw_set (slab_lock a1) RW_LOCK_UNLOCKED s1))
    as [[a2|] s2 t2|] eqn:E2.
  - pose proof (alloc_done_consistent _ _ _ _ _ _ _ _ C1
                  (alloc_buffer_returns _ _ _ _ _ _ _ _ _ E2)) as C2.
    apply (consistent_rw_set (slab_lock a2) RW_LOCK_UNLOCKED) in C2.
    vm_compute in E1. injection E1 as <- <- <-.
    vm_compute in E2. injection E2 as <- <- <-.
    exact C2.
  - vm_compute in E1. injection E1 as <- <- <-.
    vm_compute in E2. discriminate.
  - vm_compute in E1. injection E1 as <- <- <-.
    vm_compute in E2. discriminate.
Qed.

Lemma buffer_free_file_releases_two :
  ∃ s',
    buffer_free_file 1 two_buffers
    = Ret () s' (release_all_trace 1 [1%positive])
    ∧ consistent s'
    ∧ members s' 1 = []
    ∧ files s' !! 3%nat = files two_buffers !! 3%nat
    ∧ heap s' !! 1%positive = None ∧ heap s' !! 2%positive = None
    ∧ map_search (_root s') {| pid := 8; buffer_uid := 1 |}
      = Some {| key := {| pid := 8; buffer_uid := 1 |}; entry_addr := 3 |}
    ∧ heap s' !! 4%positive = heap two_buffers !! 4%positive.
Proof.
  destruct (buffer_free_file_releases 1 two_buffers
              {| f_owner_pid := H1_pid; f_owner_lock := RW_LOCK_UNLOCKED;
                 private_data :=
                   Some {| spinlock := false; ll_list := [1%positive] |} |}
              {| spinlock := false; ll_list := [1%positive] |}
              two_buffers_consistent eq_refl eq_refl eq_refl eq_refl)
    as (s' & Hr & C & Hm & Hg & Hfreed & Hkept & _).
  { intros a Ha. apply list_elem_of_singleton in Ha as ->. reflexivity. }
  exists s'. split; [exact Hr|]. split; [exact C|]. split; [exact Hm|].
  split; [by apply Hg|].
  destruct (Hfreed 1%positive
              {| user_buffer := 2; rwlock := RW_LOCK_UNLOCKED |})
    as [H1 H2]; [by left | reflexivity |].
  split; [exact H1|]. split; [exact H2|].
  destruct (Hkept {| key := {| pid := 8; buffer_uid := 1 |};
                     entry_addr := 3 |}) as (Hs & _ & Hu).
  - vm_compute. set_solver.
  - simpl. set_solver.
  - split; [exact Hs|].
    exact (Hu {| user_buffer := 4; rwlock := RW_LOCK_UNLOCKED |} eq_refl).
Defined.

(** ** Opening a file *)

Lemma buffer_init_file_run sz ok f s file :
  files s !! f = Some file →
  buffer_init_file sz ok f s
  = if ok (heap s) sz then
      Ret true
        (set_files
           (<[f := set_private_data
                     (Some {| spinlock := false; ll_list := [] |}) file]>
              (files s))
           (set_heap
              (<[fresh (dom (heap s)) := {| b_size := sz; b_slab := None |}]>
                 (heap s)) s))
        []
    else Ret false s [].
Proof.
  intros Hf. destruct (ok (heap s) sz) eqn:Hk; apply wp_Ret;
    unfold buffer_init_file; apply wp_bind, wp_kmalloc; rewrite Hk.
  - destruct s as [root c lk fs hp]; simpl in *. wp_run.
    split_and!; try done. state_eq. apply map_eq. intros g.
    destruct (decide (g = f)) as [->|?].
    + by rewrite lookup_alter_eq, lookup_insert_eq, Hf.
    + by rewrite lookup_alter_ne, lookup_insert_ne.
  - by apply wp_ret.
Qed.

(** Blocks that are not slabs may come without harm. *)
Lemma consistent_grow s s' :
  _root s' = _root s → (∀ f, members s' f = members s f) →
  (∀ b blk, heap s !! b = Some blk → heap s' !! b = Some blk) →
  consistent s → consistent s'.
Proof.
  intros Hr Hm Hh C.
  assert (addrs s' = addrs s) as Ha by (unfold addrs; by rewrite Hr).
  assert (∀ a, a ∈ addrs s → slab_of s' a = slab_of s a) as Hsl.
  { intros a Hin. destruct (c_live _ C a Hin) as (sl & ub & Hs & _).
    rewrite Hs. apply slab_of_Some in Hs as (blk & Hb & Hs).
    apply slab_of_Some. eauto. }
  split.
  - rewrite Hr. apply C.
  - rewrite Ha. apply C.
  - intros a. rewrite Ha. intros Hin.
    destruct (c_live _ C a Hin) as (sl & ub & Hs & Hb & Hn).
    exists sl, ub. rewrite Hsl by done. eauto.
  - intros a1 a2 sl1 sl2. rewrite !Ha. intros H1 H2.
    rewrite !Hsl by done. by apply (c_user _ C).
  - intros f a. rewrite Hm, Ha. apply C.
  - intros a. rewrite Ha. intros Hin. destruct (c_owned _ C a Hin) as [f ?].
    exists f. by rewrite Hm.
  - intros f. rewrite Hm. apply C.
  - intros f1 f2 a. rewrite !Hm. apply C.
Qed.

(** X17: [buffer_init_file] returns [true] exactly when [kmalloc] finds
    memory for the list head. It takes no lock and never touches the index,
    the counter, the registry lock or another file. When it returns [false]
    nothing has changed. When it returns [true], one block that was free has
    been allocated and the file's [private_data] is a list head with an
    empty list and a free spinlock -- whatever [private_data] was before;
    a well-formed state stays well formed when the file held no buffer. *)
Theorem buffer_init_file_opens sz ok f s file :
  files s !! f = Some file →
  ∃ s',
    buffer_init_file sz ok f s = Ret (ok (heap s) sz) s' []
    ∧ _root s' = _root s ∧ _uid_counter s' = _uid_counter s
    ∧ lock s' = lock s
    ∧ (∀ g, g ≠ f → files s' !! g = files s !! g)
    ∧ (ok (heap s) sz = false → s' = s)
    ∧ (ok (heap s) sz = true →
       files s' !! f
       = Some {| f_owner_pid := f_owner_pid file;
                 f_owner_lock := f_owner_lock file;
                 private_data :=
                   Some {| spinlock := false; ll_list := [] |} |}
       ∧ (∃ a, heap s !! a = None
               ∧ heap s'
                 = <[a := {| b_size := sz; b_slab := None |}]> (heap s))
       ∧ (consistent s → members s f = [] → consistent s')).
Proof.
  intros Hf. rewrite (buffer_init_file_run sz ok f s file Hf).
  destruct (ok (heap s) sz); eexists; (split; [reflexivity|]).
  - simpl. split_and!; try done.
    + intros g ?. by rewrite lookup_insert_ne.
    + intros _. split_and!.
      * by rewrite lookup_insert_eq.
      * eexists. split; [|done]. apply not_elem_of_dom, is_fresh.
      * intros C Hm. revert C. apply consistent_grow; try done.
        -- intros g. unfold members. simpl.
           destruct (decide (g = f)) as [->|?].
           ++ rewrite lookup_insert_eq. fold (members s f). by rewrite Hm.
           ++ by rewrite lookup_insert_ne.
        -- simpl. intros b blk Hb. rewrite lookup_insert_ne; [done|].
           intros <-.
           assert (heap s !! fresh (dom (heap s)) = None)
             by apply not_elem_of_dom, is_fresh.
           congruence.
  - split_and!; try done.
Qed.

Lemma buffer_init_file_opens_unopened :
  ∃ s',
    buffer_init_file 24 always 1 unopened = Ret true s' []
    ∧ files s' !! 1%nat = Some (fresh_file H1_pid)
    ∧ _root s' = rb_leaf
    ∧ buffer_init_file 24 never 1 unopened = Ret false unopened [].
Proof.
  destruct (buffer_init_file_opens 24 always 1 unopened
              {| f_owner_pid := H1_pid; f_owner_lock := RW_LOCK_UNLOCKED;
                 private_data := None |} eq_refl)
    as (s' & Hr & Ht & _ & _ & _ & _ & Hok).
  destruct (Hok eq_refl) as (Hf & _).
  exists s'. split; [exact Hr|]. split; [exact Hf|]. split; [exact Ht|].
  destruct (buffer_init_file_opens 24 never 1 unopened
              {| f_owner_pid := H1_pid; f_owner_lock := RW_LOCK_UNLOCKED;
                 private_data := None |} eq_refl)
    as (s'' & Hr' & _ & _ & _ & _ & Hno & _).
  rewrite <- (Hno eq_refl) at 2. exact Hr'.
Defined.

(** X18: [buffer_init_file] stores the new list head over whatever
    [private_data] held. Called on a file that holds buffers (in a
    well-formed state, with memory for the head), it returns [true] and
    orphans them: each one stays in the index with its slab, but is on no
    list any more, so the state is no longer well formed and
    [buffer_free_file] on the file returns without releasing any of
    them. *)
Theorem buffer_init_file_orphans sz ok f s file a :
  consistent s → files s !! f = Some file → a ∈ members s f →
  ok (heap s) sz = true → lock s = RW_LOCK_UNLOCKED →
  ∃ s1,
    buffer_init_file sz ok f s = Ret true s1 []
    ∧ a ∈ addrs s1 ∧ (∀ g, a ∉ members s1 g)
    ∧ slab_of s1 a = slab_of s a
    ∧ ¬ consistent s1
    ∧ buffer_free_file f s1 = Ret () s1 (release_all_trace f []).
Proof.
  intros C Hf Ha Hk Hl.
  rewrite (buffer_init_file_run sz ok f s file Hf), Hk.
  eexists. split; [reflexivity|].
  set (s1 := set_files _ _).
  assert (a ∈ addrs s1) as Hin by (by apply (c_lists _ C f)).
  assert (∀ g, a ∉ members s1 g) as Hout.
  { intros g. unfold members. simpl.
    destruct (decide (g = f)) as [->|Hne].
    - rewrite lookup_insert_eq. simpl. by intros ?%elem_of_nil.
    - rewrite lookup_insert_ne by done. fold (members s g).
      intros Hg. by apply Hne, (c_disjoint _ C g f a). }
  split_and!; try done.
  - destruct (c_live _ C a Hin) as (sl & ub & Hs & _).
    unfold slab_of. simpl. rewrite lookup_insert_ne; [done|].
    intros <-. apply slab_of_Some in Hs as (blk & Hb & _).
    assert (heap s !! fresh (dom (heap s)) = None)
      by apply not_elem_of_dom, is_fresh.
    congruence.
  - intros C1. destruct (c_owned _ C1 a Hin) as [g Hg]. by apply (Hout g).
  - apply (buffer_free_file_empty_run f s1
             (set_private_data (Some {| spinlock := false; ll_list := [] |})
                file)
             {| spinlock := false; ll_list := [] |}); simpl; try done.
    by rewrite lookup_insert_eq.
Qed.

Lemma buffer_init_file_orphans_two :
  ∃ s1,
    buffer_init_file 24 always 1 two_buffers = Ret true s1 []
    ∧ map_search (_root s1) {| pid := H1_pid; buffer_uid := 0 |}
      = Some {| key := {| pid := H1_pid; buffer_uid := 0 |};
                entry_addr := 1 |}
    ∧ members s1 1 = []
    ∧ buffer_free_file 1 s1 = Ret () s1 (release_all_trace 1 []).
Proof.
  destruct (buffer_init_file_orphans 24 always 1 two_buffers
              {| f_owner_pid := H1_pid; f_owner_lock := RW_LOCK_UNLOCKED;
                 private_data :=
                   Some {| spinlock := false; ll_list := [1%positive] |} |}
              1%positive two_buffers_consistent eq_refl)
    as (s1 & Hr & _ & _ & _ & _ & Hfree);
    [by left | reflexivity | reflexivity |].
  exists s1. split; [exact Hr|].
  vm_compute in Hr. injection Hr as <-.
  split; [reflexivity|]. split; [reflexivity | exact Hfree].
Defined.



(** ** The locks held at return *)

Lemma drop_one_app_notin x (l1 l2 : list (lock_id * access)) :
  x ∉ l1 → drop_one x (l1 ++ l2) = l1 ++ drop_one x l2.
Proof.
  induction l1 as [|y l1 IH]; [done|]. rewrite not_elem_of_cons.
  intros [Hne Hn]. simpl. rewrite decide_False by done. by rewrite IH.
Qed.

Lemma held_after_slab_locks nodes held rest :
  held_after held (slab_lock_trace nodes ++ rest)
  = held_after
      (reverse ((λ a, (slab_lock a, exclusive)) <$> nodes) ++ held) rest.
Proof.
  revert held. induction nodes as [|a nodes IH]; intros held; [done|].
  simpl. rewrite IH, reverse_cons, <- app_assoc. done.
Qed.

Lemma held_after_release_all f nodes :
  held_after [] (release_all_trace f nodes)
  = reverse ((λ a, (slab_lock a, exclusive)) <$> nodes).
Proof.
  unfold release_all_trace. simpl. rewrite held_after_slab_locks. simpl.
  assert (∀ x, (∀ a, x ≠ (slab_lock a, exclusive)) →
               x ∉ reverse ((λ a, (slab_lock a, exclusive)) <$> nodes))
    as Hn.
  { intros x Hx. rewrite elem_of_reverse, list_elem_of_fmap.
    intros (a & -> & _). by apply (Hx a). }
  rewrite drop_one_app_notin by (by apply Hn). simpl.
  rewrite ?decide_True by done.
  rewrite drop_one_app_notin by (by apply Hn). simpl.
  rewrite ?decide_True by done. by rewrite app_nil_r.
Qed.

(** X20: the locks an operation still holds when it returns. [get_buffer]
    returns holding the read lock of the slab it hands out, or nothing on a
    miss; [alloc_buffer], when it returns a slab, holds that slab's write
    lock; when it returns [false] it holds nothing if memory was short, and
    on the duplicate path (lines 197-205) it holds the file's spinlock,
    which it never gives back, and the write lock of the slab it has freed;
    [free_buffer] holds nothing on a miss, and on a hit the write lock of
    the slab, whose block it has freed; [buffer_free_file] holds the write
    locks of the slabs that were on the list. So none of them returns
    holding the registry lock or [f_owner.lock], and a file's spinlock is
    held at return by the duplicate path of [alloc_buffer] only. *)
Theorem locks_held_on_return :
  (∀ id p s r s' tr,
     get_buffer id p s = Ret r s' tr →
     held_after [] tr
     = match r with Some a => [(slab_lock a, shared)] | None => [] end)
  ∧ (∀ sz ok us ks f s a s' tr,
       alloc_buffer sz ok us ks f s = Ret (Some a) s' tr →
       held_after [] tr = [(slab_lock a, exclusive)])
  ∧ (∀ sz ok us ks f s s' tr,
       alloc_buffer sz ok us ks f s = Ret None s' tr →
       (s' = s ∧ held_after [] tr = [])
       ∨ ∃ a, held_after [] tr
              = [(ll_spinlock f, exclusive); (slab_lock a, exclusive)]
              ∧ heap s' !! a = None
              ∧ (files s' !! f ≫= private_data)
                = (λ hd, {| spinlock := true; ll_list := ll_list hd |})
                    <$> (files s !! f ≫= private_data))
  ∧ (∀ id f s s' tr,
       free_buffer id f s = Ret () s' tr →
       held_after [] tr = []
       ∨ ∃ a, held_after [] tr = [(slab_lock a, exclusive)]
              ∧ heap s' !! a = None)
  ∧ (∀ f s s' tr,
       buffer_free_file f s = Ret () s' tr →
       held_after [] tr
       = reverse ((λ a, (slab_lock a, exclusive)) <$> members s f)).
Proof.
  split_and!.
  - intros id p s r s' tr Hr. apply get_buffer_returns in Hr.
    destruct r as [a|]; destruct Hr as [_ ->]; [|done].
    unfold lookup_hit_trace. simpl. by decide_locks.
  - intros sz ok us ks f s a s' tr Hr. apply alloc_buffer_returns in Hr.
    destruct Hr as (file & hd & u & root' & _ & _ & _ & _ & _ & _ & _ & _
                    & _ & _ & ->).
    unfold alloc_trace. simpl. by decide_locks.
  - intros sz ok us ks f s s' tr Hr. apply alloc_buffer_returns in Hr.
    destruct Hr as [[-> ->]|(file & hd & a & Hf & Hp & _ & _ & _ & Ha & _
                             & -> & ->)]; [by left|].
    right. exists a. split_and!.
    + unfold alloc_duplicate_trace. simpl. by decide_locks.
    + done.
    + simpl. rewrite lookup_insert_eq, Hf. simpl. by rewrite Hp.
  - intros id f s s' tr Hr. apply free_buffer_returns in Hr.
    destruct Hr as (file & _ & _ & _ & Hr). destruct (map_search _ _) as [e|].
    + destruct Hr as (hd & blk & slab & _ & _ & _ & _ & _ & -> & ->).
      right. exists (entry_addr e). split.
      * unfold release_hit_trace. simpl. by decide_locks.
      * simpl. by rewrite lookup_delete_eq.
    + destruct Hr as [_ ->]. left.
      unfold release_miss_trace. simpl. by decide_locks.
  - intros f s s' tr Hr. apply buffer_free_file_returns in Hr.
    destruct Hr as (file & Hf & Hr). unfold members. rewrite Hf. simpl.
    destruct (private_data file) as [hd|].
    + destruct Hr as (_ & _ & _ & ->). apply held_after_release_all.
    + by destruct Hr as [_ ->].
Qed.

Lemma locks_held_on_return_two :
  (∃ s' tr,
     buffer_free_file 1 two_buffers = Ret () s' tr
     ∧ held_after [] tr = [(slab_lock 1, exclusive)])
  ∧ ∃ s' tr,
      alloc_buffer 96 always 4096 64 1 id_in_use = Ret None s' tr
      ∧ held_after [] tr
        = [(ll_spinlock 1, exclusive); (slab_lock 3, exclusive)].
Proof.
  destruct locks_held_on_return as (_ & _ & Hdup & _ & Hfile). split.
  - destruct (buffer_free_file 1 two_buffers) as [[] s' tr|] eqn:E;
      [|vm_compute in E; discriminate].
    exists s', tr. split; [reflexivity|]. exact (Hfile _ _ _ _ E).
  - destruct (alloc_buffer 96 always 4096 64 1 id_in_use)
      as [[a|] s' tr|] eqn:E; try (vm_compute in E; discriminate).
    exists s', tr. split; [reflexivity|].
    destruct (Hdup _ _ _ _ _ _ _ _ E) as [[_ Hnone]|(a & Hheld & _)].
    + vm_compute in E. injection E as _ <-. discriminate Hnone.
    + rewrite Hheld. vm_compute in E. injection E as _ <-.
      vm_compute in Hheld. by injection Hheld as <-.
Defined.

(** ** Calling twice *)

(** X21: releasing twice is harmless. With an ordered index, once
    [free_buffer id file] has returned, a second [free_buffer id file]
    returns too: it does not find the key, logs the message, and leaves the
    state as it is -- whether the first call released the buffer or did not
    find it either. *)
Theorem free_buffer_twice id f s s1 t1 :
  ordered (_root s) = true →
  free_buffer id f s = Ret () s1 t1 →
  free_buffer id f s1 = Ret () s1 (release_miss_trace f id)
  ∧ ev_err id ∈ release_miss_trace f id.
Proof.
  intros Hord Hr. split; [|set_solver]. apply free_buffer_returns in Hr.
  destruct Hr as (file & Hf & Ho & Hl & Hr).
  destruct (map_search _ _) as [e|] eqn:Hs.
  - destruct Hr as (hd & blk & slab & _ & _ & _ & _ & _ & -> & _).
    apply map_search_Some in Hs as [Hk He].
    apply (free_buffer_miss_run id f _ (unlink (entry_addr e) file)); simpl.
    + by rewrite lookup_fmap, Hf.
    + done.
    + done.
    + rewrite <- Hk. by apply rb_erase_search.
  - destruct Hr as [-> _]. by apply (free_buffer_miss_run id f s file).
Qed.

Lemma free_buffer_twice_one :
  ∃ s1 t1,
    free_buffer 0 1 one_buffer_unlocked = Ret () s1 t1
    ∧ free_buffer 0 1 s1 = Ret () s1 (release_miss_trace 1 0).
Proof.
  destruct (free_buffer 0 1 one_buffer_unlocked) as [[] s1 t1|] eqn:E;
    [|vm_compute in E; discriminate].
  exists s1, t1. split; [reflexivity|].
  exact (proj1 (free_buffer_twice 0 1 one_buffer_unlocked s1 t1 eq_refl E)).
Defined.

(** X22: readers share a slab. Once [get_buffer] has returned a slab, a
    second [get_buffer] with the same key returns the same slab without
    waiting, and the slab's lock then counts two readers more than at the
    start; a writer would have to wait for both. *)
Theorem get_buffer_readers_share id p s a s1 t1 :
  get_buffer id p s = Ret (Some a) s1 t1 →
  ∃ s2 rw,
    get_buffer id p s1 = Ret (Some a) s2 (lookup_hit_trace a)
    ∧ rw_get (slab_lock a) s = Some rw
    ∧ rw_get (slab_lock a) s2
      = Some {| wlocked := false; readers := readers rw + 2 |}
    ∧ (0 ≤ readers rw →
       write_lock (slab_lock a) s2 = Halt (spinning (slab_lock a)) s2 []).
Proof.
  intros Hr.
  pose proof (get_buffer_returns _ _ _ _ _ _ Hr) as [(e & Hs & <-) _].
  pose proof (get_buffer_returns_state _ _ _ _ _ _ Hr)
    as [Hl (rw & Hrw & Hw & ->)].
  set (a := entry_addr e) in *.
  set (s1 := rw_set (slab_lock a) _ s).
  assert (rw_get (slab_lock a) s1
          = Some {| wlocked := false; readers := readers rw + 1 |}) as Hrw1.
  { simpl in *. rewrite lookup_alter_eq.
    destruct (heap s !! a) as [[n [sl|]]|]; simplify_eq/=; done. }
  pose proof (get_buffer_run id p s1 Hl) as Hg.
  replace (_root s1) with (_root s) in Hg by done. rewrite Hs in Hg.
  specialize (Hg _ Hrw1 eq_refl). fold a in Hg. simpl readers in Hg.
  set (s2 := rw_set (slab_lock a) _ s1) in Hg.
  assert (rw_get (slab_lock a) s2
          = Some {| wlocked := false; readers := readers rw + 2 |}) as Hrw2.
  { simpl in *. rewrite !lookup_alter_eq.
    destruct (heap s !! a) as [[n [sl|]]|]; simplify_eq/=.
    do 2 f_equal. lia. }
  exists s2, rw. split_and!; try done.
  intros Hpos. apply wp_Halt. unfold write_lock.
  apply wp_bind, wp_get_state, wp_bind, wp_deref. rewrite Hrw2. simpl.
  destruct (readers rw + 2 =? 0) eqn:Hz; [lia|]. simpl.
  by apply wp_stop.
Qed.

Lemma get_buffer_readers_share_one :
  ∃ s1 t1 s2,
    get_buffer 0 H1_pid one_buffer_unlocked = Ret (Some 1%positive) s1 t1
    ∧ get_buffer 0 H1_pid s1 = Ret (Some 1%positive) s2 (lookup_hit_trace 1)
    ∧ rw_get (slab_lock 1) s2 = Some {| wlocked := false; readers := 2 |}.
Proof.
  destruct (get_buffer 0 H1_pid one_buffer_unlocked) as [[a|] s1 t1|] eqn:E;
    try (vm_compute in E; discriminate).
  assert (a = 1%positive) as -> by (vm_compute in E; congruence).
  destruct (get_buffer_readers_share _ _ _ _ _ _ E)
    as (s2 & rw & Hg & Hrw & Hrw2 & _).
  vm_compute in Hrw. injection Hrw as <-.
  exists s1, t1, s2. split; [reflexivity|]. split; [exact Hg | exact Hrw2].
Defined.

(** ** Teardown that has to wait *)

Lemma wp_mono {A} (m : M A) s (QR QR' : A → state → list event → Prop)
    (QH QH' : halt → state → list event → Prop) :
  wp m s QR QH →
  (∀ a s' tr, QR a s' tr → QR' a s' tr) →
  (∀ h s' tr, QH h s' tr → QH' h s' tr) →
  wp m s QR' QH'.
Proof. unfold wp. destruct (m s); eauto. Qed.

(** The loop of [buffer_free_file] stops at the first slab that is in use,
    having released the slabs before it. *)
Lemma free_each_blocked pre a post s rw :
  NoDup (pre ++ a :: post) →
  (∀ x, x ∈ pre →
        ∃ slab, slab_of s x = Some slab ∧ rwlock slab = RW_LOCK_UNLOCKED
                ∧ user_buffer slab ∉ pre ++ a :: post) →
  rw_get (slab_lock a) s = Some rw →
  wlocked rw || negb (readers rw =? 0) = true →
  free_each (pre ++ a :: post) s
  = Halt (spinning (slab_lock a)) (foldl release_slab s pre)
         (slab_lock_trace pre).
Proof.
  revert s. induction pre as [|x pre IH]; intros s Hn Hall Hrw Hb.
  - apply wp_Halt. cbn [app free_each]. apply wp_bind.
    unfold write_lock. apply wp_bind, wp_get_state, wp_bind, wp_deref.
    rewrite Hrw, Hb. by apply wp_stop.
  - apply wp_Halt. cbn [app free_each].
    simpl in Hn. apply NoDup_cons in Hn as [Hx Hn].
    destruct (Hall x) as ([u rwx] & Hsl & Hrwx & Hu); [by left|].
    apply slab_of_Some in Hsl as (blk & Hblk & Hbs). simpl in *. subst rwx.
    assert (∀ b, b ∈ pre ++ a :: post →
              free_slab (heap s) x !! b = heap s !! b) as Hframe.
    { intros b Hin. unfold free_slab. rewrite Hblk. simpl.
      rewrite Hbs. rewrite !lookup_delete_ne; [done|..].
      - intros <-. apply Hu. by right.
      - by intros <-. }
    assert (free_each (pre ++ a :: post) (release_slab s x)
            = Halt (spinning (slab_lock a))
                (foldl release_slab (release_slab s x) pre)
                (slab_lock_trace pre)) as IH'.
    { apply IH; [done | | | done].
      - intros y Hy. destruct (Hall y) as (slab & Hs & ? & Hnu); [by right|].
        exists slab. split_and!; [|done|].
        + unfold slab_of. simpl. rewrite Hframe; [done|].
          apply elem_of_app. by left.
        + intros Hin. apply Hnu. by right.
      - simpl. rewrite Hframe; [done|]. apply elem_of_app. right. by left. }
    destruct s as [root c lk fs hp]; simpl in *. wp_run.
    match goal with
    | |- wp _ ?s1 _ _ =>
        replace s1
          with (release_slab
                  {| _root := root; _uid_counter := c; lock := lk;
                     files := fs; heap := hp |} x)
    end.
    + unfold wp. rewrite IH'. done.
    + unfold release_slab, free_slab. simpl. rewrite Hblk. simpl.
      rewrite Hbs. state_eq. map_lookups.
Qed.

Lemma buffer_free_file_blocked f s file hd pre a post rw :
  files s !! f = Some file → private_data file = Some hd →
  spinlock hd = false → lock s = RW_LOCK_UNLOCKED →
  ll_list hd = pre ++ a :: post → NoDup (ll_list hd) →
  (∀ x, x ∈ pre →
        ∃ slab, slab_of s x = Some slab ∧ rwlock slab = RW_LOCK_UNLOCKED
                ∧ user_buffer slab ∉ ll_list hd) →
  rw_get (slab_lock a) s = Some rw →
  wlocked rw || negb (readers rw =? 0) = true →
  buffer_free_file f s
  = Halt (spinning (slab_lock a))
      (foldl release_slab
         (set_lock {| wlocked := true; readers := 0 |}
            (set_files
               (<[f := set_private_data
                         (Some {| spinlock := true; ll_list := ll_list hd |})
                         file]> (files s)) s))
         pre)
      ([ev_acquire (ll_spinlock f) exclusive; ev_acquire map_lock exclusive]
       ++ slab_lock_trace pre).
Proof.
  intros Hf Hp Hsp Hl Hlist Hn Hall Hrw Hb. apply wp_Halt.
  unfold buffer_free_file.
  destruct s as [root c lk fs hp]; simpl in *; subst. wp_run.
  match goal with
  | Hb : wlocked ?r || _ = true |- wp _ ?s1 _ _ =>
      pose proof (free_each_blocked pre a post s1 r) as Hfe
  end.
  replace (free_each (ll_list hd)) with (free_each (pre ++ a :: post))
    by (by rewrite Hlist).
  unfold wp. rewrite Hfe.
  - split_and!; try done. f_equal. state_eq.
    apply map_eq. intros g. destruct (decide (g = f)) as [->|?].
    + by rewrite lookup_alter_eq, lookup_insert_eq, Hf.
    + by rewrite lookup_alter_ne, lookup_insert_ne.
  - by rewrite <- Hlist.
  - intros y Hy. destruct (Hall y Hy) as (slab & ? & ? & ?).
    exists slab. by rewrite <- Hlist.
  - simpl. by simplify_map_eq.
  - done.
Qed.

Lemma filter_notin_app (pre rest : list addr) :
  NoDup (pre ++ rest) → filter (λ b, b ∉ pre) (pre ++ rest) = rest.
Proof.
  intros [_ [Hd _]]%NoDup_app.
  rewrite filter_app, filter_not_in_self. simpl.
  induction rest as [|x rest IH]; [done|].
  rewrite filter_cons, decide_True.
  - f_equal. apply IH. intros y Hy ?. apply (Hd y Hy). by right.
  - intros Hx. apply (Hd x Hx). by left.
Qed.

(** X23: [buffer_free_file] does not skip a slab that is in use. In a
    well-formed state, with the file open, its spinlock and the registry
    lock free, if the slabs before [a] on the file's list are held by
    nobody and the lock of [a] is held (by a reader of [get_buffer], or by
    the writer [alloc_buffer] returned to), then [buffer_free_file] does not
    return: it spins on the lock of [a], holding the file's spinlock and the
    registry lock for writing, after it has released the slabs before [a];
    [a] and the slabs after it are still on the list, with their slabs as
    they were. *)
Theorem buffer_free_file_waits f s file hd pre a post rw :
  consistent s →
  files s !! f = Some file → private_data file = Some hd →
  spinlock hd = false → lock s = RW_LOCK_UNLOCKED →
  ll_list hd = pre ++ a :: post →
  (∀ x, x ∈ pre → slab_unlocked s x) →
  rw_get (slab_lock a) s = Some rw →
  wlocked rw = true ∨ readers rw ≠ 0 →
  ∃ s',
    buffer_free_file f s
    = Halt (spinning (slab_lock a)) s'
        ([ev_acquire (ll_spinlock f) exclusive;
          ev_acquire map_lock exclusive] ++ slab_lock_trace pre)
    ∧ lock s' = {| wlocked := true; readers := 0 |}
    ∧ (files s' !! f ≫= private_data)
      = Some {| spinlock := true; ll_list := a :: post |}
    ∧ _root s' = erase_each pre (_root s)
    ∧ (∀ x slab, x ∈ pre → slab_of s x = Some slab →
                 heap s' !! x = None ∧ heap s' !! user_buffer slab = None)
    ∧ (∀ x, x ∈ a :: post → slab_of s' x = slab_of s x).
Proof.
  intros C Hf Hp Hsp Hl Hlist Hun Hrw Hheld.
  assert (members s f = ll_list hd) as Hm.
  { unfold members. rewrite Hf. simpl. by rewrite Hp. }
  assert (NoDup (ll_list hd)) as Hn by (rewrite <- Hm; apply C).
  assert (∀ x, x ∈ ll_list hd → x ∈ addrs s) as Hin.
  { intros x Hx. apply (c_lists _ C f). by rewrite Hm. }
  assert (∀ x, x ∈ pre → x ∈ ll_list hd) as Hpre.
  { intros x Hx. rewrite Hlist. apply elem_of_app. by left. }
  assert (∀ x, x ∈ a :: post → x ∈ ll_list hd) as Hpost.
  { intros x Hx. rewrite Hlist. apply elem_of_app. by right. }
  set (s0 := set_lock {| wlocked := true; readers := 0 |}
               (set_files
                  (<[f := set_private_data
                            (Some {| spinlock := true;
                                     ll_list := ll_list hd |}) file]>
                     (files s)) s)).
  assert (consistent s0) as C0.
  { revert C. apply consistent_same_data; try done.
    intros g. unfold members. simpl.
    destruct (decide (g = f)) as [->|?].
    - rewrite lookup_insert_eq, Hf. simpl. by rewrite Hp.
    - by rewrite lookup_insert_ne. }
  exists (foldl release_slab s0 pre). split_and!.
  - apply (buffer_free_file_blocked f s file hd pre a post rw); try done.
    + intros x Hx. specialize (Hun x Hx). unfold slab_unlocked in Hun.
      simpl in Hun. apply bind_Some in Hun as (blk & Hb & Hs).
      apply fmap_Some in Hs as (slab & Hs & Hrwx).
      assert (slab_of s x = Some slab) as Hsl by (apply slab_of_Some; eauto).
      exists slab. split_and!; try done. intros Hu.
      by apply (consistent_user_ne s x (user_buffer slab) slab C); auto.
    + destruct Hheld as [-> | Hr]; [done|].
      apply orb_true_iff. right. apply negb_true_iff, Z.eqb_neq. done.
  - by rewrite release_each.
  - rewrite release_each. simpl. rewrite lookup_fmap, lookup_insert_eq.
    simpl. rewrite Hlist at 1. rewrite filter_notin_app; [done|].
    by rewrite <- Hlist.
  - by rewrite release_each.
  - intros x slab Hx Hs.
    apply (release_each_freed pre s0 x slab); try done.
    + rewrite Hlist in Hn. by apply NoDup_app in Hn as [? _].
    + intros y Hy. apply Hin. auto.
  - intros x Hx. unfold slab_of. rewrite release_each. simpl.
    rewrite free_slabs_kept; [done | |].
    + intros Hxp. rewrite Hlist in Hn.
      apply NoDup_app in Hn as (_ & Hd & _). by apply (Hd x Hxp).
    + intros y blk slab Hy Hb Hs.
      apply (consistent_user_ne s y x slab C); auto.
      apply slab_of_Some. eauto.
Qed.

(** [one_reader] is what two allocations and a lookup leave. *)
Lemma one_reader_reached :
  ∃ tr,
    (b0 ← alloc_buffer 96 always 4096 64 1; unlock_new_slab b0;;
     b1 ← alloc_buffer 96 always 4096 64 1; unlock_new_slab b1;;
     get_buffer 0 H1_pid) boot
    = Ret (Some 1%positive) one_reader tr.
Proof. eexists. vm_compute. reflexivity. Qed.

Lemma one_reader_consistent : consistent one_reader.
Proof.
  destruct (alloc_buffer 96 always 4096 64 1 one_buffer_unlocked)
    as [[a2|] s2 t2|] eqn:E2; try (vm_compute in E2; discriminate).
  pose proof (alloc_done_consistent _ _ _ _ _ _ _ _
                one_buffer_unlocked_consistent
                (alloc_buffer_returns _ _ _ _ _ _ _ _ _ E2)) as C2.
  apply (consistent_rw_set (slab_lock 1)
           {| wlocked := false; readers := 1 |}) in C2.
  apply (consistent_rw_set (slab_lock a2) RW_LOCK_UNLOCKED) in C2.
  vm_compute in E2. injection E2 as <- <- <-. exact C2.
Qed.

Lemma buffer_free_file_waits_one_reader :
  ∃ s',
    buffer_free_file 1 one_reader
    = Halt (spinning (slab_lock 1)) s'
        [ev_acquire (ll_spinlock 1) exclusive; ev_acquire map_lock exclusive;
         ev_acquire (slab_lock 3) exclusive]
    ∧ heap s' !! 3%positive = None
    ∧ slab_of s' 1 = slab_of one_reader 1.
Proof.
  destruct (buffer_free_file_waits 1 one_reader
              {| f_owner_pid := H1_pid; f_owner_lock := RW_LOCK_UNLOCKED;
                 private_data :=
                   Some {| spinlock := false;
                           ll_list := [3%positive; 1%positive] |} |}
              {| spinlock := false; ll_list := [3%positive; 1%positive] |}
              [3%positive] 1%positive []
              {| wlocked := false; readers := 1 |}
              one_reader_consistent eq_refl eq_refl eq_refl eq_refl eq_refl)
    as (s' & Hr & _ & _ & _ & Hfreed & Hkept).
  - intros x ->%list_elem_of_singleton. reflexivity.
  - reflexivity.
  - right. simpl. lia.
  - exists s'. split; [exact Hr|]. split.
    + apply (Hfreed 3%positive
               {| user_buffer := 4; rwlock := RW_LOCK_UNLOCKED |});
        [by left | reflexivity].
    + apply Hkept. by left.
Defined.

(** ** Owners *)


Lemma ids_below_two_files : ids_below two_files.
Proof.
  split; [vm_compute; split; [discriminate | reflexivity]|].
  intros e He. inversion He.
Qed.


(** X25: [free_buffer] reads the list head through [file->private_data]
    without a null check, after it has found the key. Through a file whose
    [private_data] is null, with [f_owner.lock] free of writers and the
    registry lock free: when the key is in the index (a buffer of another
    file of the same owner), it dereferences the null pointer at
    [spin_lock], holding the registry lock for writing, which stays held --
    so a later [get_buffer] spins on it -- and it has released nothing. *)
Theorem free_buffer_null_private_data id f s file e :
  files s !! f = Some file → private_data file = None →
  wlocked (f_owner_lock file) = false → lock s = RW_LOCK_UNLOCKED →
  map_search (_root s) {| pid := f_owner_pid file; buffer_uid := id |}
  = Some e →
  free_buffer id f s
  = Halt fault (set_lock {| wlocked := true; readers := 0 |} s)
      [ev_acquire (owner_lock f) shared; ev_release (owner_lock f) shared;
       ev_acquire map_lock exclusive]
  ∧ ∀ id' p,
      get_buffer id' p (set_lock {| wlocked := true; readers := 0 |} s)
      = Halt (spinning map_lock)
          (set_lock {| wlocked := true; readers := 0 |} s) [].
Proof.
  intros Hf Hp Ho Hl Hs. split.
  - apply wp_Halt. unfold free_buffer.
    destruct s as [root c lk fs hp]; simpl in *; subst. wp_run.
    split_and!; try done. state_eq.
    apply map_eq. intros g. destruct (decide (g = f)) as [->|?].
    + rewrite !lookup_alter_eq, Hf. simpl. f_equal.
      unfold set_f_owner_lock. simpl. apply file_eq; [|done].
      apply rwlock_t_eq; [done | lia].
    + by rewrite !lookup_alter_ne.
  - intros id' p. apply wp_Halt. unfold get_buffer.
    destruct s as [root c lk fs hp]; simpl in *. wp_run. done.
Qed.

Lemma free_buffer_null_private_data_half_open :
  free_buffer 0 2 half_open
  = Halt fault (set_lock {| wlocked := true; readers := 0 |} half_open)
      [ev_acquire (owner_lock 2) shared; ev_release (owner_lock 2) shared;
       ev_acquire map_lock exclusive]
  ∧ get_buffer 0 H1_pid (set_lock {| wlocked := true; readers := 0 |} half_open)
    = Halt (spinning map_lock)
        (set_lock {| wlocked := true; readers := 0 |} half_open) [].
Proof.
  destruct (free_buffer_null_private_data 0 2 half_open
              {| f_owner_pid := H1_pid; f_owner_lock := RW_LOCK_UNLOCKED;
                 private_data := None |}
              {| key := {| pid := H1_pid; buffer_uid := 0 |};
                 entry_addr := 1 |}
              eq_refl eq_refl eq_refl eq_refl eq_refl) as [Hr Hg].
  split; [exact Hr | exact (Hg 0 H1_pid)].
Defined.

(** ** The spinlock and the registry lock, taken in opposite orders *)

(** X26: [free_buffer] takes the registry lock and then the file's
    spinlock; [buffer_free_file] takes the file's spinlock and then the
    registry lock. Run against each other on one open file whose key is in
    the index, they can stop each other for good. If [buffer_free_file] has
    taken the spinlock, [free_buffer] takes the registry lock and spins on
    the spinlock; if [free_buffer] has taken the registry lock,
    [buffer_free_file] takes the spinlock and spins on the registry lock.
    Both ways they are left in the same state, each holding the lock the
    other one spins on, and there neither [spin_lock] nor [write_lock] can
    get through. *)
Theorem free_buffer_buffer_free_file_deadlock id f s file hd e :
  files s !! f = Some file → private_data file = Some hd →
  spinlock hd = false → wlocked (f_owner_lock file) = false →
  lock s = RW_LOCK_UNLOCKED →
  map_search (_root s) {| pid := f_owner_pid file; buffer_uid := id |}
  = Some e →
  let sB :=
    set_files
      (<[f := set_private_data
                (Some {| spinlock := true; ll_list := ll_list hd |}) file]>
         (files s)) s in
  let sA := set_lock {| wlocked := true; readers := 0 |} s in
  let sAB := set_lock {| wlocked := true; readers := 0 |} sB in
  spin_lock f s = Ret () sB [ev_acquire (ll_spinlock f) exclusive]
  ∧ free_buffer id f sB
    = Halt (spinning (ll_spinlock f)) sAB
        [ev_acquire (owner_lock f) shared; ev_release (owner_lock f) shared;
         ev_acquire map_lock exclusive]
  ∧ buffer_free_file f sA
    = Halt (spinning map_lock) sAB [ev_acquire (ll_spinlock f) exclusive]
  ∧ spin_lock f sAB = Halt (spinning (ll_spinlock f)) sAB []
  ∧ write_lock map_lock sAB = Halt (spinning map_lock) sAB [].
Proof.
  intros Hf Hp Hsp Ho Hl Hs sB sA sAB. unfold sAB, sA, sB.
  destruct s as [root c lk fs hp]; simpl in *; subst.
  split_and!.
  - apply runs_Ret. run. split_and!; try done. state_eq.
    apply map_eq. intros g. destruct (decide (g = f)) as [->|?].
    + by rewrite lookup_alter_eq, lookup_insert_eq, Hf.
    + by rewrite lookup_alter_ne, lookup_insert_ne.
  - apply wp_Halt. unfold free_buffer. wp_run.
    split_and!; try done. state_eq.
    apply map_eq. intros g. destruct (decide (g = f)) as [->|?].
    + rewrite !lookup_alter_eq, lookup_insert_eq. simpl. f_equal.
      unfold set_f_owner_lock, set_private_data. simpl. f_equal.
      apply rwlock_t_eq; [done | lia].
    + by rewrite !lookup_alter_ne, lookup_insert_ne.
  - apply wp_Halt. unfold buffer_free_file. wp_run.
    split_and!; try done. state_eq.
    apply map_eq. intros g. destruct (decide (g = f)) as [->|?].
    + by rewrite lookup_alter_eq, lookup_insert_eq, Hf.
    + by rewrite lookup_alter_ne, lookup_insert_ne.
  - apply wp_Halt. wp_run. done.
  - apply wp_Halt. wp_run. done.
Qed.

Lemma free_buffer_buffer_free_file_deadlock_one :
  ∃ sAB,
    free_buffer 0 1
      (set_files
         {[ 1%nat :=
              {| f_owner_pid := H1_pid; f_owner_lock := RW_LOCK_UNLOCKED;
                 private_data :=
                   Some {| spinlock := true; ll_list := [1%positive] |} |} ]}
         one_buffer_unlocked)
    = Halt (spinning (ll_spinlock 1)) sAB
        [ev_acquire (owner_lock 1) shared; ev_release (owner_lock 1) shared;
         ev_acquire map_lock exclusive]
    ∧ buffer_free_file 1
        (set_lock {| wlocked := true; readers := 0 |} one_buffer_unlocked)
      = Halt (spinning map_lock) sAB [ev_acquire (ll_spinlock 1) exclusive]
    ∧ write_lock map_lock sAB = Halt (spinning map_lock) sAB [].
Proof.
  destruct (free_buffer_buffer_free_file_deadlock 0 1 one_buffer_unlocked
              {| f_owner_pid := H1_pid; f_owner_lock := RW_LOCK_UNLOCKED;
                 private_data :=
                   Some {| spinlock := false; ll_list := [1%positive] |} |}
              {| spinlock := false; ll_list := [1%positive] |}
              {| key := {| pid := H1_pid; buffer_uid := 0 |};
                 entry_addr := 1 |}
              eq_refl eq_refl eq_refl eq_refl eq_refl eq_refl)
    as (_ & HA & HB & _ & HW).
  eexists. split; [exact HA|]. split; [exact HB | exact HW].
Defined.

(** ** Bulk teardown, from the allocation on (C5) *)

Lemma bind_Ret_inv {A B} (m : M A) (k : A → M B) s b s2 tr :
  (m ≫= k) s = Ret b s2 tr →
  ∃ a s1 t1 t2, m s = Ret a s1 t1 ∧ k a s1 = Ret b s2 t2 ∧ tr = t1 ++ t2.
Proof.
  unfold mbind, M_bind. destruct (m s) as [a s1 t1|]; [|done].
  destruct (k a s1) as [b' s2' t2|] eqn:Hk; [|done].
  intros [= <- <- <-]. by exists a, s1, t1, t2.
Qed.

Lemma discard_Ret_inv {A} (m : M A) s s' tr :
  (m ≫= λ _, mret ()) s = Ret () s' tr → ∃ r, m s = Ret r s' tr.
Proof.
  intros (a & s1 & t1 & t2 & Hm & Hk & ->)%bind_Ret_inv.
  unfold mret, M_ret in Hk. injection Hk as <- <-.
  rewrite app_nil_r. by exists a.
Qed.

Lemma buffer_init_file_returns szh ok g s :
  returns (buffer_init_file szh ok g) s (λ _ s' _,
    _root s' = _root s ∧ _uid_counter s' = _uid_counter s
    ∧ lock s' = lock s ∧ ∀ f, f ≠ g → files s' !! f = files s !! f).
Proof.
  unfold buffer_init_file. destruct s as [root c lk fs hp]. exec.
  - done.
  - split_and!; try done. intros f ?. by rewrite lookup_alter_ne.
Qed.

Lemma slab_unlock_returns a s :
  returns (write_unlock (slab_lock a)) s
    (λ _ s' _, ∃ v, s' = rw_set (slab_lock a) v s)
  ∧ returns (read_unlock (slab_lock a)) s
      (λ _ s' _, ∃ v, s' = rw_set (slab_lock a) v s).
Proof.
  split.
  - unfold write_unlock. destruct s as [root c lk fs hp]. exec. by eexists.
  - unfold read_unlock. destruct s as [root c lk fs hp]. exec. by eexists.
Qed.

Lemma listed_same k f s s' :
  _root s' = _root s → members s' f = members s f →
  listed k f s → listed k f s'.
Proof. unfold listed. intros -> ->. done. Qed.

Lemma listed_removed k f s s' (P : addr → Prop) `{!∀ a, Decision (P a)} :
  entries (_root s') = filter (λ e, P (entry_addr e)) (entries (_root s)) →
  members s' f = filter P (members s f) →
  listed k f s → listed k f s'.
Proof.
  unfold listed. intros -> -> HL e [HP He]%list_elem_of_filter Hk.
  apply list_elem_of_filter. split; [done|]. by apply HL.
Qed.

Lemma members_unlink a fs f s :
  members (set_files (unlink a <$> fs) s) f
  = filter (λ b, b ≠ a) (members (set_files fs s) f).
Proof.
  unfold members. simpl. rewrite lookup_fmap.
  destruct (fs !! f) as [[p l [hd|]]|]; done.
Qed.

Lemma members_unlink_each nodes fs f s :
  members (set_files (unlink_each nodes <$> fs) s) f
  = filter (λ b, b ∉ nodes) (members (set_files fs s) f).
Proof.
  unfold members. simpl. rewrite lookup_fmap.
  destruct (fs !! f) as [[p l [hd|]]|]; done.
Qed.

(** One call keeps what is registered under the key on the file's list, as
    long as the counter does not come back to the key's id and the file is
    not given a new list head. *)
Lemma run_call_tracked sz szh ok k f c s s' tr :
  tracked k f s → _uid_counter s < buffer_id_modulus - 1 →
  c ≠ call_buffer_init_file f →
  run_call sz szh ok c s = Ret () s' tr →
  tracked k f s' ∧ _uid_counter s' ≤ _uid_counter s + 1.
Proof.
  intros (Ho & Hlist & Hl & Hk) Hc Hne Hr.
  assert (next_uid s = _uid_counter s + 1) as Hn.
  { unfold next_uid. apply Z.mod_small. lia. }
  destruct c as [us ks g|id g|id p|g|g|a|a]; simpl in Hr.
  - apply discard_Ret_inv in Hr as [r Hr]. apply alloc_buffer_returns in Hr.
    destruct r as [a|].
    + destruct Hr as (file & hd & u & root' & Hf & Hp & _ & _ & _ & _ & _ & _
                      & Hi & -> & _).
      unfold tracked. simpl. rewrite Hn. split; [|lia].
      split_and!; try done; try lia.
      * by eapply map_insert_ordered.
      * intros e. simpl. rewrite (map_insert_entries _ _ _ Hi), elem_of_cons.
        intros [->|He] Hke.
        { rewrite <- Hke in Hk. simpl in Hk. lia. }
        specialize (Hlist e He Hke). unfold members in *. simpl.
        destruct (decide (f = g)) as [->|?].
        -- rewrite lookup_insert_eq. simpl. rewrite Hf in Hlist.
           simpl in Hlist. rewrite Hp in Hlist. by right.
        -- by rewrite lookup_insert_ne.
    + destruct Hr as [[-> _]|(file & hd & a & Hf & Hp & _ & _ & _ & _ & _
                              & -> & _)].
      { split; [done | lia]. }
      unfold tracked. simpl. rewrite Hn. split; [|lia].
      split_and!; try done; try lia.
      revert Hlist. apply listed_same; [done|]. unfold members. simpl.
      destruct (decide (f = g)) as [->|?].
      * rewrite lookup_insert_eq, Hf. simpl. by rewrite Hp.
      * by rewrite lookup_insert_ne.
  - apply free_buffer_returns in Hr. destruct Hr as (file & _ & _ & _ & Hr).
    destruct (map_search _ _) as [e|].
    + destruct Hr as (hd & blk & slab & _ & _ & _ & _ & _ & -> & _).
      unfold tracked. simpl. split; [|lia]. split_and!; try done; try lia.
      * by apply rb_erase_ordered.
      * revert Hlist. apply (listed_removed _ _ _ _ (λ b, b ≠ entry_addr e)).
        -- simpl. apply rb_erase_entries.
        -- apply (members_unlink (entry_addr e) (files s) f s).
    + destruct Hr as [-> _]. split; [done | lia].
  - apply discard_Ret_inv in Hr as [r Hr].
    apply get_buffer_returns_state in Hr as [_ Hr].
    destruct r as [a|]; [|subst; split; [done | lia]].
    destruct Hr as (rw & _ & _ & ->). split; [|simpl; lia].
    unfold tracked. simpl. split_and!; done || lia.
  - apply buffer_free_file_returns in Hr. destruct Hr as (file & _ & Hr).
    destruct (private_data file) as [hd|].
    + destruct Hr as (_ & _ & -> & _).
      unfold tracked. simpl. split; [|lia]. split_and!; try done; try lia.
      * by apply erase_each_ordered.
      * revert Hlist. apply (listed_removed _ _ _ _ (λ b, b ∉ ll_list hd)).
        -- simpl. apply erase_each_entries.
        -- apply (members_unlink_each (ll_list hd) (files s) f s).
    + destruct Hr as [-> _]. split; [done | lia].
  - apply discard_Ret_inv in Hr as [r Hr].
    apply buffer_init_file_returns in Hr as (Hr1 & Hr2 & Hr3 & Hr4).
    split; [|lia]. unfold tracked. rewrite Hr1, Hr2, Hr3.
    split_and!; try lia; try done. revert Hlist. apply listed_same; [done|].
    unfold members. rewrite Hr4; [done|]. congruence.
  - apply (proj1 (slab_unlock_returns a s)) in Hr as [v ->].
    split; [|simpl; lia]. unfold tracked. simpl. split_and!; done || lia.
  - apply (proj2 (slab_unlock_returns a s)) in Hr as [v ->].
    split; [|simpl; lia]. unfold tracked. simpl. split_and!; done || lia.
Qed.

Lemma run_calls_tracked sz szh ok k f cs s s' tr :
  tracked k f s →
  _uid_counter s + Z.of_nat (length cs) < buffer_id_modulus →
  call_buffer_init_file f ∉ cs →
  run_calls sz szh ok cs s = Ret () s' tr → tracked k f s'.
Proof.
  revert s tr. induction cs as [|c cs IH]; intros s tr Ht Hc Hn Hr.
  - simpl in Hr. unfold mret, M_ret in Hr. by injection Hr as <- _.
  - simpl in Hr. apply bind_Ret_inv in Hr as ([] & s1 & t1 & t2 & H1 & H2 & _).
    apply not_elem_of_cons in Hn as [Hne Hn]. simpl length in Hc.
    destruct (run_call_tracked sz szh ok k f c s s1 t1) as [Ht1 Hc1];
      [done | lia | done | done |].
    apply (IH s1 t2); [done | lia | done | done].
Qed.

Lemma erase_each_search_None nodes t k :
  ordered t = true → map_search t k = None →
  map_search (erase_each nodes t) k = None.
Proof.
  intros Ho Hn.
  destruct (map_search (erase_each nodes t) k) as [e'|] eqn:Hs; [|done].
  apply map_search_Some in Hs as [Hk He'].
  rewrite erase_each_entries in He'.
  apply list_elem_of_filter in He' as [_ He'].
  rewrite <- Hk, map_search_ordered in Hn by done. discriminate.
Qed.


